(** * narou_dl: a shallow embedding of the download-and-assemble pipeline

    The program resolves a work identifier, fetches the index page and the
    episode pages through a throttled, retrying HTTP client, and assembles
    the episodes into an e-book.  This file embeds [src/narou_dl.py]
    function by function and states the properties of the specification
    over that embedding.

    Conventions.
    - A Python [str] is a list of Unicode code points ([pystr]).  The
      tables for white space, decimal digits and case are those of the
      interpreter (Unicode 14), as far as the program's patterns reach.
    - A Python [int] is a [Z]; its decimal notation is read and written
      without a limit on the number of digits.
    - Wall-clock readings, delays and durations are finite numbers, taken
      as rationals ([Q]).  [time.sleep] keeps its limits: it refuses a
      negative duration and one that does not fit a signed 64-bit count
      of nanoseconds.  The one place where the program converts an
      integer to a double, [0.5 * (2 ** (attempt - 1))], keeps the
      overflow of that conversion.
    - Exceptions are values of [exn]; fallible code returns a [result].
    - Effects (clock, sleeps, network, file system, console) are threaded
      through a state-and-exception monad [M] over [world].  Printing a
      line, making the output directory and writing the book are taken to
      succeed.
    - The functions of [re], [urllib.parse], [requests], [bs4] and
      [ebooklib] that the program calls are modelled next to it, each as
      far as the program uses it. *)

From Stdlib Require Import Decimal DecimalN DecimalPos String Ascii.
From Stdlib Require Import List ZArith NArith QArith Bool Lia Lqa Sorted Permutation.
Import ListNotations.

Close Scope Q_scope.
Open Scope N_scope.
Open Scope list_scope.

(* ================================================================== *)
(** ** Strings *)

Definition char := N.
Definition pystr := list char.

Definition ch (a : ascii) : char := N_of_ascii a.

(** An ASCII literal as a Python string. *)
Definition str (s : string) : pystr := map N_of_ascii (list_ascii_of_string s).

Definition dquote : pystr := [34].
Definition newline : pystr := [10].

Fixpoint str_eqb (a b : pystr) : bool :=
  match a, b with
  | [], [] => true
  | x :: a', y :: b' => (x =? y) && str_eqb a' b'
  | _, _ => false
  end.

Fixpoint startswith (p s : pystr) : bool :=
  match p, s with
  | [], _ => true
  | x :: p', y :: s' => (x =? y) && startswith p' s'
  | _ :: _, [] => false
  end.

(** [sub in s] *)
Fixpoint contains (sub s : pystr) : bool :=
  startswith sub s ||
  match s with
  | [] => false
  | _ :: s' => contains sub s'
  end.

Definition has (c : char) (s : pystr) : bool := existsb (N.eqb c) s.

Fixpoint dropwhile (p : char -> bool) (s : pystr) : pystr :=
  match s with
  | [] => []
  | c :: s' => if p c then dropwhile p s' else s
  end.

(** [s.split(c, 1)]: the text before the first [c], and the text after it
    when [c] occurs. *)
Fixpoint split_once (c : char) (s : pystr) : pystr * option pystr :=
  match s with
  | [] => ([], None)
  | x :: s' =>
      if x =? c then ([], Some s')
      else let '(a, b) := split_once c s' in (x :: a, b)
  end.

(** [s.split(c)] *)
Fixpoint split (c : char) (s : pystr) : list pystr :=
  match s with
  | [] => [[]]
  | x :: s' =>
      if x =? c then [] :: split c s'
      else match split c s' with
           | [] => [[x]]
           | h :: t => (x :: h) :: t
           end
  end.

(** [sep.join(parts)] *)
Fixpoint join (sep : pystr) (parts : list pystr) : pystr :=
  match parts with
  | [] => []
  | [p] => p
  | p :: rest => p ++ sep ++ join sep rest
  end.

(** *** Unicode tables

    [str.strip()] removes the characters for which [str.isspace()] holds. *)
Definition is_space (c : char) : bool :=
  ((9 <=? c) && (c <=? 13)) || ((28 <=? c) && (c <=? 32)) ||
  (c =? 133) || (c =? 160) || (c =? 5760) ||
  ((8192 <=? c) && (c <=? 8202)) ||
  (c =? 8232) || (c =? 8233) || (c =? 8239) || (c =? 8287) || (c =? 12288).

Definition lstrip (s : pystr) : pystr := dropwhile is_space s.
Definition rstrip (s : pystr) : pystr := List.rev (dropwhile is_space (List.rev s)).
Definition strip (s : pystr) : pystr := rstrip (lstrip s).

(** The zero digit of every block of decimal digits (general category Nd,
    Unicode 14); each block is ten consecutive code points with the values
    0 to 9.  [\d] matches exactly these characters and [int] reads them. *)
Definition nd_zeros : list char :=
  [48; 1632; 1776; 1984; 2406; 2534; 2662; 2790; 2918; 3046; 3174; 3302;
   3430; 3558; 3664; 3792; 3872; 4160; 4240; 6112; 6160; 6470; 6608; 6784;
   6800; 6992; 7088; 7232; 7248; 42528; 43216; 43264; 43472; 43504; 43600;
   44016; 65296; 66720; 68912; 69734; 69872; 69942; 70096; 70384; 70736;
   70864; 71248; 71360; 71472; 71904; 72016; 72784; 73040; 73120; 92768;
   92864; 93008; 120782; 120792; 120802; 120812; 120822; 123200; 123632;
   125264; 130032].

Definition in_block (c z : char) : bool := (z <=? c) && (c <? z + 10).

Definition is_decimal (c : char) : bool := existsb (in_block c) nd_zeros.

Definition decimal_value (c : char) : Z :=
  match find (in_block c) nd_zeros with
  | Some z => Z.of_N (c - z)
  | None => 0%Z
  end.

(** [int(s)] for a string of decimal digits. *)
Definition int_of_digits (s : pystr) : Z :=
  fold_left (fun acc c => (10 * acc + decimal_value c)%Z) s 0%Z.

(** [str.lower()], character by character.  The table is complete for the
    characters that the patterns of this program can match: [n], decimal
    digits, and the letters matched by [[a-z]] when case is ignored, which
    are the 52 ASCII letters and U+0130, U+0131, U+017F and U+212A.
    U+0130 lowers to two code points, [i] and U+0307. *)
Definition char_lower (c : char) : pystr :=
  if (65 <=? c) && (c <=? 90) then [c + 32]
  else if c =? 304 then [105; 775]
  else if c =? 8490 then [107]
  else [c].

Definition lower (s : pystr) : pystr := flat_map char_lower s.

(** Case folding of the pattern matcher under [re.IGNORECASE]: two
    characters are equal up to case when they fold to the same character.
    Besides the ASCII letters the matcher identifies U+0130 and U+0131 with
    [i], U+017F with [s] and U+212A with [k]. *)
Definition fold_case (c : char) : char :=
  if (65 <=? c) && (c <=? 90) then c + 32
  else if (c =? 304) || (c =? 305) then 105
  else if c =? 383 then 115
  else if c =? 8490 then 107
  else c.

Definition ascii_upper (c : char) : char :=
  if (97 <=? c) && (c <=? 122) then c - 32 else c.

(** *** Decimal output *)

Fixpoint digits_of_uint (u : Decimal.uint) : pystr :=
  match u with
  | Nil => []
  | D0 u => 48 :: digits_of_uint u
  | D1 u => 49 :: digits_of_uint u
  | D2 u => 50 :: digits_of_uint u
  | D3 u => 51 :: digits_of_uint u
  | D4 u => 52 :: digits_of_uint u
  | D5 u => 53 :: digits_of_uint u
  | D6 u => 54 :: digits_of_uint u
  | D7 u => 55 :: digits_of_uint u
  | D8 u => 56 :: digits_of_uint u
  | D9 u => 57 :: digits_of_uint u
  end.

(** The decimal digits of a natural number, ["0"] for zero. *)
Definition digits_of_N (n : N) : pystr := digits_of_uint (N.to_uint n).

(** [str(z)] and [f"{z}"] *)
Definition str_of_int (z : Z) : pystr :=
  if (z <? 0)%Z then ch "-" :: digits_of_N (Z.abs_N z)
  else digits_of_N (Z.abs_N z).

Definition zeros (n : nat) : pystr := repeat 48 n.

(** [f"{z:05d}"]: the sign, then the digits padded with zeros on the left
    so that sign and digits together take at least five characters. *)
Definition format_05d (z : Z) : pystr :=
  let d := digits_of_N (Z.abs_N z) in
  if (z <? 0)%Z then ch "-" :: zeros (4 - List.length d) ++ d
  else zeros (5 - List.length d) ++ d.

(* ================================================================== *)
(** ** Exceptions and results *)

Inductive exn : Type :=
| RequestException (reason : nat)   (* requests.RequestException and its subclasses *)
| ValueError (msg : pystr)
| OverflowError
| AssertionError
| SystemExit (msg : pystr).

Inductive result (A : Type) : Type :=
| Return (a : A)
| Raise (e : exn).

Arguments Return {A} a.
Arguments Raise {A} e.

Definition rbind {A B} (r : result A) (f : A -> result B) : result B :=
  match r with
  | Return a => f a
  | Raise e => Raise e
  end.

(* ================================================================== *)
(** ** Pattern matching ([re])

    A backtracking matcher for the fragment of the pattern language that
    the program uses: literals, [\d], a character range, greedy bounded
    repetition of a single-character item, sequence, alternation,
    capturing groups, and the anchors [^] and [$]. *)

Inductive atom : Type :=
| Lit (c : char)
| Digit
| Range (lo hi : char).

Inductive re : Type :=
| Eps
| Atom (a : atom)
| Rep (a : atom) (lo : nat) (hi : option nat)
| Seq (r1 r2 : re)
| Alt (r1 r2 : re)
| Group (n : nat) (r : re)
| Bol
| Eol.

Definition in_range (lo hi c : char) : bool := (lo <=? c) && (c <=? hi).

(** Does the item match the character [c]?  [ic] is [re.IGNORECASE]. *)
Definition atom_match (ic : bool) (a : atom) (c : char) : bool :=
  match a with
  | Lit x => if ic then fold_case c =? fold_case x else c =? x
  | Digit => is_decimal c
  | Range lo hi =>
      in_range lo hi c ||
      (ic && (in_range lo hi (fold_case c) || in_range lo hi (ascii_upper c)))
  end.

(** The groups captured so far, most recent first. *)
Definition caps := list (nat * pystr).

Definition below (hi : option nat) (n : nat) : bool :=
  match hi with
  | None => true
  | Some h => (n <? h)%nat
  end.

(** Greedy repetition: take as many characters as the bound allows, then
    give them back one at a time until the continuation [k] succeeds.
    [n] counts the characters taken so far, [pos] is the offset of [s] in
    the subject. *)
Fixpoint rep {A} (ic : bool) (a : atom) (lo : nat) (hi : option nat)
    (n pos : nat) (s : pystr) (k : nat -> pystr -> option A) : option A :=
  let stop := if (lo <=? n)%nat then k pos s else None in
  match s with
  | c :: s' =>
      if below hi n && atom_match ic a c then
        match rep ic a lo hi (S n) (S pos) s' k with
        | Some x => Some x
        | None => stop
        end
      else stop
  | [] => stop
  end.

Fixpoint run {A} (ic : bool) (r : re) (pos : nat) (s : pystr) (cs : caps)
    (k : nat -> pystr -> caps -> option A) : option A :=
  match r with
  | Eps => k pos s cs
  | Atom a =>
      match s with
      | c :: s' => if atom_match ic a c then k (S pos) s' cs else None
      | [] => None
      end
  | Rep a lo hi => rep ic a lo hi 0 pos s (fun pos' s' => k pos' s' cs)
  | Seq r1 r2 => run ic r1 pos s cs (fun pos' s' cs' => run ic r2 pos' s' cs' k)
  | Alt r1 r2 =>
      match run ic r1 pos s cs k with
      | Some x => Some x
      | None => run ic r2 pos s cs k
      end
  | Group n r =>
      run ic r pos s cs
        (fun pos' s' cs' => k pos' s' ((n, firstn (pos' - pos) s) :: cs'))
  | Bol => if (pos =? 0)%nat then k pos s cs else None
  | Eol =>
      match s with
      | [] => k pos s cs
      | [c] => if c =? 10 then k pos s cs else None
      | _ => None
      end
  end.

Definition accept (_ : nat) (_ : pystr) (cs : caps) : option caps := Some cs.

Definition accept_at_end (_ : nat) (s : pystr) (cs : caps) : option caps :=
  match s with
  | [] => Some cs
  | _ :: _ => None
  end.

(** [re.match]: a match that starts at the beginning of the subject. *)
Definition re_match (ic : bool) (r : re) (s : pystr) : option caps :=
  run ic r 0 s [] accept.

(** [re.fullmatch]: a match of the whole subject. *)
Definition re_fullmatch (ic : bool) (r : re) (s : pystr) : option caps :=
  run ic r 0 s [] accept_at_end.

Fixpoint search_from (ic : bool) (r : re) (pos : nat) (s : pystr) : option caps :=
  match run ic r pos s [] accept with
  | Some cs => Some cs
  | None =>
      match s with
      | [] => None
      | _ :: s' => search_from ic r (S pos) s'
      end
  end.

(** [re.search]: the leftmost match. *)
Definition re_search (ic : bool) (r : re) (s : pystr) : option caps :=
  search_from ic r 0 s.

(** [m.group(n)]; every group of the program's patterns takes part in
    every match. *)
Fixpoint group (n : nat) (cs : caps) : pystr :=
  match cs with
  | [] => []
  | (i, t) :: cs' => if (i =? n)%nat then t else group n cs'
  end.

(** The pattern that [re.escape(s)] denotes: the characters of [s], each
    taken literally. *)
Fixpoint literal (s : pystr) : re :=
  match s with
  | [] => Eps
  | c :: s' => Seq (Atom (Lit c)) (literal s')
  end.

(* ================================================================== *)
(** ** URL handling ([urllib.parse])

    [urlsplit], [urlparse], [urlunparse] and [urljoin] as the library
    defines them.  The library validates a network location that contains
    brackets (address literals) or non-ASCII characters (NFKC
    normalisation) against tables that lie outside this development; the
    two tests are taken as parameters. *)

Record netloc_rules : Type := {
  bracketed_netloc_ok : pystr -> bool;  (* [_check_bracketed_netloc] passes *)
  nfkc_netloc_ok : pystr -> bool        (* [_checknetloc] passes *)
}.

Record url_parts : Type := {
  scheme : pystr;
  netloc : pystr;
  path : pystr;
  params : pystr;
  query : pystr;
  fragment : pystr
}.

Definition str_in (s : pystr) (l : list pystr) : bool := existsb (str_eqb s) l.

Definition uses_relative : list pystr :=
  map str ["ftp"; "http"; "gopher"; "nntp"; "imap"; "wais"; "file"; "https";
           "shttp"; "mms"; "prospero"; "rtsp"; "rtspu"; "sftp"; "svn";
           "svn+ssh"; "ws"; "wss"]%string ++ [[]].

Definition uses_netloc : list pystr :=
  map str ["ftp"; "http"; "gopher"; "nntp"; "telnet"; "imap"; "wais"; "file";
           "mms"; "https"; "shttp"; "snews"; "prospero"; "rtsp"; "rtspu";
           "rsync"; "svn"; "svn+ssh"; "sftp"; "nfs"; "git"; "git+ssh"; "ws";
           "wss"]%string ++ [[]].

Definition uses_params : list pystr :=
  map str ["ftp"; "hdl"; "prospero"; "http"; "imap"; "https"; "shttp"; "rtsp";
           "rtspu"; "sip"; "sips"; "mms"; "sftp"; "tel"]%string ++ [[]].

Definition is_ascii_alpha (c : char) : bool :=
  in_range 97 122 c || in_range 65 90 c.

Definition scheme_char (c : char) : bool :=
  is_ascii_alpha c || in_range 48 57 c || (c =? 43) || (c =? 45) || (c =? 46).

Definition c0_control_or_space (c : char) : bool := c <=? 32.

Definition unsafe_url_char (c : char) : bool := (c =? 9) || (c =? 13) || (c =? 10).

Definition is_ascii_str (s : pystr) : bool := forallb (fun c => c <? 128) s.

(** The scheme of [url] and the text after its colon, when [url] starts
    with a scheme. *)
Definition split_scheme (url : pystr) : option (pystr * pystr) :=
  match split_once (ch ":") url with
  | (c :: before, Some after) =>
      if is_ascii_alpha c && forallb scheme_char (c :: before)
      then Some (lower (c :: before), after)
      else None
  | _ => None
  end.

(** [_splitnetloc(url, 2)] for a [url] that starts with two slashes, given
    without them. *)
Fixpoint splitnetloc (s : pystr) : pystr * pystr :=
  match s with
  | [] => ([], [])
  | c :: s' =>
      if (c =? 47) || (c =? 63) || (c =? 35) then ([], s)
      else let '(n, rest) := splitnetloc s' in (c :: n, rest)
  end.

Definition invalid_ipv6 : exn := ValueError (str "Invalid IPv6 URL").
Definition invalid_nfkc : exn :=
  ValueError (str "netloc contains invalid characters under NFKC normalization").

Section Urllib.

Variable rules : netloc_rules.

Definition check_brackets (nl : pystr) : result unit :=
  let ob := has (ch "[") nl in
  let cb := has (ch "]") nl in
  if xorb ob cb then Raise invalid_ipv6
  else if ob && cb && negb (bracketed_netloc_ok rules nl) then Raise invalid_ipv6
  else Return tt.

Definition checknetloc (nl : pystr) : result unit :=
  if is_ascii_str nl then Return tt
  else if nfkc_netloc_ok rules nl then Return tt
  else Raise invalid_nfkc.

Definition urlsplit (url0 default_scheme : pystr) : result url_parts :=
  let url := filter (fun c => negb (unsafe_url_char c))
                    (dropwhile c0_control_or_space url0) in
  let dscheme := filter (fun c => negb (unsafe_url_char c))
                        (List.rev (dropwhile c0_control_or_space
                           (List.rev (dropwhile c0_control_or_space default_scheme)))) in
  let '(sch, url) :=
    match split_scheme url with
    | Some (sch, rest) => (sch, rest)
    | None => (dscheme, url)
    end in
  rbind
    (match url with
     | 47 :: 47 :: rest =>
         let '(nl, url') := splitnetloc rest in
         rbind (check_brackets nl) (fun _ => Return (nl, url'))
     | _ => Return ([], url)
     end)
    (fun '(nl, url) =>
       let '(url, frag) :=
         match split_once (ch "#") url with
         | (a, Some b) => (a, b)
         | (a, None) => (a, [])
         end in
       let '(url, qry) :=
         match split_once (ch "?") url with
         | (a, Some b) => (a, b)
         | (a, None) => (a, [])
         end in
       rbind (checknetloc nl) (fun _ =>
       Return {| scheme := sch; netloc := nl; path := url; params := [];
                 query := qry; fragment := frag |})).

(** [_splitparams]: the parameters are cut from the last path segment. *)
Definition splitparams (url : pystr) : pystr * pystr :=
  let segs := split (ch "/") url in
  match split_once (ch ";") (last segs []) with
  | (a, Some b) => (join (str "/") (removelast segs ++ [a]), b)
  | (_, None) => (url, [])
  end.

Definition urlparse_with (url default_scheme : pystr) : result url_parts :=
  rbind (urlsplit url default_scheme) (fun p =>
  if str_in (scheme p) uses_params && has (ch ";") (path p) then
    let '(u, ps) := splitparams (path p) in
    Return {| scheme := scheme p; netloc := netloc p; path := u; params := ps;
              query := query p; fragment := fragment p |}
  else Return p).

(** [urlparse(url)] *)
Definition urlparse (url : pystr) : result url_parts := urlparse_with url [].

Definition nonempty (s : pystr) : bool :=
  match s with
  | [] => false
  | _ :: _ => true
  end.

Definition urlunsplit (sch nl url qry frag : pystr) : pystr :=
  let url :=
    if nonempty nl ||
       (nonempty sch && str_in sch uses_netloc && negb (startswith (str "//") url))
    then
      let url := if nonempty url && negb (startswith (str "/") url)
                 then ch "/" :: url else url in
      str "//" ++ nl ++ url
    else url in
  let url := if nonempty sch then sch ++ ch ":" :: url else url in
  let url := if nonempty qry then url ++ ch "?" :: qry else url in
  if nonempty frag then url ++ ch "#" :: frag else url.

Definition urlunparse (p : url_parts) : pystr :=
  let url := if nonempty (params p) then path p ++ ch ";" :: params p else path p in
  urlunsplit (scheme p) (netloc p) url (query p) (fragment p).

(** The loop of [urljoin] over the path segments; [acc] is the resolved
    path so far, last segment first. *)
Fixpoint resolve_segments (segs acc : list pystr) : list pystr :=
  match segs with
  | [] => List.rev acc
  | seg :: rest =>
      if str_eqb seg (str "..") then resolve_segments rest (tl acc)
      else if str_eqb seg (str ".") then resolve_segments rest acc
      else resolve_segments rest (seg :: acc)
  end.

(** [segments[1:-1] = filter(None, segments[1:-1])] *)
Definition drop_empty_inner (segs : list pystr) : list pystr :=
  match segs with
  | [] => []
  | [a] => [a]
  | a :: rest => a :: filter nonempty (removelast rest) ++ [last rest []]
  end.

Definition urljoin (base url : pystr) : result pystr :=
  if negb (nonempty base) then Return url
  else if negb (nonempty url) then Return base
  else
    rbind (urlparse base) (fun b =>
    rbind (urlparse_with url (scheme b)) (fun u =>
    if negb (str_eqb (scheme u) (scheme b)) || negb (str_in (scheme u) uses_relative)
    then Return url
    else if str_in (scheme u) uses_netloc && nonempty (netloc u)
    then Return (urlunparse u)
    else
      let nl := if str_in (scheme u) uses_netloc then netloc b else netloc u in
      if negb (nonempty (path u)) && negb (nonempty (params u)) then
        Return (urlunparse
          {| scheme := scheme u; netloc := nl; path := path b; params := params b;
             query := if nonempty (query u) then query u else query b;
             fragment := fragment u |})
      else
        let base_parts := split (ch "/") (path b) in
        let base_parts :=
          if nonempty (last base_parts []) then removelast base_parts
          else base_parts in
        let segments :=
          if startswith (str "/") (path u) then split (ch "/") (path u)
          else drop_empty_inner (base_parts ++ split (ch "/") (path u)) in
        let resolved := resolve_segments segments [] in
        let resolved :=
          if str_in (last segments []) [str "."; str ".."]
          then resolved ++ [[]] else resolved in
        let joined := join (str "/") resolved in
        Return (urlunparse
          {| scheme := scheme u; netloc := nl;
             path := if nonempty joined then joined else str "/";
             params := params u; query := query u; fragment := fragment u |}))).

End Urllib.

(* ================================================================== *)
(** ** The outside world *)

(** The HTML tree of a page, as far as the program queries it. *)
Record Soup : Type := {
  anchors : list pystr;              (* [a["href"]] for [find_all("a", href=True)] *)
  novel_title : option pystr;        (* [.novel_title], text stripped *)
  novel_writername : option pystr;   (* [.novel_writername a], text stripped *)
  novel_subtitle : option pystr;     (* [.novel_subtitle], text stripped *)
  novel_p : option pystr;            (* [#novel_p], inner markup *)
  novel_honbun : option pystr;       (* [#novel_honbun], inner markup *)
  novel_a : option pystr             (* [#novel_a], inner markup *)
}.

#[warnings="-register-all"]
Inductive json : Type :=
| JNull
| JBool (b : bool)
| JInt (z : Z)
| JFloat
| JString (s : pystr)
| JList (l : list json)
| JDict (d : list (pystr * json)).

(** An HTTP response: its status, what [BeautifulSoup(resp.text, "lxml")]
    makes of its text, and what [json.loads(resp.text)] makes of it
    ([None] when that raises). *)
Record response : Type := {
  status_code : Z;
  soup_of : Soup;
  json_of : option json
}.

Inductive sleep_site : Type := Throttle | Backoff.

Inductive event : Type :=
| Slept (site : sleep_site) (seconds : Q)
| Requested (url : pystr).

Record Episode : Type := {
  index : Z;
  title : pystr;
  url : pystr;
  html_body : pystr
}.

Record EpubHtml : Type := {
  chapter_title : pystr;
  file_name : pystr;
  lang : pystr;
  content : pystr     (* the text whose UTF-8 encoding is the chapter *)
}.

Inductive EpubItem : Type :=
| Stylesheet (uid name media_type content : pystr)
| Chapter (c : EpubHtml)
| EpubNcx
| EpubNav.

Inductive spine_entry : Type :=
| SpineNav                       (* the string ["nav"] *)
| SpineChapter (c : EpubHtml).

Record EpubBook : Type := {
  identifier : pystr;
  book_title : pystr;
  language : pystr;
  authors : list pystr;
  items : list EpubItem;
  toc : list EpubHtml;
  spine : list spine_entry
}.

Record Path : Type := {
  parent : pystr;
  name : pystr
}.

(** The state of everything outside the program, together with the one
    mutable field of the program's single [HttpClient].  [network n u]
    is what the [n]-th request of the run meets when it asks for [u]: the
    time it takes, and a failure of the transport or a response. *)
Record world : Type := {
  clock : Q;                                   (* [time.time()] *)
  network : nat -> pystr -> Q * (nat + response);
  sent : nat;                                  (* requests issued so far *)
  trace : list event;                          (* latest first *)
  last_request : Q;                            (* [client._last_request] *)
  dirs : list pystr;                           (* directories made *)
  files : list (Path * EpubBook);              (* files written *)
  console : list pystr                         (* lines printed, latest first *)
}.

(** Arithmetic on seconds; the results are kept in lowest terms. *)
Definition sec_add (a b : Q) : Q := Qred (a + b)%Q.
Definition sec_sub (a b : Q) : Q := Qred (a - b)%Q.
Definition sec_mul (a b : Q) : Q := Qred (a * b)%Q.

(** *** The monad of effects *)

Definition M (A : Type) : Type := world -> result A * world.

Definition ret {A} (a : A) : M A := fun w => (Return a, w).

Definition raise {A} (e : exn) : M A := fun w => (Raise e, w).

Definition bind {A B} (c : M A) (f : A -> M B) : M B :=
  fun w =>
    match c w with
    | (Return a, w') => f a w'
    | (Raise e, w') => (Raise e, w')
    end.

Definition lift {A} (r : result A) : M A := fun w => (r, w).

(** [try: c except ...]: the outcome of [c] as a value. *)
Definition attempt {A} (c : M A) : M (result A) :=
  fun w => let '(r, w') := c w in (Return r, w').

Declare Scope monad_scope.
Delimit Scope monad_scope with monad.

Notation "x <- c ;; k" := (bind c (fun x => k))
  (at level 100, c at next level, right associativity) : monad_scope.
Notation "c ;;; k" := (bind c (fun _ => k))
  (at level 100, right associativity) : monad_scope.

Open Scope monad_scope.

Definition now : M Q := fun w => (Return (clock w), w).

(** [time.sleep] converts the duration to a signed 64-bit count of
    nanoseconds.  A duration of [2 ** 63] nanoseconds or more, about 292
    years, or below [- 2 ** 63] nanoseconds, does not fit. *)
Definition sleep_limit : Q := (9223372036854775808 # 1000000000)%Q.

Definition negative_sleep : exn :=
  ValueError (str "sleep length must be non-negative").

(** [time.sleep(seconds)], called from [site]: [OverflowError] for a
    duration that does not fit, [ValueError] for a negative one, and
    otherwise the clock advances by the duration. *)
Definition sleep (site : sleep_site) (seconds : Q) : M unit :=
  fun w =>
    if Qle_bool sleep_limit seconds || negb (Qle_bool (- sleep_limit) seconds)
    then (Raise OverflowError, w)
    else if negb (Qle_bool 0 seconds) then (Raise negative_sleep, w)
    else
      (Return tt,
       {| clock := sec_add (clock w) seconds; network := network w; sent := sent w;
          trace := Slept site seconds :: trace w; last_request := last_request w;
          dirs := dirs w; files := files w; console := console w |}).

Definition get_last_request : M Q := fun w => (Return (last_request w), w).

Definition set_last_request (t : Q) : M unit :=
  fun w =>
    (Return tt,
     {| clock := clock w; network := network w; sent := sent w;
        trace := trace w; last_request := t;
        dirs := dirs w; files := files w; console := console w |}).

Definition print (line : pystr) : M unit :=
  fun w =>
    (Return tt,
     {| clock := clock w; network := network w; sent := sent w;
        trace := trace w; last_request := last_request w;
        dirs := dirs w; files := files w; console := line :: console w |}).

Definition mkdir (d : pystr) : M unit :=
  fun w =>
    (Return tt,
     {| clock := clock w; network := network w; sent := sent w;
        trace := trace w; last_request := last_request w;
        dirs := d :: dirs w; files := files w; console := console w |}).

(** [epub.write_epub(str(out_path), book, {})] *)
Definition write_epub (p : Path) (b : EpubBook) : M unit :=
  fun w =>
    (Return tt,
     {| clock := clock w; network := network w; sent := sent w;
        trace := trace w; last_request := last_request w;
        dirs := dirs w; files := (p, b) :: files w; console := console w |}).

(** The library refuses a time-out that is not positive, with a
    [ValueError] that is no [RequestException], before it sends
    anything. *)
Definition invalid_timeout (seconds : Z) : exn :=
  ValueError (str "Attempted to set connect timeout to " ++ str_of_int seconds
                ++ str ", but the timeout cannot be set to a value less than or equal to 0.").

(** [session.get(url, timeout=seconds)] followed by
    [resp.raise_for_status()]: the time-out is refused, or the transport
    fails (a time-out included), or the status is an error status, or the
    response is returned. *)
Definition session_get (seconds : Z) (u : pystr) : M response :=
  fun w =>
    if (seconds <=? 0)%Z then (Raise (invalid_timeout seconds), w)
    else
      let '(took, outcome) := network w (sent w) u in
      let w' :=
        {| clock := sec_add (clock w) took; network := network w; sent := S (sent w);
           trace := Requested u :: trace w; last_request := last_request w;
           dirs := dirs w; files := files w; console := console w |} in
      match outcome with
      | inl reason => (Raise (RequestException reason), w')
      | inr resp =>
          if ((400 <=? status_code resp) && (status_code resp <? 600))%Z
          then (Raise (RequestException (Z.to_nat (status_code resp))), w')
          else (Return resp, w')
      end.

(* ================================================================== *)
(** ** HttpClient *)

Record HttpClient : Type := {
  delay : Q;
  timeout : Z;
  retries : Z;
  user_agent : pystr
}.

(** [max(a, b)] on numbers: [b] when it is greater than [a], else [a]. *)
Definition Qpy_max (a b : Q) : Q := if Qle_bool b a then a else b.
Definition Zpy_max (a b : Z) : Z := if (b <=? a)%Z then a else b.

(** [min(a, b)]: [b] when it is less than [a], else [a]. *)
Definition Qpy_min (a b : Q) : Q := if Qle_bool a b then a else b.

Definition HttpClient_init (delay0 : Q) (timeout0 retries0 : Z) (ua : pystr)
  : M HttpClient :=
  set_last_request 0%Q ;;;
  ret {| delay := Qpy_max 0%Q delay0; timeout := timeout0;
         retries := Zpy_max 1%Z retries0; user_agent := ua |}.

Definition throttle (self : HttpClient) : M unit :=
  if Qle_bool (delay self) 0%Q then ret tt
  else
    t <- now ;;
    last <- get_last_request ;;
    let elapsed := sec_sub t last in
    let wait := sec_sub (delay self) elapsed in
    (if Qle_bool wait 0%Q then ret tt else sleep Throttle wait) ;;;
    t' <- now ;;
    set_last_request t'.

(** The conversion of an integer to a double overflows from
    [2^1024 - 2^970] on, the first integer that rounds to [2^1024].  Below
    that the value is taken exactly, which it is for the powers of two
    that the program converts. *)
Definition float_of_int (z : Z) : result Q :=
  if (Z.abs z <? 2 ^ 1024 - 2 ^ 970)%Z then Return (inject_Z z)
  else Raise OverflowError.

(** [min(5.0, 0.5 * (2 ** (attempt - 1)))] for [attempt >= 1] *)
Definition backoff (attempt : Z) : result Q :=
  rbind (float_of_int (2 ^ (attempt - 1))%Z) (fun p =>
  Return (Qpy_min 5%Q (sec_mul (1 # 2) p))).

(** The statements after the loop of [get]. *)
Definition raise_last {A} (last_error : option exn) : M A :=
  match last_error with
  | None => raise AssertionError
  | Some e => raise e
  end.

(** The loop of [get]: [todo] attempts of [range(1, retries + 1)] are
    left, the next one is numbered [attempt]. *)
Fixpoint get_loop (self : HttpClient) (u : pystr) (todo : nat) (attempt_no : Z)
    (last_error : option exn) : M response :=
  match todo with
  | O => raise_last last_error
  | S todo' =>
      throttle self ;;;
      r <- attempt (session_get (timeout self) u) ;;
      match r with
      | Return resp => ret resp
      | Raise (RequestException reason) =>
          let last_error := Some (RequestException reason) in
          if (attempt_no =? retries self)%Z then raise_last last_error
          else
            b <- lift (backoff attempt_no) ;;
            sleep Backoff b ;;;
            get_loop self u todo' (attempt_no + 1)%Z last_error
      | Raise e => raise e
      end
  end.

Definition get (self : HttpClient) (u : pystr) : M response :=
  get_loop self u (Z.to_nat (retries self)) 1%Z None.

(* ================================================================== *)
(** ** The program's patterns *)

(** [n\d{4,}[a-z]{1,2}] *)
Definition NCODE_BODY : re :=
  Seq (Atom (Lit (ch "n")))
      (Seq (Rep Digit 4 None) (Rep (Range (ch "a") (ch "z")) 1 (Some 2%nat))).

(** [/(n\d{4,}[a-z]{1,2})(?:/|$)], case ignored *)
Definition NCODE_RE : re :=
  Seq (Atom (Lit (ch "/")))
      (Seq (Group 1 NCODE_BODY) (Alt (Atom (Lit (ch "/"))) Eol)).

(** [^/(n\d{4,}[a-z]{1,2})/(\d+)/?$], case ignored *)
Definition EP_PATH_RE : re :=
  Seq Bol
   (Seq (Atom (Lit (ch "/")))
    (Seq (Group 1 NCODE_BODY)
     (Seq (Atom (Lit (ch "/")))
      (Seq (Group 2 (Rep Digit 1 None))
       (Seq (Rep (Lit (ch "/")) 0 (Some 1%nat)) Eol))))).

(** [rf"/{re.escape(ncode)}/(\d+)/"], case ignored *)
Definition EP_NO_RE (ncode : pystr) : re :=
  Seq (Atom (Lit (ch "/")))
   (Seq (literal ncode)
    (Seq (Atom (Lit (ch "/")))
     (Seq (Group 1 (Rep Digit 1 None)) (Atom (Lit (ch "/")))))).

(** [/(\d+)/?$] *)
Definition TRAILING_NO_RE : re :=
  Seq (Atom (Lit (ch "/")))
   (Seq (Group 1 (Rep Digit 1 None))
    (Seq (Rep (Lit (ch "/")) 0 (Some 1%nat)) Eol)).

Definition DEFAULT_UA : pystr := str "narou-dl/0.1 (personal-use)".
Definition API_ENDPOINT : pystr := str "https://api.syosetu.com/novelapi/api/".

(* ================================================================== *)
(** ** The program *)

Definition normalize_index_url (ncode : pystr) : pystr :=
  str "https://ncode.syosetu.com/" ++ ncode ++ str "/".

Definition get_soup (client : HttpClient) (u : pystr) : M Soup :=
  resp <- get client u ;;
  ret (soup_of resp).

(** The key of the sort in [parse_episode_urls]. *)
Definition ep_no (ncode u : pystr) : Z :=
  match re_search true (EP_NO_RE ncode) u with
  | Some m2 => int_of_digits (group 1 m2)
  | None => (10 ^ 18)%Z
  end.

(** [list.sort(key=...)]: a stable sort, ascending by key. *)
Fixpoint insert_by_key {A} (key : A -> Z) (x : A) (l : list A) : list A :=
  match l with
  | [] => [x]
  | y :: l' => if (key x <=? key y)%Z then x :: l else y :: insert_by_key key x l'
  end.

Fixpoint sort_by_key {A} (key : A -> Z) (l : list A) : list A :=
  match l with
  | [] => []
  | x :: l' => insert_by_key key x (sort_by_key key l')
  end.

Definition nonempty_list {A} (l : list A) : bool :=
  match l with
  | [] => false
  | _ :: _ => true
  end.

Section Program.

Variable rules : netloc_rules.

Definition extract_ncode (url_or_ncode : pystr) : result pystr :=
  let raw := strip url_or_ncode in
  match re_fullmatch true NCODE_BODY raw with
  | Some _ => Return (lower raw)
  | None =>
      rbind (urlparse rules raw) (fun parsed =>
      let p := if nonempty (path parsed) then path parsed else raw in
      match re_search true NCODE_RE (p ++ str "/") with
      | None =>
          Raise (ValueError (str "Unable to extract ncode from: " ++ url_or_ncode))
      | Some m => Return (lower (group 1 m))
      end)
  end.

(** The loop of [parse_episode_urls] over the anchors. *)
Fixpoint scan_anchors (ncode base_url : pystr) (hrefs urls seen : list pystr)
  : result (list pystr) :=
  match hrefs with
  | [] => Return urls
  | a :: rest =>
      let href := strip a in
      rbind
        (if contains (str "://") href
         then rbind (urlparse rules href) (fun parsed => Return (path parsed))
         else Return href)
        (fun p =>
           match re_match true EP_PATH_RE p with
           | None => scan_anchors ncode base_url rest urls seen
           | Some m =>
               if negb (str_eqb (lower (group 1 m)) (lower ncode))
               then scan_anchors ncode base_url rest urls seen
               else
                 rbind (urljoin rules base_url p) (fun abs_url =>
                 if str_in abs_url seen
                 then scan_anchors ncode base_url rest urls seen
                 else scan_anchors ncode base_url rest
                        (urls ++ [abs_url]) (abs_url :: seen))
           end)
  end.

Definition parse_episode_urls (index_soup : Soup) (ncode base_url : pystr)
  : result (list pystr) :=
  rbind (scan_anchors ncode base_url (anchors index_soup) [] []) (fun urls =>
  Return (sort_by_key (ep_no ncode) urls)).

Definition no_body_found : pystr := str "<p>(no body found)</p>".

Definition hr_separator : pystr := newline ++ str "<hr/>" ++ newline.

(** The zones of an episode page that are captured, in order. *)
Definition episode_parts (s : Soup) (include_preface include_afterword : bool)
  : list pystr :=
  let parts := [] in
  let parts :=
    if include_preface then
      match novel_p s with
      | Some node => parts ++ [node]
      | None => parts
      end
    else parts in
  let parts :=
    match novel_honbun s with
    | Some node => parts ++ [node]
    | None => parts
    end in
  if include_afterword then
    match novel_a s with
    | Some node => parts ++ [node]
    | None => parts
    end
  else parts.

Definition episode_of_soup (s : Soup) (u : pystr)
    (include_preface include_afterword : bool) (default_title : pystr) : Episode :=
  let title := match novel_subtitle s with
               | Some t => t
               | None => default_title
               end in
  let parts := episode_parts s include_preface include_afterword in
  let body_html := if nonempty_list parts then join hr_separator parts
                   else no_body_found in
  let idx := match re_search false TRAILING_NO_RE u with
             | Some m => int_of_digits (group 1 m)
             | None => 1%Z
             end in
  {| index := idx; title := title; url := u; html_body := body_html |}.

Definition extract_episode (client : HttpClient) (u : pystr)
    (include_preface include_afterword : bool) (default_title : pystr) : M Episode :=
  s <- get_soup client u ;;
  ret (episode_of_soup s u include_preface include_afterword default_title).

Fixpoint dict_get (key : pystr) (d : list (pystr * json)) : option json :=
  match d with
  | [] => None
  | (k, v) :: d' => if str_eqb k key then Some v else dict_get key d'
  end.

(** The total episode count that the API reports: an [int] (which in
    Python includes the booleans), or [None]. *)
Definition general_all_no_of (data : json) : option json :=
  match data with
  | JList (_ :: record :: _) =>
      match record with
      | JDict d =>
          match dict_get (str "general_all_no") d with
          | Some (JInt z) => Some (JInt z)
          | Some (JBool b) => Some (JBool b)
          | _ => None
          end
      | _ => None
      end
  | _ => None
  end.

Definition fetch_general_all_no (client : HttpClient) (ncode : pystr)
  : M (option json) :=
  r <- attempt (get client (API_ENDPOINT ++ str "?" ++ str "out=json&ncode="
                              ++ ncode ++ str "&of=ga")) ;;
  match r with
  | Raise (SystemExit m) => raise (SystemExit m)
  | Raise _ => ret None
  | Return resp =>
      match json_of resp with
      | None => ret None
      | Some data => ret (general_all_no_of data)
      end
  end.

Definition build_css (vertical : bool) : pystr :=
  let base :=
    [str "body { line-height: 1.8; }";
     str "h1 { font-size: 1.2em; margin: 0 0 1em 0; }";
     str "hr { border: none; border-top: 1px solid #ccc; margin: 1em 0; }";
     str "ruby { ruby-position: over; }"] in
  let base :=
    if vertical then
      base ++ [str "body { writing-mode: vertical-rl; }";
               str "body { text-orientation: mixed; }"]
    else base in
  join newline base ++ newline.

Definition chapter_of (language : pystr) (ep : Episode) : EpubHtml :=
  let heading := str_of_int (index ep) ++ str ". " ++ title ep in
  {| chapter_title := heading;
     file_name := str "chap_" ++ format_05d (index ep) ++ str ".xhtml";
     lang := language;
     content :=
       str "<?xml version=" ++ dquote ++ str "1.0" ++ dquote
         ++ str " encoding=" ++ dquote ++ str "utf-8" ++ dquote ++ str "?>"
         ++ str "<html xmlns=" ++ dquote ++ str "http://www.w3.org/1999/xhtml"
         ++ dquote ++ str " lang=" ++ dquote ++ language ++ dquote ++ str ">"
         ++ str "<head><title>" ++ heading ++ str "</title>"
         ++ str "<link rel=" ++ dquote ++ str "stylesheet" ++ dquote
         ++ str " type=" ++ dquote ++ str "text/css" ++ dquote
         ++ str " href=" ++ dquote ++ str "style/style.css" ++ dquote ++ str " />"
         ++ str "</head><body>"
         ++ str "<h1>" ++ heading ++ str "</h1>"
         ++ html_body ep
         ++ str "</body></html>" |}.

(** The loop of [build_epub] over the episodes. *)
Fixpoint add_chapters (language : pystr) (episodes : list Episode)
    (book_items : list EpubItem) (toc0 : list EpubHtml) (spine0 : list spine_entry)
  : list EpubItem * list EpubHtml * list spine_entry :=
  match episodes with
  | [] => (book_items, toc0, spine0)
  | ep :: rest =>
      let chapter := chapter_of language ep in
      add_chapters language rest
        (book_items ++ [Chapter chapter])
        (toc0 ++ [chapter])
        (spine0 ++ [SpineChapter chapter])
  end.

(** The book that [build_epub] hands to [epub.write_epub]. *)
Definition build_book (ident title0 author : pystr) (episodes : list Episode)
    (vertical : bool) (language : pystr) : EpubBook :=
  let css := Stylesheet (str "style_base") (str "style/style.css")
                        (str "text/css") (build_css vertical) in
  let '(book_items, toc1, spine1) :=
    add_chapters language episodes [css] [] [SpineNav] in
  {| identifier := ident;
     book_title := title0;
     language := language;
     authors := if nonempty author then [author] else [];
     items := book_items ++ [EpubNcx; EpubNav];
     toc := toc1;
     spine := spine1 |}.

Definition build_epub (out_path : Path) (ident title0 author : pystr)
    (episodes : list Episode) (vertical : bool) (language : pystr) : M unit :=
  let book := build_book ident title0 author episodes vertical language in
  mkdir (parent out_path) ;;;
  write_epub out_path book.

End Program.

(* ================================================================== *)
(** ** main *)

Record Args : Type := {
  arg_url : pystr;
  arg_out : pystr;
  arg_delay : Q;
  arg_timeout : Z;
  arg_from_ep : option Z;
  arg_to_ep : option Z;
  arg_retry : Z;
  arg_user_agent : pystr;
  arg_vertical : bool;
  arg_no_preface : bool;
  arg_no_afterword : bool
}.

Definition base_url : pystr := str "https://ncode.syosetu.com/".

(** The episode number that [main] reads off a URL, for the range filter
    and for the progress line. *)
Definition ep_no_or_1 (ncode u : pystr) : Z :=
  match re_search true (EP_NO_RE ncode) u with
  | Some ep_no_m => int_of_digits (group 1 ep_no_m)
  | None => 1%Z
  end.

(** The body of the filter loop of [main]: is the URL kept? *)
Definition in_requested_range (from_ep to_ep : option Z) (n : Z) : bool :=
  match from_ep with
  | Some f => if (n <? f)%Z then false
              else match to_ep with
                   | Some t => negb (t <? n)%Z
                   | None => true
                   end
  | None => match to_ep with
            | Some t => negb (t <? n)%Z
            | None => true
            end
  end.

Definition filter_urls (ncode : pystr) (from_ep to_ep : option Z)
    (episode_urls : list pystr) : list pystr :=
  filter (fun u => in_requested_range from_ep to_ep (ep_no_or_1 ncode u))
         episode_urls.

(** What [main] knows when it starts to fetch episodes. *)
Record Plan : Type := {
  plan_ncode : pystr;
  plan_client : HttpClient;
  plan_general_all_no : option json;
  plan_book_title : pystr;
  plan_author : pystr;
  plan_filtered_urls : list pystr
}.

Definition truthy (v : option json) : bool :=
  match v with
  | Some (JInt z) => negb (z =? 0)%Z
  | Some (JBool b) => b
  | _ => false
  end.

Definition show_int (v : option json) : pystr :=
  match v with
  | Some (JInt z) => str_of_int z
  | Some (JBool true) => str "True"
  | Some (JBool false) => str "False"
  | _ => str "None"
  end.

(** [str(path)], for a directory and a file name without separators *)
Definition show_path (p : Path) : pystr := parent p ++ str "/" ++ name p.

Section Main.

Variable rules : netloc_rules.

(** [main], from the resolution of the identifier to the range filter. *)
Definition discover (args : Args) : M Plan :=
  ncode <- lift (extract_ncode rules (arg_url args)) ;;
  let index_url := normalize_index_url ncode in
  client <- HttpClient_init (arg_delay args) (arg_timeout args) (arg_retry args)
              (arg_user_agent args) ;;
  general_all_no <- fetch_general_all_no client ncode ;;
  index_soup <- get_soup client index_url ;;
  let title0 := match novel_title index_soup with
                | Some t => t
                | None => ncode
                end in
  let author := match novel_writername index_soup with
                | Some t => t
                | None => []
                end in
  episode_urls <- lift (parse_episode_urls rules index_soup ncode base_url) ;;
  let episode_urls := if nonempty_list episode_urls then episode_urls
                      else [index_url] in
  ret {| plan_ncode := ncode;
         plan_client := client;
         plan_general_all_no := general_all_no;
         plan_book_title := title0;
         plan_author := author;
         plan_filtered_urls :=
           filter_urls ncode (arg_from_ep args) (arg_to_ep args) episode_urls |}.

(** [main], the loop that fetches the episodes. *)
Fixpoint fetch_episodes (args : Args) (plan : Plan) (urls : list pystr)
    (episodes : list Episode) : M (list Episode) :=
  match urls with
  | [] => ret episodes
  | u :: rest =>
      let n := ep_no_or_1 (plan_ncode plan) u in
      episode <- extract_episode (plan_client plan) u
                   (negb (arg_no_preface args)) (negb (arg_no_afterword args))
                   (plan_book_title plan) ;;
      print (str "fetched: " ++ str_of_int n ++ str " " ++ u) ;;;
      fetch_episodes args plan rest (episodes ++ [episode])
  end.

(** [main], from the check of the episode list to the end. *)
Definition assemble (args : Args) (plan : Plan) (episodes : list Episode) : M unit :=
  if negb (nonempty_list episodes)
  then raise (SystemExit (str "No episodes matched the requested range."))
  else
    let out_file := {| parent := arg_out args;
                       name := plan_ncode plan ++ str ".epub" |} in
    build_epub out_file (str "narou:" ++ plan_ncode plan) (plan_book_title plan)
      (plan_author plan) episodes (arg_vertical args) (str "ja") ;;;
    (if truthy (plan_general_all_no plan)
     then print (str "episode count (API): " ++ show_int (plan_general_all_no plan))
     else ret tt) ;;;
    print (str "written: " ++ show_path out_file).

Definition main (args : Args) : M unit :=
  plan <- discover args ;;
  episodes <- fetch_episodes args plan (plan_filtered_urls plan) [] ;;
  assemble args plan episodes.

End Main.

(** *** Shapes named by the specification *)

(** "A letter-prefixed numeric code with a short alphabetic suffix": an
    [n] in either case, four or more decimal digits, one or two letters. *)
Definition is_letter (c : char) : bool :=
  atom_match true (Range (ch "a") (ch "z")) c.

Definition is_n (c : char) : bool := atom_match true (Lit (ch "n")) c.

Definition code_shape (code : pystr) : Prop :=
  exists c ds ls,
    code = c :: ds ++ ls /\ is_n c = true /\
    forallb is_decimal ds = true /\ (4 <= List.length ds)%nat /\
    forallb is_letter ls = true /\ (1 <= List.length ls <= 2)%nat.

(** The code occurs in [text] after a separator and before a separator:
    [text = before ++ "/" ++ code ++ "/" ++ after]. *)
Definition occurs_at (text before code after : pystr) : Prop :=
  text = before ++ ch "/" :: code ++ ch "/" :: after /\ code_shape code.
(* ================================================================== *)
(** ** Auxiliary definitions for the statements *)

(** *** Decimal numbers *)

(** One step of [int_of_digits]. *)
Definition int_step (acc : Z) (c : char) : Z := (10 * acc + decimal_value c)%Z.

(** Reading back what [format_05d] writes. *)
Definition read_int (s : pystr) : Z :=
  match s with
  | 45 :: digits => (- int_of_digits digits)%Z
  | _ => int_of_digits s
  end.

(** *** What a pattern matches

    [matches ic r pos pre rest cs cs']: at offset [pos] of the subject the
    pattern [r] can match the text [pre], with [rest] after it, turning the
    captures [cs] into [cs'].  The matcher [run] finds the first such match
    that its continuation accepts, and fails only when there is none. *)

Definition fits (hi : option nat) (n : nat) (pre : pystr) : Prop :=
  match hi with
  | None => True
  | Some h => pre = [] \/ (n + List.length pre <= h)%nat
  end.

Inductive matches (ic : bool) : re -> nat -> pystr -> pystr -> caps -> caps -> Prop :=
| M_eps pos rest cs :
    matches ic Eps pos [] rest cs cs
| M_atom a c pos rest cs :
    atom_match ic a c = true ->
    matches ic (Atom a) pos [c] rest cs cs
| M_rep a lo hi pos pre rest cs :
    forallb (atom_match ic a) pre = true ->
    (lo <= List.length pre)%nat -> fits hi 0 pre ->
    matches ic (Rep a lo hi) pos pre rest cs cs
| M_seq r1 r2 pos pre1 pre2 rest cs cs1 cs2 :
    matches ic r1 pos pre1 (pre2 ++ rest) cs cs1 ->
    matches ic r2 (pos + List.length pre1) pre2 rest cs1 cs2 ->
    matches ic (Seq r1 r2) pos (pre1 ++ pre2) rest cs cs2
| M_alt_l r1 r2 pos pre rest cs cs' :
    matches ic r1 pos pre rest cs cs' ->
    matches ic (Alt r1 r2) pos pre rest cs cs'
| M_alt_r r1 r2 pos pre rest cs cs' :
    matches ic r2 pos pre rest cs cs' ->
    matches ic (Alt r1 r2) pos pre rest cs cs'
| M_group n r pos pre rest cs cs' :
    matches ic r pos pre rest cs cs' ->
    matches ic (Group n r) pos pre rest cs ((n, pre) :: cs')
| M_bol rest cs :
    matches ic Bol 0 [] rest cs cs
| M_eol pos rest cs :
    rest = [] \/ rest = [10] ->
    matches ic Eol pos [] rest cs cs.

(** *** Identifier resolution *)

(** The text that [extract_ncode] searches for a URL: the parsed path, or
    the whole stripped input when the path is empty, with a slash
    appended. *)
Definition searched_text (raw : pystr) (parsed : url_parts) : pystr :=
  (if nonempty (path parsed) then path parsed else raw) ++ str "/".

(** No occurrence of a code starts further to the left. *)
Definition leftmost (text before : pystr) : Prop :=
  forall b c a, occurs_at text b c a -> (List.length before <= List.length b)%nat.

(** *** Facts about the character tables, as boolean tests *)

(** A letter is no space, no digit and no slash; unless it is U+0130 it
    lowers to one letter that lowers to itself. *)
Definition letter_ok (c : char) : bool :=
  negb (is_letter c) ||
  (negb (is_space c) && negb (is_decimal c) && negb (c =? 47) &&
   ((c =? 304) ||
    match char_lower c with
    | [c'] => is_letter c' && str_eqb (char_lower c') [c'] && negb (c' =? 304)
    | _ => false
    end)).

(** A decimal digit is no space and lowers to itself. *)
Definition digit_ok (c : char) : bool :=
  negb (is_decimal c) || (negb (is_space c) && str_eqb (char_lower c) [c]).

(** Does [P] hold for the [2^k] code points from [p * 2^k] on? *)
Fixpoint all_bits (P : char -> bool) (k : nat) (p : N) : bool :=
  match k with
  | O => P p
  | S k' => all_bits P k' (2 * p) && all_bits P k' (2 * p + 1)
  end.

(** *** Episode discovery *)

(** Ascending by key. *)
Definition ascending {A} (key : A -> Z) (l : list A) : Prop :=
  StronglySorted (fun a b => (key a <= key b)%Z) l.

(** *** The retrying client *)

(** The sleeps of the retry loop in a trace, in the order they happened. *)
Fixpoint backoff_sleeps (t : list event) : list Q :=
  match t with
  | [] => []
  | Slept Backoff d :: t' => backoff_sleeps t' ++ [d]
  | _ :: t' => backoff_sleeps t'
  end.

(** The outcome of a request is a failure: the transport fails or the
    status is an error status. *)
Definition failing (o : Q * (nat + response)) : bool :=
  match snd o with
  | inl _ => true
  | inr resp => ((400 <=? status_code resp) && (status_code resp <? 600))%Z
  end.

(** Every request for [u] fails. *)
Definition always_fails (w : world) (u : pystr) : Prop :=
  forall n, failing (network w n u) = true.

(** The exception that the failed request number [n] for [u] raises. *)
Definition failure_of (w : world) (n : nat) (u : pystr) : exn :=
  match snd (network w n u) with
  | inl reason => RequestException reason
  | inr resp => RequestException (Z.to_nat (status_code resp))
  end.

(** The seconds that [backoff] returns when the conversion succeeds. *)
Definition backoff_seconds (attempt_no : Z) : Q :=
  Qpy_min 5%Q (sec_mul (1 # 2) (inject_Z (2 ^ (attempt_no - 1)))).

(** [first, first + 1, ...], [count] numbers. *)
Definition attempts_from (first : Z) (count : nat) : list Z :=
  map (fun i => (first + Z.of_nat i)%Z) (seq 0 count).

(** *** Frames *)

(** The effects that reach the file system. *)
Definition stored (w : world) : list pystr * list (Path * EpubBook) :=
  (dirs w, files w).

(** [w'] comes after [w] in a run that has not touched the file system:
    the same directories and files, the same network, and no fewer
    requests. *)
Definition quiet (w w' : world) : Prop :=
  stored w' = stored w /\ network w' = network w /\ (sent w <= sent w')%nat.

Definition Quiet {A} (c : M A) : Prop :=
  forall w r w', c w = (r, w') -> quiet w w'.

(** *** Sample pages, sites and runs *)

Definition page (hrefs : list pystr) (body : option pystr) : Soup :=
  {| anchors := hrefs; novel_title := Some (str "A Work");
     novel_writername := Some (str "An Author");
     novel_subtitle := Some (str "A Chapter");
     novel_p := None; novel_honbun := body; novel_a := None |}.

Definition ok_response (s : Soup) : response :=
  {| status_code := 200%Z; soup_of := s; json_of := None |}.

(** A site that serves [index_page] at the index URL of [n1234ab] and
    [episode_page] everywhere else, except at the URLs in [down], where
    every request fails. *)
Definition site (index_page episode_page : Soup) (down : list pystr)
  : nat -> pystr -> Q * (nat + response) :=
  fun _ u =>
    if str_in u down then ((1 # 10)%Q, inl 7%nat)
    else if str_eqb u (str "https://ncode.syosetu.com/n1234ab/")
    then ((1 # 10)%Q, inr (ok_response index_page))
    else ((1 # 10)%Q, inr (ok_response episode_page)).

Definition fresh_world (net : nat -> pystr -> Q * (nat + response)) : world :=
  {| clock := 1700000000%Q; network := net; sent := 0%nat; trace := [];
     last_request := 0%Q; dirs := []; files := []; console := [] |}.

Definition sample_client (n : Z) : HttpClient :=
  {| delay := 1%Q; timeout := 20%Z; retries := n; user_agent := DEFAULT_UA |}.

Definition sample_args (from_ep to_ep : option Z) : Args :=
  {| arg_url := str "https://ncode.syosetu.com/n1234ab/"; arg_out := str "out";
     arg_delay := 1%Q; arg_timeout := 20%Z; arg_from_ep := from_ep;
     arg_to_ep := to_ep; arg_retry := 3%Z; arg_user_agent := DEFAULT_UA;
     arg_vertical := false; arg_no_preface := false; arg_no_afterword := false |}.

Definition no_rules : netloc_rules :=
  {| bracketed_netloc_ok := fun _ => false; nfkc_netloc_ok := fun _ => false |}.

(** Episode links as the index page may give them: with and without the
    trailing slash. *)
Definition link (n : Z) : pystr := str "/n1234ab/" ++ str_of_int n ++ str "/".
Definition bare_link (n : Z) : pystr := str "/n1234ab/" ++ str_of_int n.

Definition episode_url (n : Z) : pystr :=
  str "https://ncode.syosetu.com/n1234ab/" ++ str_of_int n ++ str "/".
Definition bare_episode_url (n : Z) : pystr :=
  str "https://ncode.syosetu.com/n1234ab/" ++ str_of_int n.

Definition one_to_ten : list Z := [1; 2; 3; 4; 5; 6; 7; 8; 9; 10]%Z.

(** A run in which the second of three episodes cannot be fetched. *)
Definition broken_site : nat -> pystr -> Q * (nat + response) :=
  site (page (map link [1; 2; 3]%Z) None) (page [] (Some (str "text")))
       [episode_url 2].

(** A site on which every request fails. *)
Definition dead_site : nat -> pystr -> Q * (nat + response) :=
  fun n _ => ((1 # 10)%Q, inl n).

(** *** Further samples *)

(** A site that serves an index page with three episodes and every page
    of theirs. *)
Definition healthy_site : nat -> pystr -> Q * (nat + response) :=
  site (page (map link [1; 2; 3]%Z) None) (page [] (Some (str "text"))) [].

(** A site whose first two requests fail and whose third is answered. *)
Definition flaky_site : nat -> pystr -> Q * (nat + response) :=
  fun n _ =>
    if (n <? 2)%nat then ((1 # 10)%Q, inl n)
    else ((1 # 10)%Q, inr (ok_response (page [] (Some (str "text"))))).

(** The response to a request is not an error: [raise_for_status] lets it
    pass. *)
Definition answered (o : Q * (nat + response)) (resp : response) : Prop :=
  snd o = inr resp
  /\ ((400 <=? status_code resp) && (status_code resp <? 600))%Z = false.

(** *** The limits of the libraries

    A client that the libraries accept: its time-out is positive, and its
    delay is one that [time.sleep] takes. *)
Definition usable (self : HttpClient) : Prop :=
  (0 < timeout self)%Z /\ (delay self < sleep_limit)%Q.

(** A state in which time runs forward: the last request was stamped in
    the past, and no request takes a negative time. *)
Definition steady (w : world) : Prop :=
  (last_request w <= clock w)%Q /\ forall n u, (0 <= fst (network w n u))%Q.

Definition is_system_exit (e : exn) : bool :=
  match e with
  | SystemExit _ => true
  | _ => false
  end.

Definition is_value_error (e : exn) : bool :=
  match e with
  | ValueError _ => true
  | _ => false
  end.

(** The path that the loop of [parse_episode_urls] tests for an anchor. *)
Definition anchor_path (rules : netloc_rules) (a : pystr) : result pystr :=
  let href := strip a in
  if contains (str "://") href
  then rbind (urlparse rules href) (fun parsed => Return (path parsed))
  else Return href.

(** The test of the loop: the path matches [EP_PATH_RE] and its first
    group is the identifier up to case. *)
Definition accepts (ncode p : pystr) : bool :=
  match re_match true EP_PATH_RE p with
  | Some m => str_eqb (lower (group 1 m)) (lower ncode)
  | None => false
  end.

(** The path of an episode of the work [ncode]: a slash, a code that is
    the identifier up to case, a slash, one or more decimal digits, and
    at most one slash, up to a line feed at the end. *)
Definition episode_path (ncode p : pystr) : Prop :=
  exists code ds tail,
    p = 47 :: code ++ 47 :: ds ++ tail
    /\ code_shape code /\ lower code = lower ncode
    /\ ds <> [] /\ forallb is_decimal ds = true
    /\ (tail = [] \/ tail = [47] \/ tail = [10] \/ tail = [47; 10]).

(** The URLs requested in a trace, in the order of the requests. *)
Fixpoint requested_urls (t : list event) : list pystr :=
  match t with
  | [] => []
  | Requested u :: t' => requested_urls t' ++ [u]
  | _ :: t' => requested_urls t'
  end.

(** The URL of the API request of [fetch_general_all_no]. *)
Definition api_url (ncode : pystr) : pystr :=
  API_ENDPOINT ++ str "?" ++ str "out=json&ncode=" ++ ncode ++ str "&of=ga".

(** The episode URL of the work [ncode] with the number written [ds], as
    the site writes it: with a slash at the end. *)
Definition site_episode_url (ncode ds : pystr) : pystr :=
  base_url ++ ncode ++ 47 :: ds ++ [47].

Definition is_number (ds : pystr) : Prop :=
  ds <> [] /\ forallb is_decimal ds = true.

(** A run fails before the book assembler is reached: the resolution of
    the identifier, the API request, the index page or the discovery
    raises; or the fetch of an episode raises; or no episode was fetched,
    which ends the run with [SystemExit]. *)
Definition fails_before_assembly (rules : netloc_rules) (args : Args)
    (w : world) (e : exn) (w' : world) : Prop :=
  discover rules args w = (Raise e, w')
  \/ exists plan w1,
       discover rules args w = (Return plan, w1)
       /\ (fetch_episodes args plan (plan_filtered_urls plan) [] w1 = (Raise e, w')
           \/ (fetch_episodes args plan (plan_filtered_urls plan) [] w1
               = (Return [], w')
               /\ e = SystemExit (str "No episodes matched the requested range."))).

(** The episode that [main] makes of the page fetched for a URL: some
    [get] of the client for that URL returned a response, and the episode
    is what [extract_episode] reads off it. *)
Definition fetched_as (args : Args) (plan : Plan) (u : pystr) (ep : Episode) : Prop :=
  exists resp wa wb,
    get (plan_client plan) u wa = (Return resp, wb)
    /\ ep = episode_of_soup (soup_of resp) u
              (negb (arg_no_preface args)) (negb (arg_no_afterword args))
              (plan_book_title plan).

(* ================================================================== *)
(** * Properties *)

(** ** Strings and decimal numbers *)

Lemma str_eqb_eq (a b : pystr) : str_eqb a b = true <-> a = b.
Proof.
  revert b; induction a as [|x a IH]; intros [|y b]; simpl; split;
    try congruence; try discriminate; auto.
  - rewrite andb_true_iff, N.eqb_eq, IH. intros [-> ->]; reflexivity.
  - intros H; injection H as -> ->. rewrite N.eqb_refl. apply IH. reflexivity.
Qed.

Lemma str_eqb_refl (a : pystr) : str_eqb a a = true.
Proof. apply str_eqb_eq; reflexivity. Qed.

Lemma int_of_digits_fold (s : pystr) : int_of_digits s = fold_left int_step s 0%Z.
Proof. reflexivity. Qed.

Lemma digits_value_acc (u : Decimal.uint) (acc : positive) :
  fold_left int_step (digits_of_uint u) (Zpos acc) = Zpos (Pos.of_uint_acc u acc).
Proof.
  revert acc; induction u; intros acc;
    cbn [digits_of_uint fold_left Pos.of_uint_acc]; try reflexivity;
    rewrite <- IHu; f_equal; unfold int_step;
    match goal with
    | |- context [decimal_value ?c] =>
        let v := eval vm_compute in (decimal_value c) in
        change (decimal_value c) with v
    end; lia.
Qed.

Lemma digits_value (u : Decimal.uint) :
  int_of_digits (digits_of_uint u) = Z.of_N (N.of_uint u).
Proof.
  rewrite int_of_digits_fold.
  induction u; cbn [digits_of_uint fold_left N.of_uint Pos.of_uint];
    try reflexivity; try exact IHu;
    match goal with
    | |- fold_left int_step _ (int_step 0 ?c) = _ =>
        let v := eval vm_compute in (int_step 0 c) in
        change (int_step 0 c) with v
    end; apply digits_value_acc.
Qed.

Lemma digits_of_N_value (n : N) : int_of_digits (digits_of_N n) = Z.of_N n.
Proof.
  unfold digits_of_N. rewrite digits_value.
  f_equal. apply DecimalN.Unsigned.of_to.
Qed.

Lemma int_of_digits_zeros (k : nat) (s : pystr) :
  int_of_digits (zeros k ++ s) = int_of_digits s.
Proof.
  rewrite !int_of_digits_fold, fold_left_app. f_equal.
  induction k; simpl; auto.
Qed.

Lemma digits_of_uint_head (u : Decimal.uint) :
  match digits_of_uint u with
  | [] => True
  | c :: _ => c <> 45
  end.
Proof. destruct u; simpl; auto; discriminate. Qed.

Lemma read_format_05d (z : Z) : read_int (format_05d z) = z.
Proof.
  unfold format_05d. destruct (z <? 0)%Z eqn:Hs.
  - unfold ch; simpl read_int.
    rewrite int_of_digits_zeros, digits_of_N_value. apply Z.ltb_lt in Hs.
    rewrite N2Z.inj_abs_N. lia.
  - apply Z.ltb_ge in Hs.
    assert (Hr : read_int (zeros (5 - List.length (digits_of_N (Z.abs_N z)))
                             ++ digits_of_N (Z.abs_N z))
                 = int_of_digits (zeros (5 - List.length (digits_of_N (Z.abs_N z)))
                             ++ digits_of_N (Z.abs_N z))).
    { destruct (5 - List.length (digits_of_N (Z.abs_N z)))%nat; simpl zeros.
      - simpl app. unfold digits_of_N.
        pose proof (digits_of_uint_head (N.to_uint (Z.abs_N z))) as Hh.
        destruct (digits_of_uint (N.to_uint (Z.abs_N z))) as [|c r]; auto.
        unfold read_int. destruct c as [|p]; auto.
        repeat (destruct p as [p|p|]; auto). congruence.
      - reflexivity. }
    rewrite Hr, int_of_digits_zeros, digits_of_N_value, N2Z.inj_abs_N. lia.
Qed.

Lemma format_05d_inj (a b : Z) : format_05d a = format_05d b -> a = b.
Proof.
  intros H. rewrite <- (read_format_05d a), <- (read_format_05d b), H. reflexivity.
Qed.

(** ** The matcher and what a pattern matches *)

Lemma rep_some {A} (ic : bool) (a : atom) (lo : nat) (hi : option nat)
    (k : nat -> pystr -> option A) (x : A) (s : pystr) :
  forall n pos,
    rep ic a lo hi n pos s k = Some x ->
    exists pre rest,
      s = pre ++ rest /\ forallb (atom_match ic a) pre = true
      /\ (lo <= n + List.length pre)%nat /\ fits hi n pre
      /\ k (pos + List.length pre)%nat rest = Some x.
Proof.
  assert (Hstop : forall n pos t,
            (if (lo <=? n)%nat then k pos t else None) = Some x ->
            exists pre rest,
              t = pre ++ rest /\ forallb (atom_match ic a) pre = true
              /\ (lo <= n + List.length pre)%nat /\ fits hi n pre
              /\ k (pos + List.length pre)%nat rest = Some x).
  { intros n pos t H. destruct (Nat.leb_spec lo n); [|discriminate].
    exists [], t. cbn [List.length app forallb]. rewrite !Nat.add_0_r.
    repeat split; auto. unfold fits. destruct hi; auto. }
  induction s as [|c s IH]; intros n pos H; cbn [rep] in H.
  - apply Hstop; exact H.
  - destruct (below hi n && atom_match ic a c) eqn:E; [|apply Hstop; exact H].
    destruct (rep ic a lo hi (S n) (S pos) s k) as [y|] eqn:R;
      [|apply Hstop; exact H].
    injection H as ->. apply andb_true_iff in E. destruct E as [Eb Em].
    destruct (IH _ _ R) as (pre & rest & -> & Hall & Hlo & Hfit & Hk).
    exists (c :: pre), rest. cbn [List.length app forallb]. rewrite Em, Hall.
    repeat split; auto; try lia.
    + unfold fits, below in *. destruct hi as [h|]; auto. right.
      apply Nat.ltb_lt in Eb. destruct Hfit as [->|Hfit]; cbn [List.length]; lia.
    + rewrite <- Hk. f_equal. lia.
Qed.

Lemma rep_none {A} (ic : bool) (a : atom) (lo : nat) (hi : option nat)
    (k : nat -> pystr -> option A) (s : pystr) :
  forall n pos,
    rep ic a lo hi n pos s k = None ->
    forall pre rest,
      s = pre ++ rest -> forallb (atom_match ic a) pre = true ->
      (lo <= n + List.length pre)%nat -> fits hi n pre ->
      k (pos + List.length pre)%nat rest = None.
Proof.
  assert (Hstop : forall n pos t,
            (if (lo <=? n)%nat then k pos t else None) = None ->
            (lo <= n)%nat -> k (pos + 0)%nat t = None).
  { intros n pos t H Hlo. rewrite Nat.add_0_r.
    destruct (Nat.leb_spec lo n); [exact H | lia]. }
  induction s as [|c s IH]; intros n pos H pre rest Hs Hall Hlo Hfit;
    cbn [rep] in H.
  - symmetry in Hs. apply app_eq_nil in Hs. destruct Hs as [-> ->].
    cbn [List.length] in *. apply Hstop with n; auto. lia.
  - destruct pre as [|c' pre].
    + cbn [app] in Hs. subst rest. cbn [List.length] in *.
      apply Hstop with n; [|lia].
      destruct (below hi n && atom_match ic a c); auto.
      destruct (rep ic a lo hi (S n) (S pos) s k); [discriminate|auto].
    + cbn [app] in Hs. injection Hs as <- ->.
      cbn [forallb] in Hall. apply andb_true_iff in Hall. destruct Hall as [Em Hall].
      cbn [List.length] in *.
      assert (Eb : below hi n = true).
      { unfold fits, below in *. destruct hi as [h|]; auto.
        destruct Hfit as [Hfit|Hfit]; [discriminate|].
        cbn [List.length] in Hfit. apply Nat.ltb_lt. lia. }
      rewrite Eb, Em in H. cbn [andb] in H.
      destruct (rep ic a lo hi (S n) (S pos) (pre ++ rest) k) eqn:R; [discriminate|].
      replace (pos + S (List.length pre))%nat with (S pos + List.length pre)%nat by lia.
      eapply IH; eauto; try lia.
      unfold fits in *. destruct hi as [h|]; auto.
      destruct Hfit as [Hfit|Hfit]; [discriminate|].
      cbn [List.length] in Hfit. right. lia.
Qed.

Lemma run_some (ic : bool) (r : re) :
  forall {A} pos s cs (k : nat -> pystr -> caps -> option A) x,
    run ic r pos s cs k = Some x ->
    exists pre rest cs',
      s = pre ++ rest /\ matches ic r pos pre rest cs cs'
      /\ k (pos + List.length pre)%nat rest cs' = Some x.
Proof.
  induction r as [|a|a lo hi|r1 IH1 r2 IH2|r1 IH1 r2 IH2|n r IH| |];
    intros A pos s cs k x H; cbn [run] in H.
  - exists [], s, cs. cbn [List.length]. rewrite Nat.add_0_r.
    repeat split; auto. constructor.
  - destruct s as [|c s]; [discriminate|].
    destruct (atom_match ic a c) eqn:E; [|discriminate].
    exists [c], s, cs. cbn [List.length]. rewrite Nat.add_1_r.
    repeat split; auto. constructor; auto.
  - apply rep_some in H. destruct H as (pre & rest & -> & Hall & Hlo & Hfit & Hk).
    exists pre, rest, cs. repeat split; auto. constructor; auto.
  - apply IH1 in H. destruct H as (pre1 & rest1 & cs1 & -> & M1 & H).
    apply IH2 in H. destruct H as (pre2 & rest & cs2 & -> & M2 & H).
    exists (pre1 ++ pre2), rest, cs2. rewrite <- app_assoc. repeat split.
    + econstructor; eauto.
    + rewrite length_app, Nat.add_assoc. exact H.
  - destruct (run ic r1 pos s cs k) as [y|] eqn:R1.
    + injection H as ->. apply IH1 in R1.
      destruct R1 as (pre & rest & cs' & -> & M1 & Hk).
      exists pre, rest, cs'. repeat split; auto. apply M_alt_l; auto.
    + apply IH2 in H. destruct H as (pre & rest & cs' & -> & M2 & Hk).
      exists pre, rest, cs'. repeat split; auto. apply M_alt_r; auto.
  - apply IH in H. destruct H as (pre & rest & cs' & -> & M1 & Hk).
    exists pre, rest, ((n, pre) :: cs'). repeat split.
    + constructor; auto.
    + replace (pos + List.length pre - pos)%nat with (List.length pre) in Hk by lia.
      rewrite firstn_app, firstn_all, Nat.sub_diag in Hk.
      cbn [firstn] in Hk. rewrite app_nil_r in Hk. exact Hk.
  - destruct (Nat.eqb_spec pos 0) as [->|]; [|discriminate].
    exists [], s, cs. repeat split; auto. constructor.
  - exists [], s, cs. cbn [List.length]. rewrite Nat.add_0_r.
    destruct s as [|c [|c' s]]; try discriminate.
    + repeat split; auto. constructor; auto.
    + destruct (N.eqb_spec c 10) as [->|]; [|discriminate].
      repeat split; auto. constructor; auto.
Qed.

Lemma run_none (ic : bool) (r : re) :
  forall {A} pos s cs (k : nat -> pystr -> caps -> option A),
    run ic r pos s cs k = None ->
    forall pre rest cs',
      s = pre ++ rest -> matches ic r pos pre rest cs cs' ->
      k (pos + List.length pre)%nat rest cs' = None.
Proof.
  induction r as [|a|a lo hi|r1 IH1 r2 IH2|r1 IH1 r2 IH2|n r IH| |];
    intros A pos s cs k H pre rest cs' Hs M; cbn [run] in H; inversion M; subst.
  - cbn [List.length app]. rewrite Nat.add_0_r. exact H.
  - cbn [app] in H. rewrite H1 in H. cbn [List.length]. rewrite Nat.add_1_r. exact H.
  - eapply (rep_none ic a lo hi (fun pos' s' => k pos' s' cs')) in H; eauto.
  - rewrite <- app_assoc in H.
    eapply IH1 in H; [|reflexivity|eassumption].
    eapply IH2 in H; [|reflexivity|eassumption].
    rewrite length_app, Nat.add_assoc. exact H.
  - destruct (run ic r1 pos (pre ++ rest) cs k) eqn:R1; [discriminate|].
    eapply IH1 in R1; eauto.
  - destruct (run ic r1 pos (pre ++ rest) cs k) eqn:R1; [discriminate|].
    eapply IH2 in H; eauto.
  - eapply IH in H; [|reflexivity|eassumption]. cbv beta in H.
    replace (pos + List.length pre - pos)%nat with (List.length pre) in H by lia.
    rewrite firstn_app, firstn_all, Nat.sub_diag in H.
    cbn [firstn] in H. rewrite app_nil_r in H. exact H.
  - cbn [app List.length Nat.eqb] in *. exact H.
  - cbn [app List.length] in *. rewrite Nat.add_0_r.
    match goal with Hr : _ \/ _ |- _ => destruct Hr as [->| ->] end; auto.
Qed.

Lemma search_some (ic : bool) (r : re) (s : pystr) :
  forall pos cs,
    search_from ic r pos s = Some cs ->
    exists skipped t,
      s = skipped ++ t
      /\ run ic r (pos + List.length skipped) t [] accept = Some cs
      /\ forall skipped' t',
           s = skipped' ++ t' ->
           (List.length skipped' < List.length skipped)%nat ->
           run ic r (pos + List.length skipped') t' [] accept = None.
Proof.
  induction s as [|c s IH]; intros pos cs H; cbn [search_from] in H.
  - destruct (run ic r pos [] [] accept) eqn:R; [|discriminate].
    injection H as ->. exists [], []. cbn [List.length]. rewrite Nat.add_0_r.
    repeat split; auto. intros ? ? _ Hlt. cbn in Hlt. lia.
  - destruct (run ic r pos (c :: s) [] accept) eqn:R.
    + injection H as ->. exists [], (c :: s). cbn [List.length]. rewrite Nat.add_0_r.
      repeat split; auto. intros ? ? _ Hlt. cbn in Hlt. lia.
    + apply IH in H. destruct H as (skipped & t & -> & Hrun & Hmin).
      exists (c :: skipped), t. cbn [List.length app].
      replace (pos + S (List.length skipped))%nat
        with (S pos + List.length skipped)%nat by lia.
      repeat split; auto.
      intros skipped' t' Hs Hlt. destruct skipped' as [|c' skipped'].
      * cbn [app List.length] in *. subst t'. rewrite Nat.add_0_r. exact R.
      * cbn [app List.length] in *. injection Hs as <- Hs.
        replace (pos + S (List.length skipped'))%nat
          with (S pos + List.length skipped')%nat by lia.
        apply Hmin; auto. lia.
Qed.

Lemma search_none (ic : bool) (r : re) (s : pystr) :
  forall pos,
    search_from ic r pos s = None ->
    forall skipped t,
      s = skipped ++ t ->
      run ic r (pos + List.length skipped) t [] accept = None.
Proof.
  induction s as [|c s IH]; intros pos H skipped t Hs; cbn [search_from] in H.
  - symmetry in Hs. apply app_eq_nil in Hs. destruct Hs as [-> ->].
    cbn [List.length]. rewrite Nat.add_0_r.
    destruct (run ic r pos [] [] accept); [discriminate|reflexivity].
  - destruct (run ic r pos (c :: s) [] accept) eqn:R; [discriminate|].
    destruct skipped as [|c' skipped].
    + cbn [app List.length] in *. subst t. rewrite Nat.add_0_r. exact R.
    + cbn [app List.length] in *. injection Hs as <- Hs.
      replace (pos + S (List.length skipped))%nat
        with (S pos + List.length skipped)%nat by lia.
      apply IH; auto.
Qed.

(** ** Identifier resolution *)

Lemma lit_slash (c : char) : atom_match true (Lit (ch "/")) c = true <-> c = 47.
Proof.
  cbn [atom_match]. change (fold_case (ch "/")) with 47. rewrite N.eqb_eq.
  unfold fold_case. split.
  - destruct ((65 <=? c) && (c <=? 90)) eqn:E1.
    { apply andb_true_iff in E1. destruct E1 as [H1 H2].
      apply N.leb_le in H1. lia. }
    destruct ((c =? 304) || (c =? 305)); [discriminate|].
    destruct (c =? 383); [discriminate|].
    destruct (c =? 8490); [discriminate|]. auto.
  - intros ->. reflexivity.
Qed.

Lemma slash_is_no_letter (c : char) : is_letter c = true -> c <> 47.
Proof. intros H ->. vm_compute in H. discriminate. Qed.

Ltac inv_matches :=
  repeat match goal with
  | H : matches _ (Seq _ _) _ _ _ _ _ |- _ => inversion H; subst; clear H
  | H : matches _ (Atom _) _ _ _ _ _ |- _ => inversion H; subst; clear H
  | H : matches _ (Rep _ _ _) _ _ _ _ _ |- _ => inversion H; subst; clear H
  | H : matches _ (Group _ _) _ _ _ _ _ |- _ => inversion H; subst; clear H
  | H : matches _ (Alt _ _) _ _ _ _ _ |- _ => inversion H; subst; clear H
  | H : matches _ Eol _ _ _ _ _ |- _ => inversion H; subst; clear H
  | H : matches _ Bol _ _ _ _ _ |- _ => inversion H; subst; clear H
  | H : matches _ Eps _ _ _ _ _ |- _ => inversion H; subst; clear H
  | H : atom_match true (Lit 47) ?c = true |- _ => apply lit_slash in H; subst c
  end.

(** What a match of [NCODE_RE] looks like. *)
Lemma ncode_match_shape (pos : nat) (pre rest : pystr) (cs : caps) :
  matches true NCODE_RE pos pre rest [] cs ->
  exists code tail,
    pre = 47 :: code ++ tail /\ code_shape code /\ cs = [(1%nat, code)]
    /\ (tail = [47] \/ (tail = [] /\ (rest = [] \/ rest = [10]))).
Proof.
  unfold NCODE_RE, NCODE_BODY. intros M. inv_matches.
  all: match goal with
       | Hn : atom_match true (Lit 110) ?c = true,
         Hd : forallb (atom_match true Digit) ?ds = true,
         Hl : forallb (atom_match true (Range 97 122)) ?ls = true,
         Hf : fits (Some 2%nat) 0 ?ls |- _ =>
           assert (Hshape : code_shape ([c] ++ ds ++ ls))
             by (exists c, ds, ls; repeat split; auto;
                 destruct Hf as [->|Hf]; cbn [List.length] in *; lia);
           exists ([c] ++ ds ++ ls)
       end.
  - exists [47]. repeat split; auto.
  - exists []. repeat split; auto.
Qed.

(** An occurrence of a code is a match of [NCODE_RE]. *)
Lemma occurrence_matches (pos : nat) (code after : pystr) :
  code_shape code ->
  matches true NCODE_RE pos (47 :: code ++ [47]) after [] [(1%nat, code)].
Proof.
  intros (c & ds & ls & -> & Hc & Hds & Hdl & Hls & Hll).
  unfold NCODE_RE, NCODE_BODY.
  change (47 :: (c :: ds ++ ls) ++ [47]) with ([47] ++ ((c :: ds ++ ls) ++ [47])).
  econstructor.
  - constructor. apply lit_slash. reflexivity.
  - econstructor.
    + constructor.
      change (c :: ds ++ ls) with ([c] ++ (ds ++ ls)).
      econstructor.
      * constructor. exact Hc.
      * econstructor.
        -- constructor; [exact Hds | exact Hdl | exact I].
        -- constructor; [exact Hls | lia | right; cbn; lia].
    + apply M_alt_l. constructor. apply lit_slash. reflexivity.
Qed.

Lemma code_ends_with_letter (code : pystr) :
  code_shape code -> exists init l, code = init ++ [l] /\ is_letter l = true.
Proof.
  intros (c & ds & ls & -> & _ & _ & _ & Hls & Hll).
  destruct (exists_last (l := ls)) as (ls' & l & ->).
  { intros ->. cbn in Hll. lia. }
  rewrite forallb_app in Hls. apply andb_true_iff in Hls. destruct Hls as [_ Hl].
  cbn [forallb] in Hl. rewrite andb_true_r in Hl.
  exists (c :: ds ++ ls'), l. split; auto.
  cbn [app]. rewrite app_assoc. reflexivity.
Qed.

(** In a text that ends with a slash, a match of [NCODE_RE] is an
    occurrence of a code between two slashes. *)
Lemma ncode_match_occurs (p skipped pre rest : pystr) (cs : caps) (pos : nat) :
  p ++ [47] = skipped ++ pre ++ rest ->
  matches true NCODE_RE pos pre rest [] cs ->
  exists code, occurs_at (p ++ [47]) skipped code rest /\ cs = [(1%nat, code)].
Proof.
  intros Ht M. apply ncode_match_shape in M.
  destruct M as (code & tail & -> & Hshape & -> & [->|[-> Hrest]]).
  - exists code. split; auto. split; auto.
    rewrite Ht. cbn [app]. rewrite <- app_assoc. reflexivity.
  - exfalso. rewrite app_nil_r in Ht.
    destruct (code_ends_with_letter _ Hshape) as (init & l & -> & Hl).
    destruct Hrest as [->| ->].
    + rewrite app_nil_r in Ht.
      change (skipped ++ 47 :: init ++ [l]) with (skipped ++ (47 :: init) ++ [l]) in Ht.
      rewrite app_assoc in Ht. apply app_inj_tail in Ht. destruct Ht as [_ <-].
      vm_compute in Hl. discriminate.
    + rewrite app_assoc in Ht. apply app_inj_tail in Ht. destruct Ht as [_ Ht].
      discriminate.
Qed.

Lemma code_has_no_slash (code : pystr) : code_shape code -> ~ In 47 code.
Proof.
  intros (c & ds & ls & -> & Hc & Hds & _ & Hls & _) [E|Hin].
  - subst c. vm_compute in Hc. discriminate.
  - apply in_app_or in Hin. rewrite forallb_forall in Hds, Hls.
    destruct Hin as [Hin|Hin].
    + apply Hds in Hin. vm_compute in Hin. discriminate.
    + apply Hls in Hin. vm_compute in Hin. discriminate.
Qed.

Lemma first_slash_unique (c : pystr) :
  forall c' a a',
    ~ In 47 c -> ~ In 47 c' -> c ++ 47 :: a = c' ++ 47 :: a' -> c = c' /\ a = a'.
Proof.
  induction c as [|x c IH]; intros [|y c'] a a' Hc Hc' H; cbn [app] in H.
  - injection H as ->. auto.
  - injection H as <- _. exfalso. apply Hc'. left. reflexivity.
  - injection H as -> _. exfalso. apply Hc. left. reflexivity.
  - injection H as -> H. destruct (IH c' a a') as [-> ->]; auto.
    + intros Hin. apply Hc. right. exact Hin.
    + intros Hin. apply Hc'. right. exact Hin.
Qed.

(** At a given place at most one code occurs. *)
Lemma occurs_at_unique (text before code after code' after' : pystr) :
  occurs_at text before code after -> occurs_at text before code' after' ->
  code = code' /\ after = after'.
Proof.
  intros [H1 S1] [H2 S2]. rewrite H1 in H2. apply app_inv_head in H2.
  injection H2 as H2.
  apply first_slash_unique; auto using code_has_no_slash.
Qed.

Lemma extract_ncode_unfold (rules : netloc_rules) (s : pystr) (parsed : url_parts) :
  re_fullmatch true NCODE_BODY (strip s) = None ->
  urlparse rules (strip s) = Return parsed ->
  extract_ncode rules s
  = match re_search true NCODE_RE (searched_text (strip s) parsed) with
    | None => Raise (ValueError (str "Unable to extract ncode from: " ++ s))
    | Some m => Return (lower (group 1 m))
    end.
Proof.
  intros Hb Hp. unfold extract_ncode. rewrite Hb, Hp. reflexivity.
Qed.

Lemma searched_text_ends (raw : pystr) (parsed : url_parts) :
  exists p, searched_text raw parsed = p ++ [47].
Proof. unfold searched_text. eexists. reflexivity. Qed.

(** C4, as amended.  Let the stripped input be no bare code and let the
    URL parser accept it.  [extract_ncode] searches the parsed path, or
    the whole stripped input when the parsed path is empty, followed by a
    slash.  If a code occurs there between two slashes, the result is the
    lowercased code of a leftmost such occurrence, whatever surrounds it
    and whatever the query string of a URL with a path; and [ValueError]
    is raised exactly when no code occurs there. *)
Theorem extract_ncode_searches_path
    (rules : netloc_rules) (s : pystr) (parsed : url_parts) :
  re_fullmatch true NCODE_BODY (strip s) = None ->
  urlparse rules (strip s) = Return parsed ->
  let text := searched_text (strip s) parsed in
  ((exists before code after, occurs_at text before code after) ->
   exists before code after,
     occurs_at text before code after /\ leftmost text before
     /\ extract_ncode rules s = Return (lower code))
  /\ (extract_ncode rules s
      = Raise (ValueError (str "Unable to extract ncode from: " ++ s))
      <-> ~ exists before code after, occurs_at text before code after)
  /\ ((exists e, extract_ncode rules s = Raise e)
      <-> ~ exists before code after, occurs_at text before code after).
Proof.
  intros Hb Hp text. rewrite (extract_ncode_unfold rules s parsed Hb Hp).
  fold text. destruct (searched_text_ends (strip s) parsed) as [p Ht].
  fold text in Ht.
  assert (Hnone : re_search true NCODE_RE text = None ->
                  ~ exists before code after, occurs_at text before code after).
  { intros Hs (before & code & after & Ho & Hshape).
    pose proof (search_none true NCODE_RE text 0 Hs before
                  (47 :: code ++ 47 :: after) Ho) as Hr.
    pose proof (run_none true NCODE_RE _ _ _ _ Hr (47 :: code ++ [47]) after
                  [(1%nat, code)]) as Hk.
    cbn [app] in Hk. rewrite <- app_assoc in Hk.
    specialize (Hk eq_refl (occurrence_matches _ code after Hshape)).
    discriminate. }
  assert (Hsome : forall cs, re_search true NCODE_RE text = Some cs ->
                  exists before code after,
                    occurs_at text before code after /\ leftmost text before
                    /\ group 1 cs = code).
  { intros cs Hs. apply search_some in Hs.
    destruct Hs as (skipped & t & Hst & Hrun & Hmin).
    apply run_some in Hrun. destruct Hrun as (pre & rest & cs' & -> & M & Hacc).
    injection Hacc as <-.
    rewrite Ht in Hst. destruct (ncode_match_occurs _ _ _ _ _ _ Hst M) as (code & Ho & ->).
    destruct Ho as [Ho1 Ho2].
    exists skipped, code, rest.
    split; [split; [rewrite Ht; exact Ho1 | exact Ho2]|]. split; [|reflexivity].
    intros b c a (Hb' & Hshape).
    destruct (Nat.lt_ge_cases (List.length b) (List.length skipped)) as [Hlt|]; auto.
    exfalso.
    pose proof (Hmin b (47 :: c ++ 47 :: a) Hb' Hlt) as Hr.
    pose proof (run_none true NCODE_RE _ _ _ _ Hr (47 :: c ++ [47]) a
                  [(1%nat, c)]) as Hk.
    cbn [app] in Hk. rewrite <- app_assoc in Hk.
    specialize (Hk eq_refl (occurrence_matches _ c a Hshape)).
    discriminate. }
  destruct (re_search true NCODE_RE text) as [cs|] eqn:Hs.
  - destruct (Hsome cs eq_refl) as (before & code & after & Ho & Hl & Hg).
    split; [|split].
    + intros _. exists before, code, after. rewrite Hg. auto.
    + split; [discriminate|]. intros Hn. exfalso. apply Hn. eauto.
    + split; [intros [e He]; discriminate|]. intros Hn. exfalso. apply Hn. eauto.
  - split; [|split].
    + intros Hex. exfalso. apply (Hnone eq_refl). exact Hex.
    + split; auto.
    + split; eauto.
Qed.

Lemma extract_ncode_searches_path_witness :
  let s := str " https://ncode.syosetu.com/novel/N1234AB/12/?p=/n9999zz/ " in
  let text := str "/novel/N1234AB/12//" in
  ((exists before code after, occurs_at text before code after) ->
   exists before code after,
     occurs_at text before code after /\ leftmost text before
     /\ extract_ncode no_rules s = Return (lower code))
  /\ (extract_ncode no_rules s
      = Raise (ValueError (str "Unable to extract ncode from: " ++ s))
      <-> ~ exists before code after, occurs_at text before code after)
  /\ ((exists e, extract_ncode no_rules s = Raise e)
      <-> ~ exists before code after, occurs_at text before code after).
Proof.
  apply (extract_ncode_searches_path no_rules
           (str " https://ncode.syosetu.com/novel/N1234AB/12/?p=/n9999zz/ ")
           {| scheme := str "https"; netloc := str "ncode.syosetu.com";
              path := str "/novel/N1234AB/12/"; params := [];
              query := str "p=/n9999zz/"; fragment := [] |}).
  - vm_compute. reflexivity.
  - vm_compute. reflexivity.
Defined.

(** The sample input resolves to [n1234ab]. *)
Lemma extract_ncode_sample :
  extract_ncode no_rules
    (str " https://ncode.syosetu.com/novel/N1234AB/12/?p=/n9999zz/ ")
  = Return (str "n1234ab").
Proof. vm_compute. reflexivity. Qed.

(** C4, as stated, fails.  The URL [http://h?a=/n1234ab] is no bare code
    and has an empty path, in which no code occurs; [extract_ncode] falls
    back to the whole input, finds the code in the query string, and
    returns it instead of raising. *)
Lemma extract_ncode_empty_path_counterexample :
  re_fullmatch true NCODE_BODY (strip (str "http://h?a=/n1234ab")) = None
  /\ urlparse no_rules (strip (str "http://h?a=/n1234ab"))
     = Return {| scheme := str "http"; netloc := str "h"; path := [];
                 params := []; query := str "a=/n1234ab"; fragment := [] |}
  /\ re_search true NCODE_RE ([] ++ str "/") = None
  /\ extract_ncode no_rules (str "http://h?a=/n1234ab") = Return (str "n1234ab").
Proof. repeat split; vm_compute; reflexivity. Qed.

(** ** Resolution of bare codes *)

Lemma all_bits_spec (P : char -> bool) (k : nat) :
  forall p c,
    all_bits P k p = true ->
    p * 2 ^ N.of_nat k <= c < (p + 1) * 2 ^ N.of_nat k -> P c = true.
Proof.
  induction k as [|k IH]; intros p c H Hc.
  - cbn [all_bits] in H. change (2 ^ N.of_nat 0) with 1 in Hc.
    replace c with p by lia. exact H.
  - cbn [all_bits] in H. apply andb_true_iff in H. destruct H as [H0 H1].
    rewrite Nat2N.inj_succ, N.pow_succ_r' in Hc.
    destruct (N.lt_ge_cases c ((2 * p + 1) * 2 ^ N.of_nat k)).
    + apply (IH (2 * p)); auto. lia.
    + apply (IH (2 * p + 1)); auto. lia.
Qed.

Lemma forall_below (P : char -> bool) (k : nat) (c : char) :
  all_bits P k 0 = true -> c < 2 ^ N.of_nat k -> P c = true.
Proof.
  intros H Hc. apply (all_bits_spec P k 0 c H). lia.
Qed.

Lemma no_case_above (c : char) :
  8491 <= c -> fold_case c = c /\ ascii_upper c = c.
Proof.
  intros Hge. unfold fold_case, ascii_upper.
  repeat match goal with
  | |- context [(?a <=? ?b)] =>
      destruct (N.leb_spec a b); try lia; cbn [andb orb]
  | |- context [(?a =? ?b)] =>
      destruct (N.eqb_spec a b); try lia; cbn [andb orb]
  end; auto.
Qed.

Lemma letter_below (c : char) : is_letter c = true -> c < 8491.
Proof.
  intros H. destruct (N.lt_ge_cases c 8491) as [|Hge]; auto. exfalso.
  unfold is_letter, atom_match in H.
  destruct (no_case_above c Hge) as [E1 E2]. rewrite E1, E2 in H.
  unfold in_range, ch in H.
  change (N_of_ascii "a") with 97 in H. change (N_of_ascii "z") with 122 in H.
  destruct (N.leb_spec 97 c); destruct (N.leb_spec c 122); try lia;
    cbn [andb orb] in H; discriminate.
Qed.

Lemma letter_facts (c : char) : letter_ok c = true.
Proof.
  destruct (is_letter c) eqn:E.
  - apply (forall_below letter_ok 14); [vm_compute; reflexivity|].
    apply letter_below in E. change (2 ^ N.of_nat 14) with 16384. lia.
  - unfold letter_ok. rewrite E. reflexivity.
Qed.

Lemma digit_cases (c : char) :
  is_decimal c = true ->
  exists z i, In z nd_zeros /\ In i [0; 1; 2; 3; 4; 5; 6; 7; 8; 9] /\ c = z + i.
Proof.
  unfold is_decimal. rewrite existsb_exists. intros (z & Hin & Hb).
  unfold in_block in Hb. apply andb_true_iff in Hb. destruct Hb as [H1 H2].
  apply N.leb_le in H1. apply N.ltb_lt in H2.
  exists z, (c - z). split; [exact Hin|]. split; [|lia].
  assert (Hi : c - z < 10) by lia.
  cbn [In].
  assert (c - z = 0 \/ c - z = 1 \/ c - z = 2 \/ c - z = 3 \/ c - z = 4 \/
          c - z = 5 \/ c - z = 6 \/ c - z = 7 \/ c - z = 8 \/ c - z = 9) by lia.
  intuition auto.
Qed.

Lemma digit_facts (c : char) : digit_ok c = true.
Proof.
  destruct (is_decimal c) eqn:E.
  - destruct (digit_cases c E) as (z & i & Hz & Hi & ->).
    assert (Hall : forallb (fun z => forallb (fun i => digit_ok (z + i))
                                       [0; 1; 2; 3; 4; 5; 6; 7; 8; 9])
                     nd_zeros = true) by (vm_compute; reflexivity).
    rewrite forallb_forall in Hall. specialize (Hall z Hz).
    rewrite forallb_forall in Hall. exact (Hall i Hi).
  - unfold digit_ok. rewrite E. reflexivity.
Qed.

Lemma is_n_cases (c : char) : is_n c = true -> c = 78 \/ c = 110.
Proof.
  intros H.
  assert (Hlt : c < 2 ^ N.of_nat 14).
  { change (2 ^ N.of_nat 14) with 16384.
    destruct (N.lt_ge_cases c 8491) as [|Hge]; [lia|].
    destruct (no_case_above c Hge) as [E _].
    unfold is_n, atom_match in H. rewrite E in H.
    apply N.eqb_eq in H. change (fold_case (ch "n")) with 110 in H. lia. }
  assert (Hall : all_bits (fun c => negb (is_n c) || (c =? 78) || (c =? 110)) 14 0
                 = true) by (vm_compute; reflexivity).
  pose proof (forall_below _ _ c Hall Hlt) as Hc.
  cbv beta in Hc. rewrite H in Hc. cbn [negb orb] in Hc.
  apply orb_true_iff in Hc. destruct Hc as [Hc|Hc]; apply N.eqb_eq in Hc; auto.
Qed.

Lemma lower_digits (ds : pystr) : forallb is_decimal ds = true -> lower ds = ds.
Proof.
  induction ds as [|d ds IH]; cbn [forallb]; auto.
  intros H. apply andb_true_iff in H. destruct H as [Hd Hds].
  pose proof (digit_facts d) as Hf. unfold digit_ok in Hf. rewrite Hd in Hf.
  cbn [negb orb] in Hf. apply andb_true_iff in Hf. destruct Hf as [_ Hf].
  apply str_eqb_eq in Hf. unfold lower in *. cbn [flat_map]. rewrite Hf, IH; auto.
Qed.

Lemma lower_letters (ls : pystr) :
  forallb is_letter ls = true -> ~ In 304 ls ->
  forallb is_letter (lower ls) = true
  /\ List.length (lower ls) = List.length ls
  /\ lower (lower ls) = lower ls
  /\ ~ In 304 (lower ls).
Proof.
  induction ls as [|l ls IH]; cbn [forallb].
  - intros _ _. repeat split; auto.
  - intros H Hno. apply andb_true_iff in H. destruct H as [Hl Hls].
    destruct IH as (I1 & I2 & I3 & I4); auto.
    { intros Hin. apply Hno. right. exact Hin. }
    pose proof (letter_facts l) as Hf. unfold letter_ok in Hf. rewrite Hl in Hf.
    cbn [negb orb] in Hf. apply andb_true_iff in Hf. destruct Hf as [_ Hf].
    destruct (N.eqb_spec l 304) as [E304|Hne];
      [exfalso; apply Hno; left; exact E304|].
    cbn [orb] in Hf.
    unfold lower in *. cbn [flat_map].
    destruct (char_lower l) as [|l' [|? ?]]; try discriminate.
    apply andb_true_iff in Hf. destruct Hf as [Hf H304].
    apply andb_true_iff in Hf. destruct Hf as [Hl' Hid].
    apply str_eqb_eq in Hid. cbn [app forallb List.length flat_map].
    rewrite Hl', I1, I2, Hid, I3. cbn [app]. repeat split; auto.
    intros [E|Hin]; [|contradiction].
    rewrite E in H304. discriminate H304.
Qed.

Lemma bare_shape (s : pystr) :
  re_fullmatch true NCODE_BODY s <> None <-> code_shape s.
Proof.
  unfold re_fullmatch, NCODE_BODY. split.
  - destruct (run _ _ _ _ _ _) as [cs|] eqn:R; [intros _|congruence].
    apply run_some in R. destruct R as (pre & rest & cs' & -> & M & Hacc).
    destruct rest; [|discriminate]. rewrite app_nil_r. inv_matches.
    match goal with
    | Hn : atom_match true (Lit 110) ?c = true,
      Hf : fits (Some 2%nat) 0 ?ls |- code_shape ([?c] ++ ?ds ++ ?ls) =>
        exists c, ds, ls; repeat split; auto;
        destruct Hf as [->|Hf]; cbn [List.length] in *; lia
    end.
  - intros (c & ds & ls & -> & Hc & Hds & Hdl & Hls & Hll) R.
    eapply run_none with (pre := [c] ++ ds ++ ls) (rest := []) in R.
    + discriminate R.
    + rewrite app_nil_r. reflexivity.
    + econstructor; [constructor; exact Hc|].
      econstructor.
      * constructor; [exact Hds | exact Hdl | exact I].
      * constructor; [exact Hls | lia | right; cbn; lia].
Qed.

Lemma strip_code (s : pystr) : code_shape s -> strip s = s.
Proof.
  intros Hshape.
  destruct (code_ends_with_letter s Hshape) as (init & l & Hs & Hl).
  destruct Hshape as (c & ds & ls & Hc & Hn & _).
  assert (Hcs : is_space c = false).
  { destruct (is_n_cases c Hn) as [-> | ->]; reflexivity. }
  assert (Hlsp : is_space l = false).
  { pose proof (letter_facts l) as Hf. unfold letter_ok in Hf. rewrite Hl in Hf.
    cbn [negb orb] in Hf. repeat (apply andb_true_iff in Hf; destruct Hf as [Hf _]).
    apply negb_true_iff in Hf. exact Hf. }
  unfold strip, lstrip, rstrip.
  assert (Hlstrip : dropwhile is_space s = s).
  { rewrite Hc. cbn [dropwhile]. rewrite Hcs. reflexivity. }
  rewrite Hlstrip, Hs, rev_app_distr. cbn [List.rev app dropwhile].
  rewrite Hlsp. cbn [List.rev]. rewrite rev_involutive. reflexivity.
Qed.

Lemma extract_ncode_bare (rules : netloc_rules) (s : pystr) :
  code_shape s -> extract_ncode rules s = Return (lower s).
Proof.
  intros Hshape. unfold extract_ncode. rewrite (strip_code s Hshape).
  destruct (re_fullmatch true NCODE_BODY s) eqn:E; [reflexivity|].
  exfalso. apply bare_shape in Hshape. congruence.
Qed.

Lemma lower_code (s : pystr) :
  code_shape s -> ~ In 304 s ->
  code_shape (lower s) /\ lower (lower s) = lower s.
Proof.
  intros (c & ds & ls & -> & Hc & Hds & Hdl & Hls & Hll) Hno.
  assert (Hnols : ~ In 304 ls).
  { intros Hin. apply Hno. right. apply in_or_app. right. exact Hin. }
  destruct (lower_letters ls Hls Hnols) as (L1 & L2 & L3 & _).
  assert (Hlow : lower (c :: ds ++ ls) = 110 :: ds ++ lower ls).
  { unfold lower. cbn [flat_map]. rewrite flat_map_app.
    fold (lower ds). fold (lower ls). rewrite (lower_digits ds Hds).
    destruct (is_n_cases c Hc) as [-> | ->]; reflexivity. }
  rewrite Hlow. split.
  - exists 110, ds, (lower ls). rewrite L2. repeat split; auto; lia.
  - unfold lower. cbn [flat_map]. rewrite flat_map_app.
    fold (lower ds). fold (lower ls). fold (lower (lower ls)).
    rewrite (lower_digits ds Hds), L3. reflexivity.
Qed.

(** Resolution is idempotent on every bare code that does not contain
    U+0130. *)
Lemma resolve_idempotent_without_U0130 (rules : netloc_rules) (s : pystr) :
  re_fullmatch true NCODE_BODY s <> None -> ~ In 304 s ->
  extract_ncode rules s = Return (lower s)
  /\ extract_ncode rules (lower s) = Return (lower s).
Proof.
  intros Hb Hno. apply bare_shape in Hb.
  destruct (lower_code s Hb Hno) as [Hshape Hid].
  split.
  - apply extract_ncode_bare; exact Hb.
  - rewrite (extract_ncode_bare rules (lower s) Hshape), Hid. reflexivity.
Qed.

(** C6, at the input where it fails.  The string [n1234] followed by U+0130
    matches the bare pattern; it resolves to [n1234i] followed by U+0307,
    and resolving that raises. *)
Theorem resolve_twice_raises (rules : netloc_rules) :
  let s := str "n1234" ++ [304] in
  let once := str "n1234" ++ [105; 775] in
  re_fullmatch true NCODE_BODY s <> None
  /\ extract_ncode rules s = Return once
  /\ extract_ncode rules once
     = Raise (ValueError (str "Unable to extract ncode from: " ++ once)).
Proof.
  cbv zeta. split; [|split].
  - vm_compute. discriminate.
  - vm_compute. reflexivity.
  - vm_compute. reflexivity.
Qed.

(** ** Episode discovery *)

Lemma insert_by_key_perm {A} (key : A -> Z) (x : A) (l : list A) :
  Permutation (insert_by_key key x l) (x :: l).
Proof.
  induction l as [|y l IH]; cbn [insert_by_key]; auto.
  destruct (key x <=? key y)%Z; auto.
  rewrite IH. apply perm_swap.
Qed.

Lemma sort_by_key_perm {A} (key : A -> Z) (l : list A) :
  Permutation (sort_by_key key l) l.
Proof.
  induction l as [|x l IH]; cbn [sort_by_key]; auto.
  rewrite insert_by_key_perm. auto.
Qed.

Lemma insert_by_key_ascending {A} (key : A -> Z) (x : A) (l : list A) :
  ascending key l -> ascending key (insert_by_key key x l).
Proof.
  unfold ascending. induction l as [|y l IH]; intros Hs; cbn [insert_by_key].
  - repeat constructor.
  - apply StronglySorted_inv in Hs. destruct Hs as [Hs Hy].
    destruct (Z.leb_spec (key x) (key y)).
    + constructor; [constructor; auto|].
      constructor; auto.
      eapply Forall_impl; [|exact Hy]. cbv beta. intros; lia.
    + constructor; auto.
      eapply Permutation_Forall; [symmetry; apply insert_by_key_perm|].
      constructor; auto. lia.
Qed.

Lemma sort_by_key_ascending {A} (key : A -> Z) (l : list A) :
  ascending key (sort_by_key key l).
Proof.
  induction l as [|x l IH]; cbn [sort_by_key].
  - constructor.
  - apply insert_by_key_ascending; exact IH.
Qed.

Lemma str_in_In (u : pystr) (l : list pystr) : str_in u l = true <-> In u l.
Proof.
  unfold str_in. rewrite existsb_exists. split.
  - intros (x & Hin & Heq). apply str_eqb_eq in Heq. subst. exact Hin.
  - intros Hin. exists u. split; auto. apply str_eqb_refl.
Qed.

Lemma scan_anchors_nodup (rules : netloc_rules) (ncode base : pystr)
    (hrefs : list pystr) :
  forall urls seen out,
    (forall u, In u seen <-> In u urls) -> NoDup urls ->
    scan_anchors rules ncode base hrefs urls seen = Return out ->
    NoDup out.
Proof.
  induction hrefs as [|a rest IH]; intros urls seen out Hseen Hnd H;
    cbn [scan_anchors] in H.
  - injection H as <-. exact Hnd.
  - unfold rbind in H.
    destruct (if contains (str "://") (strip a) then _ else _) as [p|e];
      [|discriminate].
    destruct (re_match true EP_PATH_RE p) as [m|]; [|eapply IH; eauto].
    destruct (negb _); [eapply IH; eauto|].
    destruct (urljoin rules base p) as [abs_url|e]; [|discriminate].
    destruct (str_in abs_url seen) eqn:E; [eapply IH; eauto|].
    assert (Hnew : ~ In abs_url urls).
    { intros Hin. apply Hseen in Hin. apply str_in_In in Hin. congruence. }
    eapply IH; [| |exact H].
    + intros u. cbn [In]. rewrite in_app_iff, Hseen. cbn [In]. tauto.
    + apply NoDup_app; auto.
      * repeat constructor. intros [].
      * intros u Hu [<-|[]]. auto.
Qed.

(** X12.  Whatever the page, the discovered URLs are pairwise distinct
    and ascending by the key [ep_no]. *)
Lemma parse_episode_urls_sorted (rules : netloc_rules) (index_soup : Soup)
    (ncode base : pystr) (out : list pystr) :
  parse_episode_urls rules index_soup ncode base = Return out ->
  NoDup out /\ ascending (ep_no ncode) out.
Proof.
  unfold parse_episode_urls, rbind.
  destruct (scan_anchors rules ncode base (anchors index_soup) [] []) as [urls|e] eqn:E;
    [|discriminate].
  intros [= <-]. split.
  - eapply Permutation_NoDup; [symmetry; apply sort_by_key_perm|].
    eapply scan_anchors_nodup; [| |exact E].
    + intros u; reflexivity.
    + constructor.
  - apply sort_by_key_ascending.
Qed.

(** With trailing slashes the anchors {1,3,3,2} give 1, 2, 3. *)
Lemma discover_with_slashes (rules : netloc_rules) :
  parse_episode_urls rules (page (map link [1; 3; 3; 2]%Z) None) (str "n1234ab") base_url
  = Return (map episode_url [1; 2; 3]%Z).
Proof. vm_compute. reflexivity. Qed.

(** C2, at the input where it fails.  The anchors for the episodes
    {1,3,3,2}, written without a trailing slash, are accepted and
    deduplicated, but every one of them gets the key [10^18], and the
    result is in the order 1, 3, 2. *)
Theorem discover_without_slashes (rules : netloc_rules) :
  parse_episode_urls rules (page (map bare_link [1; 3; 3; 2]%Z) None)
    (str "n1234ab") base_url
  = Return (map bare_episode_url [1; 3; 2]%Z)
  /\ map (ep_no (str "n1234ab")) (map bare_episode_url [1; 3; 2]%Z)
     = [10 ^ 18; 10 ^ 18; 10 ^ 18]%Z.
Proof. split; vm_compute; reflexivity. Qed.

(** ** The range filter *)

Lemma in_requested_range_spec (from_ep to_ep : option Z) (n : Z) :
  in_requested_range from_ep to_ep n = true
  <-> (forall f, from_ep = Some f -> (f <= n)%Z)
      /\ (forall t, to_ep = Some t -> (n <= t)%Z).
Proof.
  unfold in_requested_range.
  destruct from_ep as [f|], to_ep as [t|];
    repeat match goal with
    | |- context [(?a <? ?b)%Z] => destruct (Z.ltb_spec a b)
    end; cbn [negb]; split; try discriminate; auto.
  all: try (intros _; split; intros ? [= <-]; lia).
  all: try (intros [H1 H2]; try specialize (H1 _ eq_refl);
            try specialize (H2 _ eq_refl); lia).
  all: try (intros _; split; intros ? ?; try discriminate).
Qed.

(** The filter keeps, in their order, the URLs whose number as [main]
    reads it lies within the bounds that are given. *)
Lemma filter_urls_spec (ncode : pystr) (from_ep to_ep : option Z)
    (urls : list pystr) (u : pystr) :
  In u (filter_urls ncode from_ep to_ep urls)
  <-> In u urls
      /\ (forall f, from_ep = Some f -> (f <= ep_no_or_1 ncode u)%Z)
      /\ (forall t, to_ep = Some t -> (ep_no_or_1 ncode u <= t)%Z).
Proof.
  unfold filter_urls. rewrite filter_In, in_requested_range_spec. reflexivity.
Qed.

(** With trailing slashes the bounds 5 and 7 keep 5, 6, 7. *)
Lemma filter_with_slashes :
  filter_urls (str "n1234ab") (Some 5%Z) (Some 7%Z) (map episode_url one_to_ten)
  = map episode_url [5; 6; 7]%Z.
Proof. vm_compute. reflexivity. Qed.

(** C8, at the input where it fails.  The index page links the episodes 1
    to 10 without a trailing slash.  All ten are discovered; the filter
    reads the number 1 off each of them, so the bounds 5 and 7 keep none,
    and the run ends with [SystemExit] and writes nothing. *)
Theorem filter_without_slashes (rules : netloc_rules) :
  let index_page := page (map bare_link one_to_ten) None in
  parse_episode_urls rules index_page (str "n1234ab") base_url
  = Return (map bare_episode_url one_to_ten)
  /\ map (ep_no_or_1 (str "n1234ab")) (map bare_episode_url one_to_ten)
     = map (fun _ => 1%Z) one_to_ten
  /\ filter_urls (str "n1234ab") (Some 5%Z) (Some 7%Z)
       (map bare_episode_url one_to_ten) = []
  /\ main rules (sample_args (Some 5%Z) (Some 7%Z))
       (fresh_world (site index_page (page [] (Some (str "text"))) []))
     = (Raise (SystemExit (str "No episodes matched the requested range.")),
        snd (discover rules (sample_args (Some 5%Z) (Some 7%Z))
               (fresh_world (site index_page (page [] (Some (str "text"))) []))))
  /\ files (snd (main rules (sample_args (Some 5%Z) (Some 7%Z))
                   (fresh_world (site index_page (page [] (Some (str "text"))) []))))
     = [].
Proof.
  cbv zeta. split; [|split; [|split; [|split]]]; vm_compute; reflexivity.
Qed.

(** ** Episode extraction *)

Lemma episode_parts_none (s : Soup) (ip ia : bool) :
  novel_p s = None -> novel_honbun s = None -> novel_a s = None ->
  episode_parts s ip ia = [].
Proof.
  intros Hp Hh Ha. unfold episode_parts. rewrite Hp, Hh, Ha.
  destruct ip, ia; reflexivity.
Qed.

(** A page without any of the three zones gets the placeholder. *)
Lemma placeholder_when_no_zone (s : Soup) (u : pystr) (ip ia : bool) (t : pystr) :
  novel_p s = None -> novel_honbun s = None -> novel_a s = None ->
  html_body (episode_of_soup s u ip ia t) = no_body_found.
Proof.
  intros Hp Hh Ha. unfold episode_of_soup; cbn [html_body].
  rewrite episode_parts_none; auto.
Qed.

Lemma extract_episode_of_get (client : HttpClient) (u : pystr) (ip ia : bool)
    (t : pystr) (w w' : world) (resp : response) :
  get client u w = (Return resp, w') ->
  extract_episode client u ip ia t w
  = (Return (episode_of_soup (soup_of resp) u ip ia t), w').
Proof.
  intros H. unfold extract_episode, get_soup, bind, ret. rewrite H. reflexivity.
Qed.

Lemma join_nil_inv (sep : pystr) (parts : list pystr) :
  sep <> [] -> join sep parts = [] -> parts = [] \/ parts = [[]].
Proof.
  intros Hsep H. destruct parts as [|p [|q rest]]; auto.
  - cbn [join] in H. subst. auto.
  - cbn [join] in H. apply app_eq_nil in H. destruct H as [_ H].
    apply app_eq_nil in H. destruct H as [H _]. contradiction.
Qed.

(** X11.  [html_body] is empty exactly when one zone was captured and
    its markup is empty. *)
Lemma html_body_empty_iff (s : Soup) (u : pystr) (ip ia : bool) (t : pystr) :
  html_body (episode_of_soup s u ip ia t) = [] <-> episode_parts s ip ia = [[]].
Proof.
  unfold episode_of_soup; cbn [html_body].
  destruct (episode_parts s ip ia) as [|p rest] eqn:E; cbn [nonempty_list].
  - split; discriminate.
  - split.
    + intros H. apply join_nil_inv in H; [|discriminate].
      destruct H as [H|H]; [discriminate|exact H].
    + intros [= -> ->]. reflexivity.
Qed.

(** C5, at the input where it fails.  An episode page whose body element is
    present and empty, and which has no preface and no afterword: whatever
    the inclusion flags, the one captured zone is the empty string, the
    list of parts is not empty, and [html_body] is the empty string and
    not the placeholder. *)
Theorem empty_zone_gives_empty_body (ip ia : bool) :
  let u := episode_url 1 in
  let w := fresh_world (site (page [] None) (page [] (Some [])) []) in
  episode_parts (page [] (Some [])) ip ia = [[]]
  /\ fst (extract_episode (sample_client 3) u ip ia (str "A Work") w)
     = Return {| index := 1; title := str "A Chapter"; url := u; html_body := [] |}.
Proof.
  destruct ip, ia; split; vm_compute; reflexivity.
Qed.

(** ** Effects: what the operations leave alone *)

Lemma quiet_refl (w : world) : quiet w w.
Proof. repeat split; auto. Qed.

Lemma quiet_trans (w1 w2 w3 : world) : quiet w1 w2 -> quiet w2 w3 -> quiet w1 w3.
Proof.
  intros (S1 & N1 & L1) (S2 & N2 & L2). repeat split; try congruence. lia.
Qed.

Lemma Quiet_ret {A} (a : A) : Quiet (ret a).
Proof. intros w r w' H; injection H as <- <-. apply quiet_refl. Qed.

Lemma Quiet_raise {A} (e : exn) : Quiet (@raise A e).
Proof. intros w r w' H; injection H as <- <-. apply quiet_refl. Qed.

Lemma Quiet_lift {A} (x : result A) : Quiet (lift x).
Proof. intros w r w' H; injection H as <- <-. apply quiet_refl. Qed.

Lemma Quiet_bind {A B} (c : M A) (f : A -> M B) :
  Quiet c -> (forall a, Quiet (f a)) -> Quiet (bind c f).
Proof.
  intros Hc Hf w r w' H. unfold bind in H.
  destruct (c w) as [[a|e] w1] eqn:E.
  - eapply quiet_trans; [eapply Hc; eauto | eapply Hf; eauto].
  - injection H as <- <-. eapply Hc; eauto.
Qed.

Lemma Quiet_attempt {A} (c : M A) : Quiet c -> Quiet (attempt c).
Proof.
  intros Hc w r w' H. unfold attempt in H.
  destruct (c w) as [r0 w1] eqn:E. injection H as <- <-. eapply Hc; eauto.
Qed.

Lemma Quiet_now : Quiet now.
Proof. intros w r w' H; injection H as <- <-. apply quiet_refl. Qed.

Lemma Quiet_get_last_request : Quiet get_last_request.
Proof. intros w r w' H; injection H as <- <-. apply quiet_refl. Qed.

Lemma Quiet_sleep (site : sleep_site) (d : Q) : Quiet (sleep site d).
Proof.
  intros w r w' H. unfold sleep in H. destruct (_ || _).
  - injection H as <- <-. apply quiet_refl.
  - destruct (negb _); injection H as <- <-; repeat split; auto.
Qed.

Lemma Quiet_set_last_request (t : Q) : Quiet (set_last_request t).
Proof. intros w r w' H; injection H as <- <-. repeat split; auto. Qed.

Lemma Quiet_print (line : pystr) : Quiet (print line).
Proof. intros w r w' H; injection H as <- <-. repeat split; auto. Qed.

Lemma Quiet_session_get (seconds : Z) (u : pystr) : Quiet (session_get seconds u).
Proof.
  intros w r w' H. unfold session_get in H.
  destruct (seconds <=? 0)%Z; [injection H as <- <-; apply quiet_refl|].
  destruct (network w (sent w) u) as [took [reason|resp]].
  - injection H as <- <-. repeat split; simpl; auto.
  - destruct (_ && _); injection H as <- <-; repeat split; simpl; auto.
Qed.

Create HintDb quiet.

#[local] Hint Resolve Quiet_ret Quiet_raise Quiet_lift Quiet_attempt Quiet_now
  Quiet_get_last_request Quiet_sleep Quiet_set_last_request Quiet_print
  Quiet_session_get : quiet.

Ltac quiet_steps :=
  repeat first
    [ apply Quiet_bind; [|intros ?]
    | progress auto with quiet
    | match goal with
      | |- Quiet (if ?b then _ else _) => destruct b
      | |- Quiet (match ?x with _ => _ end) => destruct x
      end ].

Lemma Quiet_throttle (self : HttpClient) : Quiet (throttle self).
Proof. unfold throttle. quiet_steps. Qed.

Lemma Quiet_raise_last {A} (le : option exn) : Quiet (@raise_last A le).
Proof. unfold raise_last. quiet_steps. Qed.

#[local] Hint Resolve Quiet_throttle Quiet_raise_last : quiet.

Lemma Quiet_get_loop (self : HttpClient) (u : pystr) (todo : nat) :
  forall attempt_no le, Quiet (get_loop self u todo attempt_no le).
Proof.
  induction todo as [|todo IH]; intros a le; cbn [get_loop]; quiet_steps.
Qed.

Lemma Quiet_get (self : HttpClient) (u : pystr) : Quiet (get self u).
Proof. apply Quiet_get_loop. Qed.

#[local] Hint Resolve Quiet_get : quiet.

Lemma Quiet_get_soup (self : HttpClient) (u : pystr) : Quiet (get_soup self u).
Proof. unfold get_soup. quiet_steps. Qed.

#[local] Hint Resolve Quiet_get_soup : quiet.

Lemma Quiet_extract_episode self u ip ia t : Quiet (extract_episode self u ip ia t).
Proof. unfold extract_episode. quiet_steps. Qed.

Lemma Quiet_fetch_general_all_no self ncode : Quiet (fetch_general_all_no self ncode).
Proof. unfold fetch_general_all_no. quiet_steps. Qed.

Lemma Quiet_HttpClient_init d t r ua : Quiet (HttpClient_init d t r ua).
Proof. unfold HttpClient_init. quiet_steps. Qed.

#[local] Hint Resolve Quiet_extract_episode Quiet_fetch_general_all_no
  Quiet_HttpClient_init : quiet.

Lemma Quiet_discover rules args : Quiet (discover rules args).
Proof. unfold discover. quiet_steps. Qed.

Lemma Quiet_fetch_episodes args plan urls :
  forall episodes, Quiet (fetch_episodes args plan urls episodes).
Proof.
  induction urls as [|u rest IH]; intros episodes; cbn [fetch_episodes]; quiet_steps.
Qed.

(** ** The retrying client *)

Lemma Zpy_max_lower (a b : Z) : (a <= Zpy_max a b)%Z.
Proof. unfold Zpy_max. destruct (Z.leb_spec b a); lia. Qed.

Lemma Qpy_max_lower (a b : Q) : (a <= Qpy_max a b)%Q.
Proof.
  unfold Qpy_max. destruct (Qle_bool b a) eqn:E.
  - apply Qle_refl.
  - apply Qlt_le_weak, Qnot_le_lt. intros H. apply Qle_bool_iff in H. congruence.
Qed.

(** *** The limits of [time.sleep] and of the time-out *)

Lemma Qle_bool_false (a b : Q) : Qle_bool a b = false <-> (b < a)%Q.
Proof.
  split.
  - intros E. apply Qnot_le_lt. intros H. apply Qle_bool_iff in H. congruence.
  - intros H. destruct (Qle_bool a b) eqn:E; [|reflexivity].
    apply Qle_bool_iff in E. exfalso. apply (Qlt_not_le _ _ H). exact E.
Qed.

Lemma sleep_limit_positive : (5 < sleep_limit)%Q.
Proof. reflexivity. Qed.

(** A duration within the limits is slept. *)
Lemma sleep_returns (site : sleep_site) (d : Q) (w : world) :
  (0 <= d)%Q -> (d < sleep_limit)%Q ->
  sleep site d w
  = (Return tt,
     {| clock := sec_add (clock w) d; network := network w; sent := sent w;
        trace := Slept site d :: trace w; last_request := last_request w;
        dirs := dirs w; files := files w; console := console w |}).
Proof.
  intros H0 Hlt. unfold sleep.
  assert (E1 : Qle_bool sleep_limit d = false) by (apply Qle_bool_false; exact Hlt).
  assert (E2 : Qle_bool (- sleep_limit) d = true).
  { apply Qle_bool_iff. pose proof sleep_limit_positive. lra. }
  assert (E3 : Qle_bool 0 d = true) by (apply Qle_bool_iff; exact H0).
  rewrite E1, E2, E3. reflexivity.
Qed.

(** A duration of [2 ** 63] nanoseconds or more is refused. *)
Lemma sleep_overflows (site : sleep_site) (d : Q) (w : world) :
  (sleep_limit <= d)%Q -> sleep site d w = (Raise OverflowError, w).
Proof.
  intros H. unfold sleep. apply Qle_bool_iff in H. rewrite H. reflexivity.
Qed.

(** Whatever the duration, [time.sleep] sends nothing and either returns
    or raises in the state in which it was called. *)
Lemma sleep_frame (site : sleep_site) (d : Q) (w : world) :
  exists r w',
    sleep site d w = (r, w')
    /\ sent w' = sent w /\ network w' = network w
    /\ (r = Return tt
        \/ (r = Raise OverflowError /\ w' = w)
        \/ (r = Raise negative_sleep /\ w' = w /\ (d < 0)%Q)).
Proof.
  unfold sleep. destruct (_ || _).
  - eexists _, _. repeat split; auto.
  - destruct (Qle_bool 0 d) eqn:E; cbn [negb].
    + eexists _, _. repeat split; auto.
    + eexists _, _. repeat split; auto. right; right.
      repeat split. apply Qle_bool_false. exact E.
Qed.

(** The wait of [_throttle], when the delay is positive. *)
Lemma throttle_wait (self : HttpClient) (w : world) :
  (sec_sub (delay self) (sec_sub (clock w) (last_request w))
   == delay self - (clock w - last_request w))%Q.
Proof.
  unfold sec_sub.
  pose proof (Qred_correct (clock w - last_request w)) as R1.
  pose proof (Qred_correct (delay self - Qred (clock w - last_request w))) as R2.
  lra.
Qed.

(** Whatever the client and the state, [_throttle] sends nothing and
    leaves the back-off sleeps alone; it returns, or [time.sleep]
    refuses the wait and nothing has changed. *)
Lemma throttle_frame (self : HttpClient) (w : world) :
  exists r w',
    throttle self w = (r, w')
    /\ sent w' = sent w /\ network w' = network w
    /\ backoff_sleeps (trace w') = backoff_sleeps (trace w)
    /\ (r = Return tt \/ (r = Raise OverflowError /\ w' = w)).
Proof.
  unfold throttle. destruct (Qle_bool (delay self) 0).
  - eexists _, _; repeat split; auto.
  - unfold bind at 1, now. unfold bind at 1, get_last_request. unfold bind at 1.
    destruct (Qle_bool (sec_sub (delay self) (sec_sub (clock w) (last_request w))) 0)
      eqn:Ew.
    + eexists _, _; repeat split; auto.
    + destruct (sleep_frame Throttle
                  (sec_sub (delay self) (sec_sub (clock w) (last_request w))) w)
        as (r & w1 & Es & S1 & N1 & Hr).
      rewrite Es. destruct Hr as [->|[[-> ->]|(-> & -> & Hneg)]].
      * unfold sleep in Es.
        destruct (_ || _); [discriminate Es|].
        destruct (negb _); [discriminate Es|]. injection Es as <-.
        eexists _, _; repeat split; auto.
      * eexists _, _; repeat split; auto.
      * exfalso. apply Qle_bool_false in Ew. lra.
Qed.

(** For a delay that [time.sleep] takes and a state in which time runs
    forward, [_throttle] returns. *)
Lemma throttle_ok (self : HttpClient) (w : world) :
  (delay self < sleep_limit)%Q -> steady w ->
  exists w',
    throttle self w = (Return tt, w')
    /\ sent w' = sent w /\ network w' = network w
    /\ backoff_sleeps (trace w') = backoff_sleeps (trace w)
    /\ steady w'.
Proof.
  intros Hd [Hc Hn]. unfold throttle. destruct (Qle_bool (delay self) 0).
  - eexists; repeat split; auto.
  - unfold bind at 1, now. unfold bind at 1, get_last_request. unfold bind at 1.
    pose proof (throttle_wait self w) as Hw.
    destruct (Qle_bool (sec_sub (delay self) (sec_sub (clock w) (last_request w))) 0)
      eqn:Ew.
    + eexists; repeat split; auto. cbn [last_request clock]. apply Qle_refl.
    + apply Qle_bool_false in Ew.
      rewrite sleep_returns by lra.
      eexists; repeat split; auto. cbn [last_request clock]. apply Qle_refl.
Qed.

(** With a positive delay whose wait [time.sleep] refuses, [_throttle]
    raises [OverflowError] and nothing has changed. *)
Lemma throttle_overflows (self : HttpClient) (w : world) :
  (0 < delay self)%Q ->
  (sleep_limit <= delay self - (clock w - last_request w))%Q ->
  throttle self w = (Raise OverflowError, w).
Proof.
  intros Hd Hw. unfold throttle.
  assert (E : Qle_bool (delay self) 0 = false) by (apply Qle_bool_false; exact Hd).
  rewrite E. unfold bind at 1, now. unfold bind at 1, get_last_request.
  unfold bind at 1.
  pose proof (throttle_wait self w) as Hq. pose proof sleep_limit_positive.
  assert (Ew : Qle_bool (sec_sub (delay self) (sec_sub (clock w) (last_request w))) 0
               = false) by (apply Qle_bool_false; lra).
  rewrite Ew, sleep_overflows by lra. reflexivity.
Qed.

(** A request with a positive time-out. *)
Lemma session_get_spec (seconds : Z) (u : pystr) (w : world) :
  (0 < seconds)%Z ->
  exists r w',
    session_get seconds u w = (r, w')
    /\ sent w' = S (sent w) /\ network w' = network w
    /\ backoff_sleeps (trace w') = backoff_sleeps (trace w)
    /\ (failing (network w (sent w) u) = true -> r = Raise (failure_of w (sent w) u))
    /\ (forall e, r = Raise e -> exists reason, e = RequestException reason)
    /\ (steady w -> steady w').
Proof.
  intros Hs. unfold session_get, failing, failure_of.
  replace (seconds <=? 0)%Z with false by (symmetry; apply Z.leb_gt; exact Hs).
  assert (Hsteady : forall took o,
            network w (sent w) u = (took, o) -> steady w ->
            steady
              {| clock := sec_add (clock w) took; network := network w;
                 sent := S (sent w); trace := Requested u :: trace w;
                 last_request := last_request w; dirs := dirs w;
                 files := files w; console := console w |}).
  { intros took o E [Hc Hn]. split; [|exact Hn]. cbn [last_request clock].
    specialize (Hn (sent w) u). rewrite E in Hn. cbn [fst] in Hn.
    unfold sec_add. pose proof (Qred_correct (clock w + took)). lra. }
  destruct (network w (sent w) u) as [took [reason|resp]] eqn:E; cbn [snd].
  - eexists _, _. split; [reflexivity|]. do 3 (split; [reflexivity|]).
    split; [reflexivity|]. split; [intros e [= <-]; eauto|].
    exact (Hsteady _ _ eq_refl).
  - destruct (_ && _); eexists _, _; (split; [reflexivity|]);
      do 3 (split; [reflexivity|]);
      (split; [first [reflexivity|discriminate]|]);
      (split; [first [discriminate|intros e [= <-]; eauto]|]);
      exact (Hsteady _ _ eq_refl).
Qed.

(** A request, whatever the time-out: at most one request is sent, and
    what is raised is a request error or the refusal of the time-out. *)
Lemma session_get_frame (seconds : Z) (u : pystr) (w : world) :
  exists r w',
    session_get seconds u w = (r, w')
    /\ (sent w <= sent w' <= S (sent w))%nat /\ network w' = network w
    /\ backoff_sleeps (trace w') = backoff_sleeps (trace w)
    /\ (forall e, r = Raise e ->
          (exists reason, e = RequestException reason)
          \/ (e = invalid_timeout seconds /\ w' = w)).
Proof.
  unfold session_get. destruct (seconds <=? 0)%Z.
  - eexists _, _; repeat split; auto. intros e [= <-]. auto.
  - destruct (network w (sent w) u) as [took [reason|resp]].
    + eexists _, _; repeat split; cbn [sent]; auto. intros e [= <-]. eauto.
    + destruct (_ && _); eexists _, _; repeat split; cbn [sent]; auto;
        try discriminate.
      intros e [= <-]. eauto.
Qed.

Lemma backoff_raises (a : Z) (e : exn) : backoff a = Raise e -> e = OverflowError.
Proof.
  unfold backoff, float_of_int, rbind.
  destruct (_ <? _)%Z; [discriminate|]. intros [= <-]. reflexivity.
Qed.

(** The back-off is a duration that [time.sleep] takes. *)
Lemma backoff_value (a : Z) (b : Q) :
  backoff a = Return b -> (0 <= b)%Q /\ (b < sleep_limit)%Q.
Proof.
  unfold backoff, float_of_int, rbind.
  destruct (_ <? _)%Z; [|discriminate]. intros [= <-].
  assert (Hp : (0 <= sec_mul (1 # 2) (inject_Z (2 ^ (a - 1))))%Q).
  { unfold sec_mul.
    pose proof (Qred_correct ((1 # 2) * inject_Z (2 ^ (a - 1)))) as R.
    assert (Hz : (0 <= inject_Z (2 ^ (a - 1)))%Q).
    { change 0%Q with (inject_Z 0). rewrite <- Zle_Qle.
      destruct (Z.le_gt_cases 0 (a - 1)) as [Hle|Hgt].
      - apply Z.pow_nonneg. lia.
      - rewrite Z.pow_neg_r by lia. lia. }
    nra. }
  pose proof sleep_limit_positive.
  unfold Qpy_min. destruct (Qle_bool 5 _) eqn:E.
  - split; lra.
  - apply Qle_bool_false in E. split; lra.
Qed.

Lemma steady_after_sleep (site : sleep_site) (d : Q) (w : world) :
  steady w -> (0 <= d)%Q ->
  steady
    {| clock := sec_add (clock w) d; network := network w; sent := sent w;
       trace := Slept site d :: trace w; last_request := last_request w;
       dirs := dirs w; files := files w; console := console w |}.
Proof.
  intros [Hc Hn] Hd. split; [|exact Hn]. cbn [last_request clock].
  unfold sec_add. pose proof (Qred_correct (clock w + d)). lra.
Qed.

Lemma get_loop_S (self : HttpClient) (u : pystr) (todo : nat) (a : Z)
    (le : option exn) :
  get_loop self u (S todo) a le
  = (throttle self ;;;
     r <- attempt (session_get (timeout self) u) ;;
     match r with
     | Return resp => ret resp
     | Raise (RequestException reason) =>
         if (a =? retries self)%Z
         then raise_last (Some (RequestException reason))
         else
           b <- lift (backoff a) ;;
           sleep Backoff b ;;;
           get_loop self u todo (a + 1)%Z (Some (RequestException reason))
     | Raise e => raise e
     end).
Proof. reflexivity. Qed.

(** The sleep of the back-off, once [backoff] has returned. *)
Lemma backoff_sleep (a : Z) (b : Q) (w : world) :
  backoff a = Return b ->
  sleep Backoff b w
  = (Return tt,
     {| clock := sec_add (clock w) b; network := network w; sent := sent w;
        trace := Slept Backoff b :: trace w; last_request := last_request w;
        dirs := dirs w; files := files w; console := console w |}).
Proof.
  intros Hb. apply backoff_value in Hb. destruct Hb as [H0 Hl].
  apply sleep_returns; assumption.
Qed.

(** For a usable client in a steady state an attempt is made. *)
Lemma get_loop_sends (self : HttpClient) (u : pystr) (todo : nat)
    (a : Z) (le : option exn) (w : world) :
  usable self -> steady w ->
  (sent w < sent (snd (get_loop self u (S todo) a le w)))%nat.
Proof.
  intros [Ht Hd] Hw. rewrite get_loop_S. unfold bind at 1.
  destruct (throttle_ok self w Hd Hw) as (w1 & -> & S1 & _).
  unfold bind at 1, attempt.
  destruct (session_get_spec (timeout self) u w1 Ht) as (r & w2 & -> & S2 & _).
  assert (Hlt : (sent w < sent w2)%nat) by lia.
  destruct r as [resp|e]; [exact Hlt|].
  destruct e; try exact Hlt.
  destruct (a =? retries self)%Z.
  - destruct (raise_last _ w2) as [r3 w3] eqn:E3.
    apply Quiet_raise_last in E3. destruct E3 as (_ & _ & L). cbn [snd]. lia.
  - match goal with |- (_ < sent (snd (?c w2)))%nat =>
      destruct (c w2) as [r3 w3] eqn:E3;
      assert (Q3 : Quiet c) by (quiet_steps; apply Quiet_get_loop)
    end.
    apply Q3 in E3. destruct E3 as (_ & _ & L). cbn [snd]. lia.
Qed.

(** The assertion after the loop cannot fail. *)
Lemma get_loop_no_assertion (self : HttpClient) (u : pystr) (todo : nat) :
  forall (a : Z) (le : option exn) (w : world),
    (todo = 0%nat -> le <> None) ->
    (forall e, le = Some e -> e <> AssertionError) ->
    fst (get_loop self u todo a le w) <> Raise AssertionError.
Proof.
  induction todo as [|todo IH]; intros a le w H0 Hle.
  - cbn [get_loop]. destruct le as [e|]; [|exfalso; apply H0; reflexivity].
    cbn. intros [= ->]. eapply Hle; reflexivity.
  - rewrite get_loop_S. unfold bind at 1.
    destruct (throttle_frame self w) as (r1 & w1 & -> & _ & _ & _ & [->|[-> _]]);
      [|cbn; discriminate].
    unfold bind at 1, attempt.
    destruct (session_get_frame (timeout self) u w1) as (r & w2 & -> & _ & _ & _ & Hr).
    destruct r as [resp|e]; [cbn; discriminate|].
    destruct (Hr e eq_refl) as [[reason ->]|[-> _]]; [|cbn; discriminate].
    cbv beta match.
    destruct (a =? retries self)%Z; [cbn; discriminate|].
    unfold bind at 1, lift. destruct (backoff a) as [b|e] eqn:Eb.
    + unfold bind at 1. rewrite (backoff_sleep a b w2 Eb).
      apply IH; [discriminate|].
      intros e [= <-]. discriminate.
    + apply backoff_raises in Eb. subst e. cbn. discriminate.
Qed.




Lemma backoff_in_range (a : Z) :
  (1 <= a <= 1024)%Z -> backoff a = Return (backoff_seconds a).
Proof.
  intros Ha. unfold backoff, float_of_int, backoff_seconds.
  assert (H : (Z.abs (2 ^ (a - 1)) <? 2 ^ 1024 - 2 ^ 970)%Z = true).
  { apply Z.ltb_lt. rewrite Z.abs_eq by (apply Z.pow_nonneg; lia).
    apply Z.le_lt_trans with (2 ^ 1023)%Z.
    - apply Z.pow_le_mono_r; lia.
    - apply Z.ltb_lt. vm_compute. reflexivity. }
  rewrite H. reflexivity.
Qed.

Lemma backoff_overflows : backoff 1025 = Raise OverflowError.
Proof. vm_compute. reflexivity. Qed.

Lemma attempts_from_S (a : Z) (k : nat) :
  attempts_from a (S k) = a :: attempts_from (a + 1) k.
Proof.
  unfold attempts_from. cbn [seq map]. f_equal; [lia|].
  rewrite <- seq_shift, map_map. apply map_ext. intros i. lia.
Qed.

Lemma always_fails_later (w w' : world) (u : pystr) :
  network w' = network w -> always_fails w u -> always_fails w' u.
Proof. intros E H n. rewrite E. apply H. Qed.

Lemma failure_of_later (w w' : world) (n : nat) (u : pystr) :
  network w' = network w -> failure_of w' n u = failure_of w n u.
Proof. intros E. unfold failure_of. rewrite E. reflexivity. Qed.

(** One failed attempt of a usable client in a steady state: the
    throttle, then the request. *)
Lemma failed_attempt (self : HttpClient) (u : pystr) (w : world) :
  usable self -> steady w -> always_fails w u ->
  exists reason w1 w2,
    throttle self w = (Return tt, w1)
    /\ session_get (timeout self) u w1 = (Raise (RequestException reason), w2)
    /\ failure_of w (sent w) u = RequestException reason
    /\ sent w2 = S (sent w) /\ network w2 = network w
    /\ backoff_sleeps (trace w2) = backoff_sleeps (trace w)
    /\ steady w2.
Proof.
  intros [Ht Hd] Hw Hf.
  destruct (throttle_ok self w Hd Hw) as (w1 & E1 & S1 & N1 & B1 & W1).
  destruct (session_get_spec (timeout self) u w1 Ht)
    as (r & w2 & E2 & S2 & N2 & B2 & Hr & _ & W2).
  assert (Er : r = Raise (failure_of w (sent w) u)).
  { rewrite Hr.
    - unfold failure_of. rewrite N1, S1. reflexivity.
    - rewrite N1. apply Hf. }
  subst r.
  assert (Ef : exists reason, failure_of w (sent w) u = RequestException reason).
  { unfold failure_of. destruct (snd _); eauto. }
  destruct Ef as [reason Ef]. rewrite Ef in E2.
  exists reason, w1, w2. repeat split; auto; try congruence; apply W2; exact W1.
Qed.

(** With a retry count of at most 1025, a URL whose every fetch fails is
    tried exactly [retries] times, each failed attempt but the last is
    followed by its back-off sleep, and the error of the last attempt is
    raised. *)
Lemma get_loop_all_fail (self : HttpClient) (u : pystr) (todo : nat) :
  forall (a : Z) (le : option exn) (w : world),
    usable self -> steady w -> always_fails w u ->
    (1 <= a)%Z -> (a + Z.of_nat todo = retries self)%Z -> (retries self <= 1025)%Z ->
    exists w',
      get_loop self u (S todo) a le w
      = (Raise (failure_of w (sent w + todo) u), w')
      /\ sent w' = (sent w + S todo)%nat
      /\ network w' = network w
      /\ backoff_sleeps (trace w')
         = backoff_sleeps (trace w) ++ map backoff_seconds (attempts_from a todo).
Proof.
  induction todo as [|todo IH]; intros a le w Hu Hw Hf Ha Hn Hmax;
    destruct (failed_attempt self u w Hu Hw Hf)
      as (reason & w1 & w2 & E1 & E2 & Ef & S2 & N2 & B2 & W2);
    rewrite get_loop_S; unfold bind at 1; rewrite E1;
    unfold bind at 1, attempt; rewrite E2; cbv beta match.
  - replace (a =? retries self)%Z with true by (symmetry; apply Z.eqb_eq; lia).
    exists w2. rewrite Nat.add_0_r, Ef. repeat split; auto; try lia.
    cbn. rewrite app_nil_r. exact B2.
  - replace (a =? retries self)%Z with false by (symmetry; apply Z.eqb_neq; lia).
    assert (Eb : backoff a = Return (backoff_seconds a))
      by (apply backoff_in_range; lia).
    unfold bind at 1, lift. rewrite Eb.
    unfold bind at 1. rewrite (backoff_sleep a _ w2 Eb).
    match goal with |- context [get_loop self u (S todo) ?a' ?le' ?w3] =>
      destruct (IH a' le' w3) as (w' & E3 & S3 & N3 & B3);
        [ exact Hu
        | apply steady_after_sleep; [exact W2|apply (backoff_value a); exact Eb]
        | apply always_fails_later with w; [cbn; congruence | exact Hf]
        | lia | lia | lia | ];
      rewrite E3
    end.
    cbn [sent network trace backoff_sleeps] in S3, N3, B3.
    exists w'. split; [|repeat split].
    + f_equal. f_equal. rewrite (failure_of_later w) by (cbn [network]; exact N2).
      cbn [sent]. f_equal. lia.
    + lia.
    + congruence.
    + rewrite B3, attempts_from_S, B2. cbn [map].
      rewrite <- app_assoc. reflexivity.
Qed.


(** Three retries: three requests, sleeps of 0.5 and 1 second. *)
Lemma get_three_attempts :
  let r := get (sample_client 3) (episode_url 1) (fresh_world dead_site) in
  fst r = Raise (RequestException 2)
  /\ sent (snd r) = 3%nat
  /\ backoff_sleeps (trace (snd r)) = [(1 # 2)%Q; 1%Q].
Proof. vm_compute. repeat split; reflexivity. Qed.

Lemma get_loop_overflow (self : HttpClient) (u : pystr) (todo : nat) :
  forall (a : Z) (le : option exn) (w : world),
    usable self -> steady w -> always_fails w u ->
    (1 <= a <= 1025)%Z -> (a + Z.of_nat todo = retries self + 1)%Z ->
    (1026 <= retries self)%Z ->
    exists w',
      get_loop self u todo a le w = (Raise OverflowError, w')
      /\ sent w' = (sent w + Z.to_nat (1026 - a))%nat.
Proof.
  induction todo as [|todo IH]; intros a le w Hu Hw Hf Ha Hn Hmin; [lia|].
  destruct (failed_attempt self u w Hu Hw Hf)
    as (reason & w1 & w2 & E1 & E2 & Ef & S2 & N2 & B2 & W2).
  rewrite get_loop_S. unfold bind at 1. rewrite E1.
  unfold bind at 1, attempt. rewrite E2. cbv beta match.
  replace (a =? retries self)%Z with false by (symmetry; apply Z.eqb_neq; lia).
  unfold bind at 1, lift.
  destruct (Z.eq_dec a 1025) as [->|Hlt].
  - rewrite backoff_overflows. exists w2. split; [reflexivity|].
    change (Z.to_nat (1026 - 1025)) with 1%nat. lia.
  - assert (Eb : backoff a = Return (backoff_seconds a))
      by (apply backoff_in_range; lia).
    rewrite Eb. unfold bind at 1. rewrite (backoff_sleep a _ w2 Eb).
    match goal with |- context [get_loop self u todo ?a' ?le' ?w3] =>
      destruct (IH a' le' w3) as (w' & E3 & S3);
        [ exact Hu
        | apply steady_after_sleep; [exact W2|apply (backoff_value a); exact Eb]
        | apply always_fails_later with w; [cbn; congruence | exact Hf]
        | lia | lia | lia | ];
      rewrite E3
    end.
    cbn [sent] in S3. exists w'. split; [reflexivity|]. lia.
Qed.

(** C1, at the inputs where it fails.  With a retry count of 1026 or
    more and a URL whose every fetch fails, [get] makes 1025 attempts: the
    back-off after the 1025th converts [2 ** 1024] to a double, which
    overflows, and [get] ends with [OverflowError] instead of the error
    of a last attempt.  The client is one that the libraries accept, so
    that the 1025 attempts are made. *)
Theorem get_overflows_after_1025_attempts
    (self : HttpClient) (u : pystr) (w : world) :
  usable self -> steady w ->
  (1026 <= retries self)%Z -> always_fails w u ->
  exists w',
    get self u w = (Raise OverflowError, w')
    /\ sent w' = (sent w + 1025)%nat.
Proof.
  intros Hu Hw Hn Hf. unfold get.
  destruct (get_loop_overflow self u (Z.to_nat (retries self)) 1 None w Hu Hw Hf)
    as (w' & Hg & Hs); try lia.
  exists w'. split; [exact Hg|]. rewrite Hs. reflexivity.
Qed.

Lemma get_overflows_after_1025_attempts_witness :
  exists w',
    get (sample_client 1026) (episode_url 1) (fresh_world dead_site)
    = (Raise OverflowError, w')
    /\ sent w' = (sent (fresh_world dead_site) + 1025)%nat.
Proof.
  apply (get_overflows_after_1025_attempts (sample_client 1026) (episode_url 1)
           (fresh_world dead_site)).
  - split; reflexivity.
  - split; [discriminate|]. intros n v. discriminate.
  - vm_compute. discriminate.
  - intros n. reflexivity.
Defined.

(** The same run, evaluated. *)
Lemma get_1026_evaluated :
  fst (get (sample_client 1026) (episode_url 1) (fresh_world dead_site))
  = Raise OverflowError
  /\ sent (snd (get (sample_client 1026) (episode_url 1) (fresh_world dead_site)))
     = 1025%nat.
Proof. split; vm_compute; reflexivity. Qed.

(** ** The run as a whole *)

Lemma bind_assoc {A B C} (c : M A) (f : A -> M B) (g : B -> M C) (w : world) :
  bind (bind c f) g w = bind c (fun a => bind (f a) g) w.
Proof.
  unfold bind. destruct (c w) as [[a|e] w1]; reflexivity.
Qed.

Lemma bind_ext {A B} (c : M A) (f g : A -> M B) (w : world) :
  (forall a w', f a w' = g a w') -> bind c f w = bind c g w.
Proof.
  intros H. unfold bind. destruct (c w) as [[a|e] w1]; auto.
Qed.

Lemma fetch_episodes_app args plan (l1 l2 : list pystr) :
  forall episodes w,
    fetch_episodes args plan (l1 ++ l2) episodes w
    = bind (fetch_episodes args plan l1 episodes)
           (fun episodes' => fetch_episodes args plan l2 episodes') w.
Proof.
  induction l1 as [|u l1 IH]; intros episodes w; cbn [app fetch_episodes].
  - reflexivity.
  - rewrite bind_assoc. apply bind_ext; intros ep w1.
    rewrite bind_assoc. apply bind_ext; intros [] w2.
    apply IH.
Qed.

Lemma extract_episode_raises client u ip ia t w e w' :
  get client u w = (Raise e, w') ->
  extract_episode client u ip ia t w = (Raise e, w').
Proof.
  intros H. unfold extract_episode, get_soup, bind. rewrite H. reflexivity.
Qed.

(** The episodes come out in the order of the URLs that are fetched. *)
Lemma fetch_episodes_urls (args : Args) (plan : Plan) (urls : list pystr) :
  forall episodes w out w',
    fetch_episodes args plan urls episodes w = (Return out, w') ->
    map url out = map url episodes ++ urls.
Proof.
  induction urls as [|u rest IH]; intros episodes w out w' H;
    cbn [fetch_episodes] in H.
  - injection H as <- _. rewrite app_nil_r. reflexivity.
  - unfold bind at 1 in H. unfold extract_episode, bind at 1 in H.
    destruct (get_soup (plan_client plan) u w) as [[s|e] w1]; [|discriminate].
    unfold ret in H. unfold bind at 1, print in H.
    apply IH in H. rewrite H, map_app. cbn [map episode_of_soup url].
    rewrite <- app_assoc. reflexivity.
Qed.

(** C3.  A run has resolved the identifier, read the index page and
    filtered the episode URLs; the episodes before the [k]-th have been
    fetched; fetching the [k]-th raises.  Then [main] ends with that
    exception in the state in which the fetch failed, the book assembler
    is not reached, and no directory and no file has been written since
    the start of the run. *)
Theorem fetch_failure_writes_nothing
    (rules : netloc_rules) (args : Args) (w w1 w2 w3 : world) (plan : Plan)
    (before after : list pystr) (u : pystr) (episodes : list Episode) (e : exn) :
  discover rules args w = (Return plan, w1) ->
  plan_filtered_urls plan = before ++ u :: after ->
  fetch_episodes args plan before [] w1 = (Return episodes, w2) ->
  get (plan_client plan) u w2 = (Raise e, w3) ->
  main rules args w = (Raise e, w3) /\ stored w3 = stored w.
Proof.
  intros Hd Hu Hf Hg. split.
  - unfold main, bind at 1. rewrite Hd. unfold bind at 1.
    rewrite Hu, fetch_episodes_app. unfold bind at 1. rewrite Hf.
    cbn [fetch_episodes]. unfold bind at 1.
    rewrite (extract_episode_raises _ _ _ _ _ _ _ _ Hg). reflexivity.
  - assert (Q1 : quiet w w1) by (eapply Quiet_discover; eauto).
    assert (Q2 : quiet w1 w2) by (eapply Quiet_fetch_episodes; eauto).
    assert (Q3 : quiet w2 w3) by (eapply Quiet_get; eauto).
    destruct (quiet_trans _ _ _ Q1 (quiet_trans _ _ _ Q2 Q3)) as [H _]. exact H.
Qed.

Lemma fetch_failure_writes_nothing_witness :
  main no_rules (sample_args None None) (fresh_world broken_site)
  = (Raise (RequestException 7),
     snd (main no_rules (sample_args None None) (fresh_world broken_site)))
  /\ stored (snd (main no_rules (sample_args None None) (fresh_world broken_site)))
     = stored (fresh_world broken_site).
Proof.
  apply (fetch_failure_writes_nothing no_rules (sample_args None None)
              (fresh_world broken_site)
              (snd (discover no_rules (sample_args None None) (fresh_world broken_site)))
              (snd (fetch_episodes (sample_args None None)
                      {| plan_ncode := str "n1234ab";
                         plan_client := sample_client 3;
                         plan_general_all_no := None;
                         plan_book_title := str "A Work";
                         plan_author := str "An Author";
                         plan_filtered_urls := map episode_url [1; 2; 3]%Z |}
                      [episode_url 1] []
                      (snd (discover no_rules (sample_args None None)
                              (fresh_world broken_site)))))
              (snd (main no_rules (sample_args None None) (fresh_world broken_site)))
              {| plan_ncode := str "n1234ab";
                 plan_client := sample_client 3;
                 plan_general_all_no := None;
                 plan_book_title := str "A Work";
                 plan_author := str "An Author";
                 plan_filtered_urls := map episode_url [1; 2; 3]%Z |}
              [episode_url 1] [episode_url 3] (episode_url 2)
              [{| index := 1; title := str "A Chapter"; url := episode_url 1;
                  html_body := str "text" |}]
              (RequestException 7)); vm_compute; reflexivity.
Defined.

(** ** The book assembler *)

Lemma add_chapters_spec (language : pystr) (episodes : list Episode)
    (its : list EpubItem) (t : list EpubHtml) (sp : list spine_entry) :
  add_chapters language episodes its t sp =
  (its ++ map (fun ep => Chapter (chapter_of language ep)) episodes,
   t ++ map (chapter_of language) episodes,
   sp ++ map (fun ep => SpineChapter (chapter_of language ep)) episodes).
Proof.
  revert its t sp; induction episodes as [|ep rest IH]; intros its t sp; simpl.
  - rewrite !app_nil_r. reflexivity.
  - rewrite IH, <- !app_assoc. reflexivity.
Qed.

Lemma build_book_toc ident title0 author episodes vertical language :
  toc (build_book ident title0 author episodes vertical language)
  = map (chapter_of language) episodes.
Proof. unfold build_book. rewrite add_chapters_spec. reflexivity. Qed.

Lemma build_book_spine ident title0 author episodes vertical language :
  spine (build_book ident title0 author episodes vertical language)
  = SpineNav :: map (fun ep => SpineChapter (chapter_of language ep)) episodes.
Proof. unfold build_book. rewrite add_chapters_spec. reflexivity. Qed.

(** C7.  For every episode sequence, [build_epub] writes a book whose
    reading order is the navigation document followed by one chapter per
    episode in input order, and whose table of contents lists the same
    chapters in the same order. *)
Theorem build_epub_reading_order
    (out_path : Path) (ident title0 author : pystr) (episodes : list Episode)
    (vertical : bool) (language : pystr) (w : world) :
  exists book,
    build_epub out_path ident title0 author episodes vertical language w
    = (Return tt,
       {| clock := clock w; network := network w; sent := sent w;
          trace := trace w; last_request := last_request w;
          dirs := parent out_path :: dirs w;
          files := (out_path, book) :: files w; console := console w |})
    /\ spine book
       = SpineNav :: map (fun ep => SpineChapter (chapter_of language ep)) episodes
    /\ toc book = map (chapter_of language) episodes
    /\ map SpineChapter (toc book) = tl (spine book).
Proof.
  exists (build_book ident title0 author episodes vertical language).
  rewrite build_book_spine, build_book_toc. repeat split.
  simpl. rewrite map_map. reflexivity.
Qed.

(** C10.  The file name of a chapter is [chap_], the index written with
    at least five digits, and [.xhtml]: the chapters of the book carry
    these names in input order, and two episodes get the same file name
    exactly when their indices are equal. *)
Theorem chapter_file_name_by_index
    (ident title0 author : pystr) (episodes : list Episode)
    (vertical : bool) (language : pystr) :
  map file_name (toc (build_book ident title0 author episodes vertical language))
  = map (fun ep => str "chap_" ++ format_05d (index ep) ++ str ".xhtml") episodes
  /\ forall e1 e2 : Episode,
       file_name (chapter_of language e1) = file_name (chapter_of language e2)
       <-> index e1 = index e2.
Proof.
  split.
  - rewrite build_book_toc, map_map. reflexivity.
  - intros e1 e2. unfold chapter_of; cbn [file_name]. split.
    + intros H. apply app_inv_head in H. apply app_inv_tail in H.
      apply format_05d_inj; assumption.
    + intros ->. reflexivity.
Qed.

(* ================================================================== *)
(** * Further properties *)

(** ** The retrying client, continued *)

(** One answered attempt of a usable client in a steady state: the
    throttle, then the request. *)
Lemma answered_attempt (self : HttpClient) (u : pystr) (w : world) (resp : response) :
  usable self -> steady w ->
  answered (network w (sent w) u) resp ->
  exists w1 w2,
    throttle self w = (Return tt, w1)
    /\ session_get (timeout self) u w1 = (Return resp, w2)
    /\ sent w2 = S (sent w) /\ network w2 = network w
    /\ backoff_sleeps (trace w2) = backoff_sleeps (trace w)
    /\ stored w2 = stored w.
Proof.
  intros [Ht Hd] Hw [Ho Hs].
  destruct (throttle_ok self w Hd Hw) as (w1 & E1 & S1 & N1 & B1 & W1).
  assert (Q1 : quiet w w1) by (eapply Quiet_throttle; eauto).
  exists w1. unfold session_get.
  replace (timeout self <=? 0)%Z with false by (symmetry; apply Z.leb_gt; exact Ht).
  rewrite N1, S1.
  destruct (network w (sent w) u) as [took o]. cbn [snd] in Ho. subst o.
  rewrite Hs. eexists. split; [exact E1|]. split; [reflexivity|].
  cbn [sent network trace backoff_sleeps]. repeat split; auto.
  unfold stored. cbn [dirs files]. apply Q1.
Qed.

Lemma get_loop_first_success (self : HttpClient) (u : pystr) (resp : response)
    (j : nat) :
  forall (todo : nat) (a : Z) (le : option exn) (w : world),
    usable self -> steady w ->
    (forall i, (i < j)%nat -> failing (network w (sent w + i) u) = true) ->
    answered (network w (sent w + j) u) resp ->
    (j < todo)%nat -> (1 <= a)%Z -> (a + Z.of_nat j <= retries self)%Z ->
    (a + Z.of_nat j <= 1025)%Z ->
    exists w',
      get_loop self u todo a le w = (Return resp, w')
      /\ sent w' = (sent w + S j)%nat
      /\ backoff_sleeps (trace w')
         = backoff_sleeps (trace w) ++ map backoff_seconds (attempts_from a j).
Proof.
  induction j as [|j IH]; intros todo a le w Hu Hw Hfail Hok Htodo Ha Hn Hmax;
    (destruct todo as [|todo]; [lia|]); rewrite get_loop_S.
  - rewrite Nat.add_0_r in Hok.
    destruct (answered_attempt self u w resp Hu Hw Hok)
      as (w1 & w2 & E1 & E2 & S2 & _ & B2 & _).
    unfold bind at 1. rewrite E1. unfold bind at 1, attempt. rewrite E2.
    exists w2. repeat split; auto; try lia.
    cbn. rewrite app_nil_r. exact B2.
  - assert (Hf0 : failing (network w (sent w) u) = true).
    { specialize (Hfail 0%nat). rewrite Nat.add_0_r in Hfail. apply Hfail. lia. }
    destruct Hu as [Ht Hd].
    destruct (throttle_ok self w Hd Hw) as (w1 & E1 & S1 & N1 & B1 & W1).
    destruct (session_get_spec (timeout self) u w1 Ht)
      as (r & w2 & E2 & S2 & N2 & B2 & Hr & _ & W2).
    rewrite N1, S1 in Hr. specialize (Hr Hf0). specialize (W2 W1).
    assert (Ef : exists reason, r = Raise (RequestException reason)).
    { subst r. unfold failure_of. destruct (snd _); eauto. }
    destruct Ef as [reason ->].
    unfold bind at 1. rewrite E1. unfold bind at 1, attempt. rewrite E2.
    cbv beta match.
    replace (a =? retries self)%Z with false by (symmetry; apply Z.eqb_neq; lia).
    assert (Eb : backoff a = Return (backoff_seconds a))
      by (apply backoff_in_range; lia).
    unfold bind at 1, lift. rewrite Eb.
    unfold bind at 1. rewrite (backoff_sleep a _ w2 Eb).
    match goal with |- context [get_loop self u todo ?a' ?le' ?w3] =>
      destruct (IH todo a' le' w3) as (w' & E3 & S3 & B3); try lia
    end.
    + split; assumption.
    + apply steady_after_sleep; [exact W2|apply (backoff_value a); exact Eb].
    + intros i Hi. cbn [network sent]. rewrite N2, N1, S2, S1.
      replace (S (sent w) + i)%nat with (sent w + S i)%nat by lia.
      apply Hfail. lia.
    + cbn [network sent]. rewrite N2, N1, S2, S1.
      replace (S (sent w) + j)%nat with (sent w + S j)%nat by lia. exact Hok.
    + rewrite E3. cbn [sent trace backoff_sleeps] in S3, B3.
      exists w'. repeat split; auto; try lia.
      rewrite B3, attempts_from_S, B2, B1. cbn [map].
      rewrite <- app_assoc. reflexivity.
Qed.




(** The exceptions of [get]: those of the transport, the overflow of the
    back-off or of the throttle's sleep, the refusal of the time-out, and
    the assertion after the loop. *)
Lemma get_loop_raises (self : HttpClient) (u : pystr) (todo : nat) :
  forall (a : Z) (le : option exn) (w w' : world) (e : exn),
    (forall x, le = Some x -> exists reason, x = RequestException reason) ->
    get_loop self u todo a le w = (Raise e, w') ->
    (exists reason, e = RequestException reason)
    \/ e = OverflowError \/ e = AssertionError
    \/ e = invalid_timeout (timeout self).
Proof.
  induction todo as [|todo IH]; intros a le w w' e Hle H.
  - cbn [get_loop] in H. destruct le as [x|]; cbn in H; injection H as <- _; auto.
  - rewrite get_loop_S in H. unfold bind at 1 in H.
    destruct (throttle_frame self w) as (r1 & w1 & E1 & _ & _ & _ & Hr1).
    rewrite E1 in H. destruct Hr1 as [->|[-> _]]; [|injection H as <- _; auto].
    unfold bind at 1, attempt in H.
    destruct (session_get_frame (timeout self) u w1)
      as (r & w2 & E2 & _ & _ & _ & Hr).
    rewrite E2 in H. destruct r as [resp|x]; [discriminate H|].
    destruct (Hr x eq_refl) as [[reason ->]|[-> _]].
    2:{ unfold invalid_timeout in H. injection H as <- _. auto. }
    cbv beta match in H.
    destruct (a =? retries self)%Z.
    + cbn in H. injection H as <- _. eauto.
    + unfold bind at 1, lift in H. destruct (backoff a) as [b|x] eqn:Eb.
      * unfold bind at 1 in H. rewrite (backoff_sleep a b w2 Eb) in H.
        eapply IH; [|exact H].
        intros x [= <-]. eauto.
      * injection H as <- _. apply backoff_raises in Eb. auto.
Qed.

(** X2.  [fetch_general_all_no] never raises: whatever the client, the
    identifier and the state of the network, it returns [None] or an
    integer (a boolean included), and it writes nothing. *)
Theorem fetch_general_all_no_never_raises
    (client : HttpClient) (ncode : pystr) (w : world) :
  exists v w',
    fetch_general_all_no client ncode w = (Return v, w')
    /\ stored w' = stored w
    /\ (v = None \/ (exists z, v = Some (JInt z)) \/ (exists b, v = Some (JBool b))).
Proof.
  destruct (fetch_general_all_no client ncode w) as [r w'] eqn:E.
  assert (Hq : quiet w w') by (eapply Quiet_fetch_general_all_no; eauto).
  unfold fetch_general_all_no, bind, attempt in E.
  destruct (get client _ w) as [[resp|e] w1] eqn:G.
  - destruct (json_of resp) as [data|]; injection E as <- <-.
    + eexists _, _. split; [reflexivity|]. split; [apply Hq|].
      unfold general_all_no_of.
      destruct data as [| | | | |l|]; auto.
      destruct l as [|x [|record l]]; auto.
      destruct record as [| | | | | |d]; auto.
      destruct (dict_get _ d) as [[| | | | | |]|]; eauto.
    + eexists _, _. split; [reflexivity|]. split; [apply Hq|]. auto.
  - apply get_loop_raises in G; [|discriminate].
    destruct G as [[reason ->]|[->|[->| ->]]]; injection E as <- <-;
      eexists _, _; (split; [reflexivity|]); (split; [apply Hq|]); auto.
Qed.



(** ** The exceptions of the pure functions *)

Lemma rbind_raises {A B} (r : result A) (f : A -> result B) (e : exn) :
  rbind r f = Raise e -> r = Raise e \/ exists a, r = Return a /\ f a = Raise e.
Proof.
  destruct r as [a|x]; cbn; intros H; [right; eauto|].
  left. injection H as <-. reflexivity.
Qed.

Lemma check_brackets_raises (rules : netloc_rules) (nl : pystr) (e : exn) :
  check_brackets rules nl = Raise e -> is_value_error e = true.
Proof.
  unfold check_brackets. destruct (xorb _ _); [intros [= <-]; reflexivity|].
  destruct (_ && _); [intros [= <-]; reflexivity|discriminate].
Qed.

Lemma checknetloc_raises (rules : netloc_rules) (nl : pystr) (e : exn) :
  checknetloc rules nl = Raise e -> is_value_error e = true.
Proof.
  unfold checknetloc. destruct (is_ascii_str nl); [discriminate|].
  destruct (nfkc_netloc_ok rules nl); [discriminate|intros [= <-]; reflexivity].
Qed.

Lemma urlsplit_raises (rules : netloc_rules) (u d : pystr) (e : exn) :
  urlsplit rules u d = Raise e -> is_value_error e = true.
Proof.
  assert (Htail : forall sch url : pystr,
    rbind
      match url with
      | 47 :: 47 :: rest =>
          let '(nl, url') := splitnetloc rest in
          rbind (check_brackets rules nl) (fun _ : unit => Return (nl, url'))
      | _ => Return ([], url)
      end
      (fun '(nl, url0) =>
         let '(url1, frag) :=
           match split_once (ch "#") url0 with
           | (a, Some b) => (a, b)
           | (a, None) => (a, [])
           end in
         let '(url2, qry) :=
           match split_once (ch "?") url1 with
           | (a, Some b) => (a, b)
           | (a, None) => (a, [])
           end in
         rbind (checknetloc rules nl) (fun _ : unit =>
         Return {| scheme := sch; netloc := nl; path := url2; params := [];
                   query := qry; fragment := frag |}))
    = Raise e -> is_value_error e = true).
  { intros sch url H. apply rbind_raises in H.
    destruct H as [H|([nl rest'] & _ & H)].
    - destruct url as [|c1 [|c2 rest]]; try discriminate H;
        (destruct c1 as [|p]; try discriminate H;
         repeat (destruct p as [p|p|]; try discriminate H));
        (destruct c2 as [|p]; try discriminate H;
         repeat (destruct p as [p|p|]; try discriminate H)).
      destruct (splitnetloc rest) as [nl url']. apply rbind_raises in H.
      destruct H as [H|(? & _ & H)]; [|discriminate H].
      eapply check_brackets_raises; eauto.
    - destruct (split_once (ch "#") rest') as [a1 [b1|]];
        destruct (split_once (ch "?") a1) as [a2 [b2|]];
        apply rbind_raises in H; destruct H as [H|(? & _ & H)];
        try discriminate H; eapply checknetloc_raises; eauto. }
  unfold urlsplit. destruct (split_scheme _) as [[sch rest]|]; apply Htail.
Qed.

Lemma urlparse_with_raises (rules : netloc_rules) (u d : pystr) (e : exn) :
  urlparse_with rules u d = Raise e -> is_value_error e = true.
Proof.
  unfold urlparse_with. intros H. apply rbind_raises in H.
  destruct H as [H|(p & _ & H)]; [eapply urlsplit_raises; eauto|].
  destruct (_ && _); [|discriminate H].
  destruct (splitparams (path p)); discriminate H.
Qed.

Lemma urljoin_raises (rules : netloc_rules) (b u : pystr) (e : exn) :
  urljoin rules b u = Raise e -> is_value_error e = true.
Proof.
  unfold urljoin. destruct (negb (nonempty b)); [discriminate|].
  destruct (negb (nonempty u)); [discriminate|].
  intros H. apply rbind_raises in H.
  destruct H as [H|(pb & _ & H)]; [eapply urlparse_with_raises; eauto|].
  apply rbind_raises in H.
  destruct H as [H|(pu & _ & H)]; [eapply urlparse_with_raises; eauto|].
  repeat match type of H with
  | (if ?c then _ else _) = _ => destruct c
  end; discriminate H.
Qed.

(** [extract_ncode] raises nothing but [ValueError]. *)
Lemma extract_ncode_raises (rules : netloc_rules) (s : pystr) (e : exn) :
  extract_ncode rules s = Raise e -> is_value_error e = true.
Proof.
  unfold extract_ncode. destruct (re_fullmatch _ _ _); [discriminate|].
  intros H. apply rbind_raises in H.
  destruct H as [H|(p & _ & H)]; [eapply urlparse_with_raises; eauto|].
  destruct (re_search _ _ _); [discriminate H|]. injection H as <-. reflexivity.
Qed.

Lemma scan_anchors_raises (rules : netloc_rules) (ncode base : pystr)
    (hrefs : list pystr) :
  forall urls seen e,
    scan_anchors rules ncode base hrefs urls seen = Raise e ->
    is_value_error e = true.
Proof.
  induction hrefs as [|a rest IH]; intros urls seen e H; cbn [scan_anchors] in H.
  - discriminate H.
  - apply rbind_raises in H. destruct H as [H|(p & _ & H)].
    + destruct (contains _ _); [|discriminate H].
      apply rbind_raises in H. destruct H as [H|(? & _ & H)]; [|discriminate H].
      eapply urlparse_with_raises; eauto.
    + destruct (re_match true EP_PATH_RE p); [|eapply IH; eauto].
      destruct (negb _); [eapply IH; eauto|].
      apply rbind_raises in H. destruct H as [H|(abs_url & _ & H)].
      * eapply urljoin_raises; eauto.
      * destruct (str_in abs_url seen); eapply IH; eauto.
Qed.

(** [parse_episode_urls] raises nothing but [ValueError]. *)
Lemma parse_episode_urls_raises (rules : netloc_rules) (s : Soup)
    (ncode base : pystr) (e : exn) :
  parse_episode_urls rules s ncode base = Raise e -> is_value_error e = true.
Proof.
  unfold parse_episode_urls. intros H. apply rbind_raises in H.
  destruct H as [H|(? & _ & H)]; [|discriminate H].
  eapply scan_anchors_raises; eauto.
Qed.
(** ** The run as a whole, continued *)

Lemma get_loop_sends_at_most (self : HttpClient) (u : pystr) (todo : nat) :
  forall (a : Z) (le : option exn) (w : world) (r : result response) (w' : world),
    get_loop self u todo a le w = (r, w') ->
    (sent w' <= sent w + todo)%nat.
Proof.
  induction todo as [|todo IH]; intros a le w r w' H.
  - cbn [get_loop] in H. destruct le; cbn in H; injection H as _ <-; lia.
  - rewrite get_loop_S in H. unfold bind at 1 in H.
    destruct (throttle_frame self w) as (r1 & w1 & E1 & S1 & _ & _ & Hr1).
    rewrite E1 in H. destruct Hr1 as [->|[-> _]]; [|injection H as _ <-; lia].
    unfold bind at 1, attempt in H.
    destruct (session_get_frame (timeout self) u w1)
      as (r2 & w2 & E2 & S2 & _ & _ & Hr).
    rewrite E2 in H. destruct r2 as [resp|x].
    + injection H as _ <-. lia.
    + destruct (Hr x eq_refl) as [[reason ->]|[-> _]].
      2:{ unfold invalid_timeout in H. injection H as _ <-. lia. }
      cbv beta match in H.
      destruct (a =? retries self)%Z.
      * cbn in H. injection H as _ <-. lia.
      * unfold bind at 1, lift in H. destruct (backoff a) as [b|x] eqn:Eb.
        -- unfold bind at 1 in H. rewrite (backoff_sleep a b w2 Eb) in H.
           apply IH in H. cbn [sent] in H. lia.
        -- injection H as _ <-. lia.
Qed.

(** X5.  Whatever the network does, one call of [get] issues at most
    [retries] requests, and it leaves the file system alone. *)
Theorem get_sends_at_most_retries
    (self : HttpClient) (u : pystr) (w w' : world) (r : result response) :
  get self u w = (r, w') ->
  (sent w <= sent w' <= sent w + Z.to_nat (retries self))%nat
  /\ stored w' = stored w.
Proof.
  intros H. pose proof (Quiet_get self u w r w' H) as (Hs & _ & Hle).
  unfold get in H. apply get_loop_sends_at_most in H. auto.
Qed.

Lemma get_sends_at_most_retries_witness :
  (sent (fresh_world flaky_site)
   <= sent (snd (get (sample_client 5) (episode_url 1) (fresh_world flaky_site)))
   <= sent (fresh_world flaky_site) + Z.to_nat (retries (sample_client 5)))%nat
  /\ stored (snd (get (sample_client 5) (episode_url 1) (fresh_world flaky_site)))
     = stored (fresh_world flaky_site).
Proof.
  apply (get_sends_at_most_retries (sample_client 5) (episode_url 1)
           (fresh_world flaky_site) _
           (fst (get (sample_client 5) (episode_url 1) (fresh_world flaky_site)))).
  vm_compute. reflexivity.
Defined.

Lemma get_raises (self : HttpClient) (u : pystr) (w w' : world) (e : exn) :
  get self u w = (Raise e, w') -> is_system_exit e = false.
Proof.
  intros H. apply get_loop_raises in H; [|discriminate].
  destruct H as [[reason ->]|[->|[->| ->]]]; reflexivity.
Qed.

Lemma value_error_is_no_exit (e : exn) :
  is_value_error e = true -> is_system_exit e = false.
Proof. destruct e; auto; discriminate. Qed.

Lemma get_soup_raises (self : HttpClient) (u : pystr) (w w' : world) (e : exn) :
  get_soup self u w = (Raise e, w') -> is_system_exit e = false.
Proof.
  unfold get_soup, bind. destruct (get self u w) as [[resp|x] w1] eqn:G.
  - discriminate.
  - intros [= <- <-]. eapply get_raises; eauto.
Qed.

(** What a run knows after discovery. *)
Lemma discover_returns (rules : netloc_rules) (args : Args) (w w1 : world)
    (plan : Plan) :
  discover rules args w = (Return plan, w1) ->
  extract_ncode rules (arg_url args) = Return (plan_ncode plan)
  /\ exists urls,
       urls <> []
       /\ plan_filtered_urls plan
          = filter_urls (plan_ncode plan) (arg_from_ep args) (arg_to_ep args) urls.
Proof.
  unfold discover. unfold bind at 1, lift.
  destruct (extract_ncode rules (arg_url args)) as [ncode|x]; [|discriminate].
  unfold bind at 1, HttpClient_init. unfold bind at 1, set_last_request, ret.
  unfold bind at 1.
  destruct (fetch_general_all_no _ ncode _) as [[ga|x] w2]; [|discriminate].
  unfold bind at 1. destruct (get_soup _ _ w2) as [[s|x] w3]; [|discriminate].
  unfold bind at 1, lift.
  destruct (parse_episode_urls rules s ncode base_url) as [urls|x]; [|discriminate].
  intros [= <- <-]. cbn [plan_ncode plan_filtered_urls]. split; [reflexivity|].
  destruct urls as [|u urls]; cbn [nonempty_list]; eexists; (split; [|reflexivity]);
    discriminate.
Qed.

Lemma fetch_general_all_no_returns (client : HttpClient) (ncode : pystr) (w : world) :
  exists v w', fetch_general_all_no client ncode w = (Return v, w').
Proof.
  unfold fetch_general_all_no, bind, attempt, ret.
  destruct (get client _ w) as [[resp|e] w1] eqn:G.
  - destruct (json_of resp); eauto.
  - apply get_loop_raises in G; [|discriminate].
    destruct G as [[reason ->]|[->|[->| ->]]]; unfold invalid_timeout; eauto.
Qed.

Lemma discover_raises (rules : netloc_rules) (args : Args) (w w' : world) (e : exn) :
  discover rules args w = (Raise e, w') -> is_system_exit e = false.
Proof.
  unfold discover. unfold bind at 1, lift.
  destruct (extract_ncode rules (arg_url args)) as [ncode|x] eqn:En.
  2:{ intros [= <- <-]. apply value_error_is_no_exit.
      eapply extract_ncode_raises; eauto. }
  unfold bind at 1, HttpClient_init. unfold bind at 1, set_last_request, ret.
  unfold bind at 1.
  match goal with |- context [fetch_general_all_no ?c ncode ?w0] =>
    destruct (fetch_general_all_no_returns c ncode w0) as (v & w2 & ->)
  end.
  unfold bind at 1. destruct (get_soup _ _ w2) as [[s|x] w3] eqn:Es.
  2:{ intros [= <- <-]. eapply get_soup_raises; eauto. }
  unfold bind at 1, lift.
  destruct (parse_episode_urls rules s ncode base_url) as [urls|x] eqn:Ep.
  - discriminate.
  - intros [= <- <-]. apply value_error_is_no_exit.
    eapply parse_episode_urls_raises; eauto.
Qed.

Lemma fetch_episodes_raises (args : Args) (plan : Plan) (urls : list pystr) :
  forall episodes w w' e,
    fetch_episodes args plan urls episodes w = (Raise e, w') ->
    is_system_exit e = false.
Proof.
  induction urls as [|u rest IH]; intros episodes w w' e H; cbn [fetch_episodes] in H.
  - discriminate.
  - unfold bind at 1 in H. unfold extract_episode, bind at 1 in H.
    destruct (get_soup (plan_client plan) u w) as [[s|x] w1] eqn:Es.
    + unfold ret in H. unfold bind at 1, print in H. eapply IH; eauto.
    + injection H as <- <-. eapply get_soup_raises; eauto.
Qed.

Lemma fetch_episodes_length (args : Args) (plan : Plan) (urls : list pystr) :
  forall episodes w out w',
    fetch_episodes args plan urls episodes w = (Return out, w') ->
    List.length out = (List.length episodes + List.length urls)%nat.
Proof.
  intros episodes w out w' H. apply fetch_episodes_urls in H.
  apply (f_equal (@List.length pystr)) in H.
  rewrite length_app, !length_map in H. exact H.
Qed.

(** The book assembler, once reached, does not raise. *)
Lemma assemble_spec (args : Args) (plan : Plan) (episodes : list Episode) (w : world) :
  (episodes = []
   /\ assemble args plan episodes w
      = (Raise (SystemExit (str "No episodes matched the requested range.")), w))
  \/ (episodes <> []
      /\ exists w',
           assemble args plan episodes w = (Return tt, w')
           /\ trace w' = trace w /\ sent w' = sent w
           /\ dirs w' = arg_out args :: dirs w
           /\ files w'
              = ({| parent := arg_out args; name := plan_ncode plan ++ str ".epub" |},
                 build_book (str "narou:" ++ plan_ncode plan) (plan_book_title plan)
                   (plan_author plan) episodes (arg_vertical args) (str "ja"))
                :: files w).
Proof.
  unfold assemble. destruct episodes as [|ep rest]; cbn [nonempty_list negb].
  - left. split; reflexivity.
  - right. split; [discriminate|].
    unfold build_epub, bind, mkdir, write_epub, print, ret.
    destruct (truthy (plan_general_all_no plan));
      eexists; repeat split; reflexivity.
Qed.

(** X6.  A failure before the book assembler leaves the file system
    untouched: if the resolution of the identifier, the API request, the
    index page or the discovery raises, or the fetch of an episode
    raises, or no episode was fetched, [main] ends with that exception,
    in the state of the failure, and no directory has been made and no
    file written since the start of the run. *)
Theorem failure_before_assembly_writes_nothing
    (rules : netloc_rules) (args : Args) (w w' : world) (e : exn) :
  fails_before_assembly rules args w e w' ->
  main rules args w = (Raise e, w') /\ stored w' = stored w.
Proof.
  intros [Hd|(plan & w1 & Hd & Hf)]; unfold main; unfold bind at 1; rewrite Hd.
  - split; [reflexivity|]. eapply Quiet_discover; eauto.
  - pose proof (Quiet_discover rules args w _ _ Hd) as Q1.
    unfold bind at 1. destruct Hf as [Hf|[Hf ->]]; rewrite Hf.
    + pose proof (Quiet_fetch_episodes args plan _ [] w1 _ _ Hf) as Q2.
      split; [reflexivity|]. apply (quiet_trans _ _ _ Q1 Q2).
    + pose proof (Quiet_fetch_episodes args plan _ [] w1 _ _ Hf) as Q2.
      split; [reflexivity|]. apply (quiet_trans _ _ _ Q1 Q2).
Qed.

Lemma failure_before_assembly_writes_nothing_witness :
  main no_rules (sample_args None None) (fresh_world dead_site)
  = (Raise (RequestException 5),
     snd (discover no_rules (sample_args None None) (fresh_world dead_site)))
  /\ stored (snd (discover no_rules (sample_args None None) (fresh_world dead_site)))
     = stored (fresh_world dead_site).
Proof.
  apply (failure_before_assembly_writes_nothing no_rules (sample_args None None)
           (fresh_world dead_site)).
  left. vm_compute. reflexivity.
Defined.

Lemma filter_urls_unbounded (ncode : pystr) (urls : list pystr) :
  filter_urls ncode None None urls = urls.
Proof.
  unfold filter_urls. induction urls as [|u urls IH]; cbn; [reflexivity|].
  f_equal. exact IH.
Qed.

(** X7.  Once the arguments are parsed, [main] ends with [SystemExit] in
    one situation only: a bound was given, the range filter kept no URL,
    and no episode page was requested.  Without [--from-ep] and
    [--to-ep] a run never ends with [SystemExit], since a work without
    episode links is fetched as the one page of its index. *)
Theorem main_exit_means_empty_range
    (rules : netloc_rules) (args : Args) (w w' : world) (msg : pystr) :
  main rules args w = (Raise (SystemExit msg), w') ->
  msg = str "No episodes matched the requested range."
  /\ (arg_from_ep args <> None \/ arg_to_ep args <> None)
  /\ exists plan,
       discover rules args w = (Return plan, w')
       /\ plan_filtered_urls plan = [].
Proof.
  unfold main. unfold bind at 1.
  destruct (discover rules args w) as [[plan|x] w1] eqn:Ed.
  2:{ intros [= -> _]. apply discover_raises in Ed. discriminate. }
  unfold bind at 1.
  destruct (fetch_episodes args plan (plan_filtered_urls plan) [] w1)
    as [[episodes|x] w2] eqn:Ef.
  2:{ intros [= -> _]. apply fetch_episodes_raises in Ef. discriminate. }
  destruct (assemble_spec args plan episodes w2) as [[-> ->]|(_ & w3 & -> & _)];
    [|discriminate].
  intros [= <- <-].
  pose proof (fetch_episodes_length _ _ _ _ _ _ _ Ef) as Hlen.
  cbn [List.length] in Hlen.
  destruct (plan_filtered_urls plan) as [|u rest] eqn:Eu; [|discriminate Hlen].
  cbn [fetch_episodes] in Ef. injection Ef as <-.
  split; [reflexivity|]. split; [|exists plan; auto].
  destruct (discover_returns _ _ _ _ _ Ed) as (_ & urls & Hne & Hf).
  destruct (arg_from_ep args); [left; discriminate|].
  destruct (arg_to_ep args); [right; discriminate|].
  exfalso. rewrite filter_urls_unbounded in Hf. congruence.
Qed.

Lemma main_exit_means_empty_range_witness :
  str "No episodes matched the requested range."
  = str "No episodes matched the requested range."
  /\ (arg_from_ep (sample_args (Some 5%Z) None) <> None
      \/ arg_to_ep (sample_args (Some 5%Z) None) <> None)
  /\ exists plan,
       discover no_rules (sample_args (Some 5%Z) None) (fresh_world healthy_site)
       = (Return plan,
          snd (main no_rules (sample_args (Some 5%Z) None) (fresh_world healthy_site)))
       /\ plan_filtered_urls plan = [].
Proof.
  apply (main_exit_means_empty_range no_rules (sample_args (Some 5%Z) None)
           (fresh_world healthy_site)).
  vm_compute. reflexivity.
Defined.

Lemma fetch_episodes_each (args : Args) (plan : Plan) (urls : list pystr) :
  forall episodes w out w',
    fetch_episodes args plan urls episodes w = (Return out, w') ->
    exists fetched,
      out = episodes ++ fetched /\ Forall2 (fetched_as args plan) urls fetched.
Proof.
  induction urls as [|u rest IH]; intros episodes w out w' H;
    cbn [fetch_episodes] in H.
  - injection H as <- _. exists []. rewrite app_nil_r. split; [reflexivity|constructor].
  - unfold bind at 1 in H. unfold extract_episode, bind at 1 in H.
    unfold get_soup, bind at 1 in H.
    destruct (get (plan_client plan) u w) as [[resp|e] w1] eqn:G; [|discriminate H].
    unfold ret in H. unfold bind at 1, print in H.
    apply IH in H. destruct H as (fetched & -> & Hall).
    eexists (_ :: fetched). rewrite <- app_assoc. split; [reflexivity|].
    constructor; [|exact Hall]. exists resp, w, w1. split; [exact G|reflexivity].
Qed.



(** ** Identifier resolution, continued *)

(** The search for [NCODE_RE] in a text that ends with a slash: what is
    found is a leftmost occurrence of a code, and nothing is found only
    when no code occurs. *)
Lemma ncode_search_some (p : pystr) (cs : caps) :
  re_search true NCODE_RE (p ++ [47]) = Some cs ->
  exists before code after,
    occurs_at (p ++ [47]) before code after /\ leftmost (p ++ [47]) before
    /\ group 1 cs = code.
Proof.
  intros Hs. apply search_some in Hs.
  destruct Hs as (skipped & t & Hst & Hrun & Hmin).
  apply run_some in Hrun. destruct Hrun as (pre & rest & cs' & -> & M & Hacc).
  injection Hacc as <-.
  destruct (ncode_match_occurs _ _ _ _ _ _ Hst M) as (code & Ho & ->).
  exists skipped, code, rest. split; [exact Ho|]. split; [|reflexivity].
  intros b c a (Hb' & Hshape).
  destruct (Nat.lt_ge_cases (List.length b) (List.length skipped)) as [Hlt|]; auto.
  exfalso.
  pose proof (Hmin b (47 :: c ++ 47 :: a) Hb' Hlt) as Hr.
  pose proof (run_none true NCODE_RE _ _ _ _ Hr (47 :: c ++ [47]) a
                [(1%nat, c)]) as Hk.
  cbn [app] in Hk. rewrite <- app_assoc in Hk.
  specialize (Hk eq_refl (occurrence_matches _ c a Hshape)).
  discriminate.
Qed.

Lemma ncode_search_none (text : pystr) :
  re_search true NCODE_RE text = None ->
  forall before code after, ~ occurs_at text before code after.
Proof.
  intros Hs before code after (Ho & Hshape).
  pose proof (search_none true NCODE_RE text 0 Hs before
                (47 :: code ++ 47 :: after) Ho) as Hr.
  pose proof (run_none true NCODE_RE _ _ _ _ Hr (47 :: code ++ [47]) after
                [(1%nat, code)]) as Hk.
  cbn [app] in Hk. rewrite <- app_assoc in Hk.
  specialize (Hk eq_refl (occurrence_matches _ code after Hshape)).
  discriminate.
Qed.

(** X9.  Whatever the input, [extract_ncode] either raises [ValueError]
    or returns the lower-cased form of a text that has the shape of a
    code; and unless that text contains U+0130, the result has the shape
    of a code itself and resolves to itself. *)
Theorem extract_ncode_gives_a_code (rules : netloc_rules) (s : pystr) :
  (exists code,
     code_shape code
     /\ extract_ncode rules s = Return (lower code)
     /\ (~ In 304 code ->
         code_shape (lower code)
         /\ extract_ncode rules (lower code) = Return (lower code)))
  \/ (exists e, extract_ncode rules s = Raise e /\ is_value_error e = true).
Proof.
  assert (Hfix : forall code, code_shape code -> ~ In 304 code ->
            code_shape (lower code)
            /\ extract_ncode rules (lower code) = Return (lower code)).
  { intros code Hshape Hno. destruct (lower_code code Hshape Hno) as [Hl Hid].
    split; [exact Hl|]. rewrite (extract_ncode_bare rules _ Hl), Hid. reflexivity. }
  unfold extract_ncode.
  destruct (re_fullmatch true NCODE_BODY (strip s)) as [m|] eqn:Eb.
  - left. exists (strip s).
    assert (Hshape : code_shape (strip s)) by (apply bare_shape; congruence).
    split; [exact Hshape|]. split; [reflexivity|]. apply Hfix; exact Hshape.
  - destruct (urlparse rules (strip s)) as [parsed|e] eqn:Ep; cbn [rbind].
    + change (str "/") with [47].
      destruct (re_search true NCODE_RE _) as [m|] eqn:Es.
      * left. apply ncode_search_some in Es.
        destruct Es as (before & code & after & [_ Hshape] & _ & ->).
        exists code. split; [exact Hshape|]. split; [reflexivity|].
        apply Hfix; exact Hshape.
      * right. eexists. split; reflexivity.
    + right. exists e. split; [reflexivity|].
      eapply urlparse_with_raises; exact Ep.
Qed.

(** The characters that the URL parser treats specially do not occur in a
    code. *)
Lemma code_has_none_of (k : char) (code : pystr) :
  In k [9; 10; 13; 35; 47; 59; 63] -> code_shape code -> ~ In k code.
Proof.
  intros Hk (c & ds & ls & -> & Hc & Hds & _ & Hls & _) Hin.
  assert (Hno : is_n k = false /\ is_decimal k = false /\ is_letter k = false).
  { cbn [In] in Hk. decompose [or] Hk; try contradiction; subst k;
      vm_compute; auto. }
  destruct Hno as (N1 & N2 & N3).
  destruct Hin as [E|Hin]; [subst c; congruence|].
  apply in_app_or in Hin. rewrite forallb_forall in Hds, Hls.
  destruct Hin as [Hin|Hin]; [apply Hds in Hin|apply Hls in Hin]; congruence.
Qed.

Lemma split_once_absent (c : char) (s : pystr) :
  ~ In c s -> split_once c s = (s, None).
Proof.
  induction s as [|x s IH]; intros Hno; cbn [split_once]; [reflexivity|].
  destruct (N.eqb_spec x c) as [E|_].
  - exfalso. apply Hno. left. exact E.
  - rewrite IH; [reflexivity|]. intros Hin. apply Hno. right. exact Hin.
Qed.

Lemma has_absent (c : char) (s : pystr) : ~ In c s -> has c s = false.
Proof.
  intros Hno. unfold has. destruct (existsb (N.eqb c) s) eqn:E; [|reflexivity].
  apply existsb_exists in E. destruct E as (x & Hin & Hx).
  apply N.eqb_eq in Hx. subst x. contradiction.
Qed.

Lemma filter_all {A} (f : A -> bool) (l : list A) :
  (forall x, In x l -> f x = true) -> filter f l = l.
Proof.
  induction l as [|x l IH]; intros H; cbn [filter]; [reflexivity|].
  rewrite (H x (or_introl eq_refl)), IH; [reflexivity|].
  intros y Hy. apply H. right. exact Hy.
Qed.

(** The URL parser on the index URL of a code. *)
Lemma urlparse_index_url (rules : netloc_rules) (c : pystr) :
  code_shape c ->
  urlparse rules (normalize_index_url c)
  = Return {| scheme := str "https"; netloc := str "ncode.syosetu.com";
              path := 47 :: c ++ [47]; params := []; query := [];
              fragment := [] |}.
Proof.
  intros Hshape.
  assert (Hno : forall k, In k [9; 10; 13; 35; 59; 63] -> ~ In k (47 :: c ++ [47])).
  { intros k Hk [E|Hin].
    - subst k. cbn [In] in Hk. decompose [or] Hk; try contradiction; discriminate.
    - apply in_app_or in Hin. destruct Hin as [Hin|[E|[]]].
      + revert Hin. apply code_has_none_of; auto.
        cbn [In] in *. intuition auto.
      + subst k. cbn [In] in Hk. decompose [or] Hk; try contradiction; discriminate. }
  unfold urlparse, urlparse_with, urlsplit, normalize_index_url.
  change (str "/") with [47].
  change (str "https://ncode.syosetu.com/" ++ c ++ [47])
    with (str "https://ncode.syosetu.com" ++ 47 :: c ++ [47]).
  set (tail := 47 :: c ++ [47]) in *.
  assert (Hsafe : filter (fun x => negb (unsafe_url_char x))
                    (dropwhile c0_control_or_space
                       (str "https://ncode.syosetu.com" ++ tail))
                  = str "https://ncode.syosetu.com" ++ tail).
  { change (dropwhile c0_control_or_space (str "https://ncode.syosetu.com" ++ tail))
      with (str "https://ncode.syosetu.com" ++ tail).
    rewrite filter_app. f_equal. apply filter_all. intros x Hx.
    unfold unsafe_url_char.
    destruct (N.eqb_spec x 9) as [->|_];
      [exfalso; apply (Hno 9); cbn; auto|].
    destruct (N.eqb_spec x 13) as [->|_];
      [exfalso; apply (Hno 13); cbn; auto|].
    destruct (N.eqb_spec x 10) as [->|_];
      [exfalso; apply (Hno 10); cbn; auto|].
    reflexivity. }
  rewrite Hsafe.
  change (split_scheme (str "https://ncode.syosetu.com" ++ tail))
    with (Some (str "https", str "//ncode.syosetu.com" ++ tail)).
  cbv beta iota.
  change (str "//ncode.syosetu.com" ++ tail)
    with (47 :: 47 :: str "ncode.syosetu.com" ++ tail).
  cbv beta iota.
  change (splitnetloc (str "ncode.syosetu.com" ++ tail))
    with (str "ncode.syosetu.com", tail).
  cbv beta iota.
  change (check_brackets rules (str "ncode.syosetu.com")) with (Return tt).
  cbn [rbind].
  rewrite (split_once_absent (ch "#") tail) by (apply Hno; cbn; auto 10).
  rewrite (split_once_absent (ch "?") tail) by (apply Hno; cbn; auto 10).
  change (checknetloc rules (str "ncode.syosetu.com")) with (Return tt).
  cbn [rbind scheme path].
  rewrite (has_absent (ch ";") tail) by (apply Hno; cbn; auto 10).
  rewrite andb_false_r. reflexivity.
Qed.

(** X10.  The index URL that [main] builds from a code resolves back to
    that code: for every text that has the shape of a code,
    [extract_ncode] of its index URL is its lower-cased form. *)
Theorem index_url_resolves_back (rules : netloc_rules) (c : pystr) :
  code_shape c ->
  extract_ncode rules (normalize_index_url c) = Return (lower c).
Proof.
  intros Hshape.
  assert (Hstrip : strip (normalize_index_url c) = normalize_index_url c).
  { unfold strip, lstrip, rstrip, normalize_index_url.
    change (dropwhile is_space (str "https://ncode.syosetu.com/" ++ c ++ str "/"))
      with (str "https://ncode.syosetu.com/" ++ c ++ str "/").
    rewrite app_assoc, rev_app_distr.
    change (List.rev (str "/")) with [47]. cbn [app].
    change (dropwhile is_space (47 :: List.rev (str "https://ncode.syosetu.com/" ++ c)))
      with (47 :: List.rev (str "https://ncode.syosetu.com/" ++ c)).
    change (47 :: List.rev (str "https://ncode.syosetu.com/" ++ c))
      with (List.rev [47] ++ List.rev (str "https://ncode.syosetu.com/" ++ c)).
    rewrite <- rev_app_distr, rev_involutive. reflexivity. }
  unfold extract_ncode. rewrite Hstrip.
  destruct (re_fullmatch true NCODE_BODY (normalize_index_url c)) as [m|] eqn:Eb.
  { exfalso. assert (Hs : code_shape (normalize_index_url c))
      by (apply bare_shape; congruence).
    apply code_has_no_slash in Hs. apply Hs.
    unfold normalize_index_url. apply in_or_app. left. vm_compute. auto 10. }
  rewrite (urlparse_index_url rules c Hshape). cbn [rbind path nonempty].
  change (str "/") with [47].
  assert (Ho : occurs_at ((47 :: c ++ [47]) ++ [47]) [] c [47]).
  { split; [|exact Hshape]. cbn [app]. rewrite <- app_assoc. reflexivity. }
  destruct (re_search true NCODE_RE _) as [m|] eqn:Es.
  - apply (ncode_search_some (47 :: c ++ [47])) in Es.
    destruct Es as (before & code & after & Ho' & Hleft & ->).
    specialize (Hleft _ _ _ Ho). cbn [List.length] in Hleft.
    destruct before; [|cbn [List.length] in Hleft; lia].
    destruct (occurs_at_unique _ _ _ _ _ _ Ho Ho') as [<- _]. reflexivity.
  - exfalso. exact (ncode_search_none _ Es _ _ _ Ho).
Qed.

Lemma index_url_resolves_back_witness :
  code_shape (str "N1234AB")
  /\ extract_ncode no_rules (normalize_index_url (str "N1234AB"))
     = Return (lower (str "N1234AB")).
Proof.
  assert (H : code_shape (str "N1234AB")).
  { exists 78, (str "1234"), (str "AB").
    repeat split; try reflexivity; cbn; lia. }
  split; [exact H|].
  apply (index_url_resolves_back no_rules (str "N1234AB")). exact H.
Defined.

(** ** Episode discovery, continued *)

(** What a match of [EP_PATH_RE] looks like. *)
Lemma ep_path_match_shape (pre rest : pystr) (cs : caps) :
  matches true EP_PATH_RE 0 pre rest [] cs ->
  exists code ds sl,
    pre = 47 :: code ++ 47 :: ds ++ sl
    /\ code_shape code /\ forallb is_decimal ds = true /\ ds <> []
    /\ (sl = [] \/ sl = [47]) /\ (rest = [] \/ rest = [10])
    /\ cs = [(2%nat, ds); (1%nat, code)].
Proof.
  unfold EP_PATH_RE, NCODE_BODY. intros M. inv_matches.
  match goal with
  | Hn : atom_match true (Lit 110) ?c = true,
    Hd : forallb (atom_match true Digit) ?ds = true,
    Hl : forallb (atom_match true (Range 97 122)) ?ls = true,
    Hf : fits (Some 2%nat) 0 ?ls,
    Hd2 : forallb (atom_match true Digit) ?ds2 = true,
    Hs : forallb (atom_match true (Lit 47)) ?sl = true,
    Hfs : fits (Some 1%nat) 0 ?sl |- _ =>
      assert (Hshape : code_shape ([c] ++ ds ++ ls))
        by (exists c, ds, ls; repeat split; auto;
            destruct Hf as [->|Hf]; cbn [List.length] in *; lia);
      exists ([c] ++ ds ++ ls), ds2, sl;
      assert (Hsl : sl = [] \/ sl = [47])
        by (destruct sl as [|x [|y sl']]; auto;
            [ right; cbn [forallb] in Hs; apply andb_true_iff in Hs;
              destruct Hs as [Hx _]; apply lit_slash in Hx; subst; reflexivity
            | destruct Hfs as [Hfs|Hfs]; [discriminate|cbn in Hfs; lia] ]);
      assert (Hne : ds2 <> [])
        by (intros ->; cbn [List.length] in *; lia)
  end.
  repeat split; auto.
  cbn [app]. rewrite app_nil_r, <- !app_assoc. reflexivity.
Qed.

Lemma episode_path_matches (code ds sl rest : pystr) :
  code_shape code -> forallb is_decimal ds = true -> ds <> [] ->
  sl = [] \/ sl = [47] -> rest = [] \/ rest = [10] ->
  matches true EP_PATH_RE 0 (47 :: code ++ 47 :: ds ++ sl) rest []
    [(2%nat, ds); (1%nat, code)].
Proof.
  intros (c & cds & ls & -> & Hc & Hds & Hdl & Hls & Hll) Hd Hne Hsl Hrest.
  unfold EP_PATH_RE, NCODE_BODY.
  change (47 :: (c :: cds ++ ls) ++ 47 :: ds ++ sl)
    with ([] ++ [47] ++ ((c :: cds ++ ls) ++ [47] ++ ds ++ sl)).
  replace (ds ++ sl) with (ds ++ sl ++ []) by (rewrite app_nil_r; reflexivity).
  econstructor; [constructor|].
  econstructor; [constructor; apply lit_slash; reflexivity|].
  econstructor.
  { constructor. change (c :: cds ++ ls) with ([c] ++ (cds ++ ls)).
    econstructor; [constructor; exact Hc|].
    econstructor.
    - constructor; [exact Hds | exact Hdl | exact I].
    - constructor; [exact Hls | lia | right; cbn; lia]. }
  econstructor; [constructor; apply lit_slash; reflexivity|].
  econstructor.
  { constructor. constructor; [exact Hd| |exact I].
    destruct ds; [contradiction|cbn; lia]. }
  econstructor.
  - constructor; [| lia |].
    + destruct Hsl as [-> | ->]; reflexivity.
    + destruct Hsl as [-> | ->]; [left; reflexivity|right; cbn; lia].
  - constructor. exact Hrest.
Qed.

(** The loop accepts exactly the paths of episodes of the work. *)
Lemma accepts_iff (ncode p : pystr) :
  accepts ncode p = true <-> episode_path ncode p.
Proof.
  assert (Hshape : forall m, re_match true EP_PATH_RE p = Some m ->
            exists code ds tail,
              p = 47 :: code ++ 47 :: ds ++ tail /\ code_shape code
              /\ group 1 m = code /\ ds <> [] /\ forallb is_decimal ds = true
              /\ (tail = [] \/ tail = [47] \/ tail = [10] \/ tail = [47; 10])).
  { intros m Hm. unfold re_match in Hm. apply run_some in Hm.
    destruct Hm as (pre & rest & cs & -> & M & Hacc). injection Hacc as <-.
    apply ep_path_match_shape in M.
    destruct M as (code & ds & sl & -> & Hc & Hd & Hne & Hsl & Hrest & ->).
    exists code, ds, (sl ++ rest). repeat split; auto.
    - repeat (rewrite <- app_assoc || rewrite <- app_comm_cons). reflexivity.
    - destruct Hsl as [-> | ->], Hrest as [-> | ->]; cbn [app]; auto. }
  unfold accepts. split.
  - destruct (re_match true EP_PATH_RE p) as [m|] eqn:Em; [|discriminate].
    intros Heq. apply str_eqb_eq in Heq.
    destruct (Hshape m eq_refl) as (code & ds & tail & -> & Hc & Hg & Hne & Hd & Ht).
    exists code, ds, tail. rewrite Hg in Heq. repeat split; auto.
  - intros (code & ds & tail & -> & Hc & Hl & Hne & Hd & Ht).
    destruct (re_match true EP_PATH_RE _) as [m|] eqn:Em.
    + destruct (Hshape m eq_refl)
        as (code' & ds' & tail' & Hp & Hc' & Hg & _).
      injection Hp as Hp. apply first_slash_unique in Hp;
        auto using code_has_no_slash.
      destruct Hp as [<- _]. rewrite Hg, Hl. apply str_eqb_refl.
    + exfalso. unfold re_match in Em.
      assert (Hsplit : exists sl rest, tail = sl ++ rest
                         /\ (sl = [] \/ sl = [47]) /\ (rest = [] \/ rest = [10])).
      { destruct Ht as [->|[->|[->| ->]]];
          [exists [], [] | exists [47], [] | exists [], [10] | exists [47], [10]];
          auto. }
      destruct Hsplit as (sl & rest & -> & Hsl & Hrest).
      eapply run_none with (pre := 47 :: code ++ 47 :: ds ++ sl) (rest := rest) in Em.
      * discriminate Em.
      * repeat (rewrite <- app_assoc || rewrite <- app_comm_cons). reflexivity.
      * apply episode_path_matches; auto.
Qed.

Lemma scan_anchors_members (rules : netloc_rules) (ncode base : pystr)
    (hrefs : list pystr) :
  forall urls seen out,
    (forall u, In u seen <-> In u urls) ->
    scan_anchors rules ncode base hrefs urls seen = Return out ->
    forall u,
      In u out
      <-> In u urls
          \/ exists a p,
               In a hrefs /\ anchor_path rules a = Return p
               /\ accepts ncode p = true /\ urljoin rules base p = Return u.
Proof.
  induction hrefs as [|a rest IH]; intros urls seen out Hseen H u;
    cbn [scan_anchors] in H.
  - injection H as <-. split; auto. intros [Hin|(a & p & [] & _)]. exact Hin.
  - fold (anchor_path rules a) in H.
    destruct (anchor_path rules a) as [p|e] eqn:Ea; [|discriminate H].
    cbn [rbind] in H.
    assert (Hskip : scan_anchors rules ncode base rest urls seen = Return out ->
                    accepts ncode p = false \/
                    (exists abs_url, urljoin rules base p = Return abs_url
                                     /\ In abs_url urls) ->
                    In u out
                    <-> In u urls
                        \/ exists a0 p0,
                             In a0 (a :: rest) /\ anchor_path rules a0 = Return p0
                             /\ accepts ncode p0 = true
                             /\ urljoin rules base p0 = Return u).
    { intros Hs Hwhy. rewrite (IH _ _ _ Hseen Hs u). split.
      - intros [Hin|(a0 & p0 & Hin & Hrest)]; [left; exact Hin|].
        right. exists a0, p0. split; [right; exact Hin|exact Hrest].
      - intros [Hin|(a0 & p0 & [<-|Hin] & Ha0 & Hacc & Hj)]; [left; exact Hin| |].
        + rewrite Ea in Ha0. injection Ha0 as <-.
          destruct Hwhy as [Hno|(abs_url & Hj' & Hin)]; [congruence|].
          left. congruence.
        + right. exists a0, p0. auto. }
    unfold accepts in Hskip.
    destruct (re_match true EP_PATH_RE p) as [m|] eqn:Em; [|apply Hskip; auto].
    destruct (str_eqb (lower (group 1 m)) (lower ncode)) eqn:Eq; cbn [negb] in H;
      [|apply Hskip; auto].
    destruct (urljoin rules base p) as [abs_url|e] eqn:Ej; [|discriminate H].
    cbn [rbind] in H.
    destruct (str_in abs_url seen) eqn:Es.
    + apply Hskip; auto. right. exists abs_url. split; [reflexivity|].
      apply Hseen, str_in_In. exact Es.
    + assert (Hseen' : forall v, In v (abs_url :: seen) <-> In v (urls ++ [abs_url])).
      { intros v. cbn [In]. rewrite in_app_iff, Hseen. cbn [In]. tauto. }
      rewrite (IH _ _ _ Hseen' H u), in_app_iff. cbn [In]. split.
      * intros [[Hin|[<-|[]]]|(a0 & p0 & Hin & Hrest)].
        -- left; exact Hin.
        -- right. exists a, p. unfold accepts. rewrite Em, Eq. auto.
        -- right. exists a0, p0. split; [right; exact Hin|exact Hrest].
      * intros [Hin|(a0 & p0 & [<-|Hin] & Ha0 & Hacc & Hj)].
        -- left; left; exact Hin.
        -- rewrite Ea in Ha0. injection Ha0 as <-.
           left; right; left. congruence.
        -- right. exists a0, p0. auto.
Qed.

(** X13.  [parse_episode_urls] returns the URLs of the episode links of
    the page, all of them and nothing else: a URL is in the result exactly
    when some anchor of the page has a path of an episode of the work, the
    identifier compared without regard to case, and the URL is that path
    joined to the base URL. *)
Theorem parse_episode_urls_members
    (rules : netloc_rules) (index_soup : Soup) (ncode base : pystr)
    (out : list pystr) :
  parse_episode_urls rules index_soup ncode base = Return out ->
  forall u,
    In u out
    <-> exists a p,
          In a (anchors index_soup) /\ anchor_path rules a = Return p
          /\ episode_path ncode p /\ urljoin rules base p = Return u.
Proof.
  unfold parse_episode_urls. intros H u.
  destruct (scan_anchors rules ncode base (anchors index_soup) [] []) as [urls|e] eqn:E;
    [|discriminate H].
  cbn [rbind] in H. injection H as <-.
  assert (Hperm : In u (sort_by_key (ep_no ncode) urls) <-> In u urls).
  { split; apply Permutation_in;
      [apply sort_by_key_perm|symmetry; apply sort_by_key_perm]. }
  rewrite Hperm.
  rewrite (scan_anchors_members rules ncode base _ [] [] urls
             (fun v => conj (fun H => H) (fun H => H)) E u).
  split.
  - intros [[]|(a & p & Hin & Ha & Hacc & Hj)].
    exists a, p. rewrite <- accepts_iff. auto.
  - intros (a & p & Hin & Ha & Hacc & Hj). right.
    exists a, p. rewrite accepts_iff. auto.
Qed.

Lemma parse_episode_urls_members_witness :
  In (episode_url 2) (map episode_url [1; 2; 3]%Z)
  <-> exists a p,
        In a (anchors (page (map link [1; 3; 3; 2]%Z) None))
        /\ anchor_path no_rules a = Return p
        /\ episode_path (str "n1234ab") p
        /\ urljoin no_rules base_url p = Return (episode_url 2).
Proof.
  apply (parse_episode_urls_members no_rules (page (map link [1; 3; 3; 2]%Z) None)
           (str "n1234ab") base_url (map episode_url [1; 2; 3]%Z)).
  vm_compute. reflexivity.
Defined.

Lemma parse_episode_urls_sorted_witness :
  NoDup (map episode_url [1; 2; 3]%Z)
  /\ ascending (ep_no (str "n1234ab")) (map episode_url [1; 2; 3]%Z).
Proof.
  apply (parse_episode_urls_sorted no_rules (page (map link [1; 3; 3; 2]%Z) None)
           (str "n1234ab") base_url (map episode_url [1; 2; 3]%Z)).
  vm_compute. reflexivity.
Defined.

Lemma insert_by_key_stable {A} (key : A -> Z) (k : Z) (x : A) (l : list A) :
  filter (fun y => (key y =? k)%Z) (insert_by_key key x l)
  = filter (fun y => (key y =? k)%Z) (x :: l).
Proof.
  induction l as [|y l IH]; cbn [insert_by_key]; [reflexivity|].
  destruct (Z.leb_spec (key x) (key y)) as [|Hlt]; [reflexivity|].
  cbn [filter] in *. rewrite IH.
  destruct (Z.eqb_spec (key x) k), (Z.eqb_spec (key y) k); try reflexivity. lia.
Qed.

Lemma sort_by_key_stable {A} (key : A -> Z) (k : Z) (l : list A) :
  filter (fun y => (key y =? k)%Z) (sort_by_key key l)
  = filter (fun y => (key y =? k)%Z) l.
Proof.
  induction l as [|x l IH]; cbn [sort_by_key]; [reflexivity|].
  rewrite insert_by_key_stable. cbn [filter]. rewrite IH. reflexivity.
Qed.

(** X14.  The sort of [parse_episode_urls] is stable: the URLs that get
    the same key stand in the result in the order in which the loop over
    the anchors found them. *)
Theorem parse_episode_urls_stable
    (rules : netloc_rules) (index_soup : Soup) (ncode base : pystr)
    (out : list pystr) :
  parse_episode_urls rules index_soup ncode base = Return out ->
  exists urls,
    scan_anchors rules ncode base (anchors index_soup) [] [] = Return urls
    /\ Permutation out urls
    /\ forall k,
         filter (fun u => (ep_no ncode u =? k)%Z) out
         = filter (fun u => (ep_no ncode u =? k)%Z) urls.
Proof.
  unfold parse_episode_urls. intros H.
  destruct (scan_anchors rules ncode base (anchors index_soup) [] []) as [urls|e];
    [|discriminate H].
  cbn [rbind] in H. injection H as <-. exists urls.
  split; [reflexivity|]. split; [apply sort_by_key_perm|].
  intros k. apply sort_by_key_stable.
Qed.

Lemma parse_episode_urls_stable_witness :
  exists urls,
    scan_anchors no_rules (str "n1234ab") base_url
      (anchors (page (map bare_link [1; 3; 3; 2]%Z ++ map link [2; 1]%Z) None)) [] []
    = Return urls
    /\ Permutation
         (map episode_url [1; 2]%Z ++ map bare_episode_url [1; 3; 2]%Z) urls
    /\ forall k,
         filter (fun u => (ep_no (str "n1234ab") u =? k)%Z)
           (map episode_url [1; 2]%Z ++ map bare_episode_url [1; 3; 2]%Z)
         = filter (fun u => (ep_no (str "n1234ab") u =? k)%Z) urls.
Proof.
  apply (parse_episode_urls_stable no_rules
           (page (map bare_link [1; 3; 3; 2]%Z ++ map link [2; 1]%Z) None)
           (str "n1234ab") base_url
           (map episode_url [1; 2]%Z ++ map bare_episode_url [1; 3; 2]%Z)).
  vm_compute. reflexivity.
Defined.

(** ** Episode extraction, continued *)

(** What a match of [TRAILING_NO_RE] looks like. *)
Lemma trailing_no_match_shape (pos : nat) (pre rest : pystr) (cs : caps) :
  matches false TRAILING_NO_RE pos pre rest [] cs ->
  exists ds sl,
    pre = 47 :: ds ++ sl
    /\ forallb is_decimal ds = true /\ ds <> []
    /\ (sl = [] \/ sl = [47]) /\ (rest = [] \/ rest = [10])
    /\ cs = [(1%nat, ds)].
Proof.
  unfold TRAILING_NO_RE. intros M. inv_matches.
  match goal with
  | H47 : atom_match false (Lit 47) ?c = true,
    Hd : forallb (atom_match false Digit) ?ds = true,
    Hs : forallb (atom_match false (Lit 47)) ?sl = true,
    Hfs : fits (Some 1%nat) 0 ?sl |- _ =>
      cbn [atom_match] in H47; apply N.eqb_eq in H47; subst c;
      exists ds, sl;
      assert (Hsl : sl = [] \/ sl = [47])
        by (destruct sl as [|x [|y sl']]; auto;
            [ right; cbn [forallb atom_match] in Hs; apply andb_true_iff in Hs;
              destruct Hs as [Hx _]; apply N.eqb_eq in Hx; subst; reflexivity
            | destruct Hfs as [Hfs|Hfs]; [discriminate|cbn in Hfs; lia] ]);
      assert (Hne : ds <> [])
        by (intros ->; cbn [List.length] in *; lia)
  end.
  repeat split; auto.
  cbn [app]. rewrite app_nil_r. reflexivity.
Qed.

Lemma trailing_no_matches (pos : nat) (ds sl : pystr) :
  forallb is_decimal ds = true -> ds <> [] -> sl = [] \/ sl = [47] ->
  matches false TRAILING_NO_RE pos (47 :: ds ++ sl) [] [] [(1%nat, ds)].
Proof.
  intros Hd Hne Hsl. unfold TRAILING_NO_RE.
  change (47 :: ds ++ sl) with ([47] ++ (ds ++ sl)).
  replace (ds ++ sl) with (ds ++ sl ++ []) by (rewrite app_nil_r; reflexivity).
  econstructor; [constructor; reflexivity|].
  econstructor.
  { constructor. constructor; [exact Hd| |exact I].
    destruct ds; [contradiction|cbn; lia]. }
  econstructor.
  - constructor; [| lia |].
    + destruct Hsl as [-> | ->]; reflexivity.
    + destruct Hsl as [-> | ->]; [left; reflexivity|right; cbn; lia].
  - constructor. left; reflexivity.
Qed.

Lemma digits_have_none_of (k : char) (ds : pystr) :
  is_decimal k = false -> forallb is_decimal ds = true -> ~ In k ds.
Proof.
  intros Hk Hd Hin. rewrite forallb_forall in Hd. apply Hd in Hin. congruence.
Qed.

(** The text from the last slash that is followed by digits to the end:
    a text that ends in a slash, digits and at most one slash ends so in
    one way only. *)
Lemma trailing_number_unique (a a' d d' t t' : pystr) :
  forallb is_decimal d = true -> d <> [] ->
  forallb is_decimal d' = true -> d' <> [] ->
  t = [] \/ t = [47] ->
  t' = [] \/ t' = [47] \/ t' = [10] \/ t' = [47; 10] ->
  a ++ 47 :: d ++ t = a' ++ 47 :: d' ++ t' -> d = d'.
Proof.
  intros Hd Hne Hd' Hne' Ht Ht' H.
  apply (f_equal (@List.rev char)) in H.
  rewrite !rev_app_distr in H. cbn [List.rev] in H.
  rewrite !rev_app_distr in H. rewrite <- !app_assoc in H. cbn [app] in H.
  assert (Hr : forall x, forallb is_decimal x = true -> x <> [] ->
                 exists c y, List.rev x = c :: y /\ is_decimal c = true
                             /\ ~ In 47 (List.rev x)).
  { intros x Hx Hxne. destruct (List.rev x) as [|c y] eqn:E.
    - exfalso. apply Hxne. rewrite <- (rev_involutive x), E. reflexivity.
    - exists c, y. split; [reflexivity|].
      rewrite forallb_forall in Hx. split.
      + apply Hx. apply in_rev. rewrite E. left. reflexivity.
      + rewrite <- E. intros Hin. apply in_rev in Hin. apply Hx in Hin.
        vm_compute in Hin. discriminate. }
  destruct (Hr d Hd Hne) as (c & y & Ec & Hc & Hno).
  destruct (Hr d' Hd' Hne') as (c' & y' & Ec' & Hc' & Hno').
  assert (Hkey : List.rev d ++ 47 :: List.rev a = List.rev d' ++ 47 :: List.rev a'
                 -> d = d').
  { intros Hk. apply first_slash_unique in Hk; auto. destruct Hk as [Hk _].
    rewrite <- (rev_involutive d), Hk, rev_involutive. reflexivity. }
  assert (H47 : is_decimal 47 = false) by reflexivity.
  assert (H10 : is_decimal 10 = false) by reflexivity.
  destruct Ht as [-> | ->], Ht' as [->|[->|[->| ->]]]; cbn [List.rev app] in H.
  - apply Hkey; exact H.
  - exfalso. rewrite Ec in H. cbn [app] in H. injection H as H _. congruence.
  - exfalso. rewrite Ec in H. cbn [app] in H. injection H as H _. congruence.
  - exfalso. rewrite Ec in H. cbn [app] in H. injection H as H _. congruence.
  - exfalso. rewrite Ec' in H. cbn [app] in H. injection H as H _. congruence.
  - injection H as H. apply Hkey; exact H.
  - discriminate H.
  - discriminate H.
Qed.

(** X16.  The index of an episode is the number at the end of its URL:
    when the URL ends in a slash, one or more decimal digits and at most
    one slash, [extract_episode] gives the episode the value of these
    digits as its index, whether or not the URL ends with a slash, and
    keeps the URL. *)
Theorem episode_index_from_url
    (client : HttpClient) (pre ds tail : pystr) (ip ia : bool) (t : pystr)
    (w w' : world) (ep : Episode) :
  ds <> [] -> forallb is_decimal ds = true -> tail = [] \/ tail = [47] ->
  extract_episode client (pre ++ 47 :: ds ++ tail) ip ia t w = (Return ep, w') ->
  index ep = int_of_digits ds /\ url ep = pre ++ 47 :: ds ++ tail.
Proof.
  intros Hne Hd Ht H. unfold extract_episode, bind in H.
  destruct (get_soup client _ w) as [[s|e] w1]; [|discriminate H].
  unfold ret in H. injection H as <- _. unfold episode_of_soup.
  cbn [index url]. split; [|reflexivity].
  destruct (re_search false TRAILING_NO_RE (pre ++ 47 :: ds ++ tail)) as [m|] eqn:Es.
  - apply search_some in Es. destruct Es as (skipped & x & Hx & Hrun & _).
    apply run_some in Hrun. destruct Hrun as (mpre & rest & cs & -> & M & Hacc).
    injection Hacc as <-. apply trailing_no_match_shape in M.
    destruct M as (ds' & sl & -> & Hd' & Hne' & Hsl & Hrest & ->).
    cbn [group Nat.eqb]. f_equal. symmetry.
    apply (trailing_number_unique pre skipped ds ds' tail (sl ++ rest)); auto.
    + destruct Hsl as [-> | ->], Hrest as [-> | ->]; cbn [app]; auto.
    + rewrite Hx. repeat (rewrite <- app_assoc || rewrite <- app_comm_cons).
      reflexivity.
  - exfalso.
    pose proof (search_none false TRAILING_NO_RE _ 0 Es pre (47 :: ds ++ tail)
                  eq_refl) as Hr.
    pose proof (run_none false TRAILING_NO_RE _ _ _ _ Hr (47 :: ds ++ tail) []
                  [(1%nat, ds)]) as Hk.
    rewrite app_nil_r in Hk.
    specialize (Hk eq_refl (trailing_no_matches _ ds tail Hd Hne Ht)).
    discriminate.
Qed.

Lemma episode_index_from_url_witness :
  index (episode_of_soup (page [] (Some (str "text")))
           (str "https://ncode.syosetu.com/n1234ab" ++ 47 :: str "12" ++ [])
           true true (str "A Work"))
  = int_of_digits (str "12")
  /\ url (episode_of_soup (page [] (Some (str "text")))
            (str "https://ncode.syosetu.com/n1234ab" ++ 47 :: str "12" ++ [])
            true true (str "A Work"))
     = str "https://ncode.syosetu.com/n1234ab" ++ 47 :: str "12" ++ [].
Proof.
  apply (episode_index_from_url (sample_client 3)
           (str "https://ncode.syosetu.com/n1234ab") (str "12") [] true true
           (str "A Work") (fresh_world healthy_site)
           (snd (extract_episode (sample_client 3)
                   (str "https://ncode.syosetu.com/n1234ab" ++ 47 :: str "12" ++ [])
                   true true (str "A Work") (fresh_world healthy_site)))).
  - discriminate.
  - reflexivity.
  - left. reflexivity.
  - vm_compute. reflexivity.
Defined.

(** X17.  The index URL of a work ends in no number, so a work without
    episode links, which [main] fetches as the one page of its index,
    becomes an episode with the index 1. *)
Theorem index_page_is_episode_one
    (client : HttpClient) (c : pystr) (ip ia : bool) (t : pystr)
    (w w' : world) (ep : Episode) :
  code_shape c ->
  extract_episode client (normalize_index_url c) ip ia t w = (Return ep, w') ->
  index ep = 1%Z.
Proof.
  intros Hshape H. unfold extract_episode, bind in H.
  destruct (get_soup client _ w) as [[s|e] w1]; [|discriminate H].
  unfold ret in H. injection H as <- _. unfold episode_of_soup. cbn [index].
  destruct (re_search false TRAILING_NO_RE (normalize_index_url c)) as [m|] eqn:Es;
    [|reflexivity].
  exfalso. apply search_some in Es. destruct Es as (skipped & x & Hx & Hrun & _).
  apply run_some in Hrun. destruct Hrun as (mpre & rest & cs & -> & M & Hacc).
  apply trailing_no_match_shape in M.
  destruct M as (ds & sl & -> & Hd & Hne & Hsl & Hrest & _).
  destruct (code_ends_with_letter c Hshape) as (init & l & -> & Hl).
  assert (Hld : is_decimal l = false).
  { pose proof (letter_facts l) as Hf. unfold letter_ok in Hf. rewrite Hl in Hf.
    cbn [negb orb] in Hf. apply andb_true_iff in Hf. destruct Hf as [Hf _].
    apply andb_true_iff in Hf. destruct Hf as [Hf _].
    apply andb_true_iff in Hf. destruct Hf as [_ Hf].
    apply negb_true_iff in Hf. exact Hf. }
  destruct (exists_last Hne) as (ds0 & d & ->).
  assert (Hdd : is_decimal d = true).
  { rewrite forallb_app in Hd. apply andb_true_iff in Hd. destruct Hd as [_ Hd].
    cbn [forallb] in Hd. rewrite andb_true_r in Hd. exact Hd. }
  unfold normalize_index_url in Hx. change (str "/") with [47] in Hx.
  apply (f_equal (@List.rev char)) in Hx.
  repeat (rewrite !rev_app_distr in Hx; cbn [List.rev app] in Hx).
  rewrite <- !app_assoc in Hx. cbn [app] in Hx.
  assert (H47 : is_decimal 47 = false) by reflexivity.
  destruct Hsl as [-> | ->], Hrest as [-> | ->]; cbn [List.rev app] in Hx.
  - injection Hx as Hx _. congruence.
  - discriminate Hx.
  - injection Hx as Hx _. congruence.
  - discriminate Hx.
Qed.

Lemma index_page_is_episode_one_witness :
  code_shape (str "n1234ab")
  /\ index (episode_of_soup (page (map link [1; 2; 3]%Z) None)
              (normalize_index_url (str "n1234ab")) true true (str "A Work"))
     = 1%Z.
Proof.
  assert (H : code_shape (str "n1234ab")).
  { exists 110, (str "1234"), (str "ab").
    repeat split; try reflexivity; cbn; lia. }
  split; [exact H|].
  apply (index_page_is_episode_one (sample_client 3) (str "n1234ab") true true
           (str "A Work") (fresh_world healthy_site)
           (snd (extract_episode (sample_client 3)
                   (normalize_index_url (str "n1234ab"))
                   true true (str "A Work") (fresh_world healthy_site)))).
  - exact H.
  - vm_compute. reflexivity.
Defined.

(** ** What a run requests *)

Lemma requests_refl (w : world) :
  requested_urls (trace w) = requested_urls (trace w) ++ [].
Proof. rewrite app_nil_r. reflexivity. Qed.

Lemma sleep_requests (site : sleep_site) (d : Q) (w : world) :
  requested_urls (trace (snd (sleep site d w))) = requested_urls (trace w).
Proof.
  unfold sleep. destruct (_ || _); [reflexivity|].
  destruct (negb _); reflexivity.
Qed.

Lemma throttle_requests (self : HttpClient) (w : world) :
  requested_urls (trace (snd (throttle self w))) = requested_urls (trace w).
Proof.
  unfold throttle. destruct (Qle_bool (delay self) 0); [reflexivity|].
  unfold bind at 1, now. unfold bind at 1, get_last_request. unfold bind at 1.
  destruct (Qle_bool (sec_sub (delay self) (sec_sub (clock w) (last_request w))) 0);
    [reflexivity|].
  pose proof (sleep_requests Throttle
                (sec_sub (delay self) (sec_sub (clock w) (last_request w))) w) as Hs.
  destruct (sleep Throttle _ w) as [[[]|e] w1]; cbn [snd] in *; exact Hs.
Qed.

Lemma session_get_requests (seconds : Z) (u : pystr) (w : world) :
  exists k,
    (k <= 1)%nat
    /\ requested_urls (trace (snd (session_get seconds u w)))
       = requested_urls (trace w) ++ repeat u k.
Proof.
  unfold session_get. destruct (seconds <=? 0)%Z.
  - exists 0%nat. split; [lia|]. cbn [snd repeat]. rewrite app_nil_r. reflexivity.
  - exists 1%nat. split; [lia|].
    destruct (network w (sent w) u) as [took [reason|resp]].
    + reflexivity.
    + destruct (_ && _); reflexivity.
Qed.

Lemma get_loop_requests (self : HttpClient) (u : pystr) (todo : nat) :
  forall (a : Z) (le : option exn) (w : world) (r : result response) (w' : world),
    get_loop self u todo a le w = (r, w') ->
    exists k,
      (k <= todo)%nat
      /\ requested_urls (trace w') = requested_urls (trace w) ++ repeat u k.
Proof.
  induction todo as [|todo IH]; intros a le w r w' H.
  - cbn [get_loop] in H. exists 0%nat. split; [lia|].
    destruct le; cbn in H; injection H as _ <-; apply requests_refl.
  - rewrite get_loop_S in H. unfold bind at 1 in H.
    pose proof (throttle_requests self w) as T1.
    destruct (throttle_frame self w) as (r1 & w1 & E1 & _ & _ & _ & Hr1).
    rewrite E1 in H, T1. cbn [snd] in T1.
    destruct Hr1 as [->|[-> _]].
    2:{ injection H as _ <-. exists 0%nat. split; [lia|].
        rewrite T1. apply requests_refl. }
    unfold bind at 1, attempt in H.
    destruct (session_get_requests (timeout self) u w1) as (k1 & Hk1 & T2).
    destruct (session_get_frame (timeout self) u w1)
      as (r2 & w2 & E2 & _ & _ & _ & Hr).
    rewrite E2 in H, T2. cbn [snd] in T2. rewrite T1 in T2.
    assert (Hstop : w' = w2 ->
              exists k, (k <= S todo)%nat
                /\ requested_urls (trace w')
                   = requested_urls (trace w) ++ repeat u k).
    { intros ->. exists k1. split; [lia|exact T2]. }
    destruct r2 as [resp|x].
    + injection H as _ <-. apply Hstop. reflexivity.
    + destruct (Hr x eq_refl) as [[reason ->]|[-> _]].
      2:{ unfold invalid_timeout in H. injection H as _ <-.
          apply Hstop. reflexivity. }
      cbv beta match in H.
      destruct (a =? retries self)%Z.
      * cbn in H. injection H as _ <-. apply Hstop. reflexivity.
      * unfold bind at 1, lift in H. destruct (backoff a) as [b|x] eqn:Eb.
        -- unfold bind at 1 in H. rewrite (backoff_sleep a b w2 Eb) in H.
           apply IH in H.
           destruct H as (k & Hk & H). cbn [trace requested_urls] in H.
           exists (k1 + k)%nat. split; [lia|].
           rewrite H, T2, <- app_assoc, repeat_app. reflexivity.
        -- injection H as _ <-. apply Hstop. reflexivity.
Qed.

(** Every request of [get] is a request for its URL. *)
Lemma get_requests (self : HttpClient) (u : pystr) (w w' : world)
    (r : result response) :
  get self u w = (r, w') ->
  forall v, In v (requested_urls (trace w')) ->
            In v (requested_urls (trace w)) \/ v = u.
Proof.
  intros H v Hin. apply get_loop_requests in H. destruct H as (k & _ & H).
  rewrite H in Hin. apply in_app_or in Hin. destruct Hin as [Hin|Hin]; auto.
  right. apply repeat_spec in Hin. exact Hin.
Qed.

Lemma get_soup_requests (self : HttpClient) (u : pystr) (w w' : world)
    (r : result Soup) :
  get_soup self u w = (r, w') ->
  forall v, In v (requested_urls (trace w')) ->
            In v (requested_urls (trace w)) \/ v = u.
Proof.
  unfold get_soup, bind. destruct (get self u w) as [[resp|e] w1] eqn:G;
    intros [= _ <-]; eapply get_requests; eauto.
Qed.

Lemma fetch_general_all_no_requests (client : HttpClient) (ncode : pystr)
    (w w' : world) (r : result (option json)) :
  fetch_general_all_no client ncode w = (r, w') ->
  forall v, In v (requested_urls (trace w')) ->
            In v (requested_urls (trace w)) \/ v = api_url ncode.
Proof.
  unfold fetch_general_all_no, bind, attempt. fold (api_url ncode).
  destruct (get client (api_url ncode) w) as [[resp|e] w1] eqn:G; intros H.
  - assert (w' = w1) as -> by (destruct (json_of resp); injection H as _ <-; auto).
    eapply get_requests; eauto.
  - assert (w' = w1) as -> by (destruct e; injection H as _ <-; auto).
    eapply get_requests; eauto.
Qed.

Lemma discover_requests (rules : netloc_rules) (args : Args) (w w' : world)
    (r : result Plan) :
  discover rules args w = (r, w') ->
  forall v, In v (requested_urls (trace w')) ->
    In v (requested_urls (trace w))
    \/ exists ncode,
         extract_ncode rules (arg_url args) = Return ncode
         /\ (v = api_url ncode \/ v = normalize_index_url ncode).
Proof.
  unfold discover. unfold bind at 1, lift.
  destruct (extract_ncode rules (arg_url args)) as [ncode|x] eqn:En.
  2:{ intros [= _ <-]. auto. }
  unfold bind at 1, HttpClient_init. unfold bind at 1, set_last_request, ret.
  unfold bind at 1.
  match goal with |- context [fetch_general_all_no ?c ncode ?w0] =>
    destruct (fetch_general_all_no c ncode w0) as [r1 w1] eqn:E1;
    pose proof (fetch_general_all_no_requests c ncode w0 w1 r1 E1) as R1;
    cbn [trace] in R1
  end.
  assert (Hstep : forall v, In v (requested_urls (trace w1)) ->
            In v (requested_urls (trace w))
            \/ exists n, Return ncode = Return n
                         /\ (v = api_url n \/ v = normalize_index_url n)).
  { intros v Hv. destruct (R1 v Hv) as [Hin| ->]; eauto. }
  destruct r1 as [ga|x]; [|intros [= _ <-]; exact Hstep].
  unfold bind at 1.
  destruct (get_soup _ (normalize_index_url ncode) w1) as [r2 w2] eqn:E2.
  pose proof (get_soup_requests _ _ _ _ _ E2) as R2.
  assert (Hstep2 : forall v, In v (requested_urls (trace w2)) ->
            In v (requested_urls (trace w))
            \/ exists n, Return ncode = Return n
                         /\ (v = api_url n \/ v = normalize_index_url n)).
  { intros v Hv. destruct (R2 v Hv) as [Hin| ->]; eauto. }
  destruct r2 as [s|x]; [|intros [= _ <-]; exact Hstep2].
  unfold bind at 1, lift.
  destruct (parse_episode_urls rules s ncode base_url);
    intros [= _ <-]; exact Hstep2.
Qed.

Lemma fetch_episodes_requests (args : Args) (plan : Plan) (urls : list pystr) :
  forall episodes w r w',
    fetch_episodes args plan urls episodes w = (r, w') ->
    forall v, In v (requested_urls (trace w')) ->
              In v (requested_urls (trace w)) \/ In v urls.
Proof.
  induction urls as [|u rest IH]; intros episodes w r w' H v Hv;
    cbn [fetch_episodes] in H.
  - injection H as _ <-. auto.
  - unfold bind at 1 in H. unfold extract_episode, bind at 1 in H.
    destruct (get_soup (plan_client plan) u w) as [[s|x] w1] eqn:Es.
    + unfold ret in H. unfold bind at 1, print in H.
      apply IH with (v := v) in H; auto. cbn [trace In] in *.
      destruct H as [H|H]; [|auto].
      destruct (get_soup_requests _ _ _ _ _ Es v H) as [Hin| ->]; auto.
    + injection H as _ <-. cbn [In].
      destruct (get_soup_requests _ _ _ _ _ Es v Hv) as [Hin| ->]; auto.
Qed.

(** X18.  Whatever the outcome of a run, [main] asks the session for no
    URL but these: the API URL of the identifier, the index URL of the
    identifier, and the URLs that the range filter kept. *)
Theorem main_requests_only
    (rules : netloc_rules) (args : Args) (w w' : world) (r : result unit) :
  main rules args w = (r, w') ->
  forall v, In v (requested_urls (trace w')) ->
    In v (requested_urls (trace w))
    \/ exists ncode,
         extract_ncode rules (arg_url args) = Return ncode
         /\ (v = api_url ncode \/ v = normalize_index_url ncode
             \/ exists plan,
                  fst (discover rules args w) = Return plan
                  /\ In v (plan_filtered_urls plan)).
Proof.
  unfold main. unfold bind at 1.
  destruct (discover rules args w) as [[plan|x] w1] eqn:Ed.
  - pose proof (discover_requests rules args w w1 _ Ed) as R1.
    destruct (discover_returns _ _ _ _ _ Ed) as (Hn & _).
    unfold bind at 1.
    destruct (fetch_episodes args plan (plan_filtered_urls plan) [] w1)
      as [r2 w2] eqn:Ef.
    pose proof (fetch_episodes_requests _ _ _ _ _ _ _ Ef) as R2.
    assert (Hstep : forall v, In v (requested_urls (trace w2)) ->
              In v (requested_urls (trace w))
              \/ exists ncode,
                   extract_ncode rules (arg_url args) = Return ncode
                   /\ (v = api_url ncode \/ v = normalize_index_url ncode
                       \/ exists plan0,
                            fst (Return plan, w1) = Return plan0
                            /\ In v (plan_filtered_urls plan0))).
    { intros v Hv. destruct (R2 v Hv) as [Hin|Hin].
      - destruct (R1 v Hin) as [H0|(n & Hn' & Hv')]; [left; exact H0|].
        right. exists n. split; [exact Hn'|]. tauto.
      - right. exists (plan_ncode plan). split; [exact Hn|].
        right; right. exists plan. auto. }
    destruct r2 as [episodes|x]; [|intros [= _ <-]; exact Hstep].
    destruct (assemble_spec args plan episodes w2)
      as [[_ ->]|(_ & w3 & -> & T3 & _)].
    + intros [= _ <-]. exact Hstep.
    + intros [= _ <-]. rewrite T3. exact Hstep.
  - intros [= _ <-] v Hv.
    destruct (discover_requests rules args w w1 _ Ed v Hv) as [H0|(n & Hn' & Hv')];
      [left; exact H0|].
    right. exists n. split; [exact Hn'|]. tauto.
Qed.

Lemma main_requests_only_witness :
  In (episode_url 2) (requested_urls (trace (fresh_world healthy_site)))
  \/ exists ncode,
       extract_ncode no_rules (arg_url (sample_args None None)) = Return ncode
       /\ (episode_url 2 = api_url ncode
           \/ episode_url 2 = normalize_index_url ncode
           \/ exists plan,
                fst (discover no_rules (sample_args None None)
                       (fresh_world healthy_site)) = Return plan
                /\ In (episode_url 2) (plan_filtered_urls plan)).
Proof.
  apply (main_requests_only no_rules (sample_args None None)
           (fresh_world healthy_site)
           (snd (main no_rules (sample_args None None) (fresh_world healthy_site)))
           (Return tt)).
  - vm_compute. reflexivity.
  - vm_compute. do 3 right. left. reflexivity.
Defined.

(** ** The book assembler, continued *)

(** X19.  The book that [build_epub] writes holds the style sheet first,
    then one chapter per episode in input order, then the NCX and the
    navigation document; every chapter of the reading order and of the
    table of contents is an item of the book; and the book names an
    author exactly when the author string is not empty. *)
Theorem build_book_manifest
    (ident title0 author : pystr) (episodes : list Episode)
    (vertical : bool) (language : pystr) :
  let book := build_book ident title0 author episodes vertical language in
  items book
  = Stylesheet (str "style_base") (str "style/style.css") (str "text/css")
      (build_css vertical)
    :: map (fun ep => Chapter (chapter_of language ep)) episodes
    ++ [EpubNcx; EpubNav]
  /\ (forall c, In (SpineChapter c) (spine book) <-> In (Chapter c) (items book))
  /\ (forall c, In c (toc book) <-> In (Chapter c) (items book))
  /\ authors book = (if nonempty author then [author] else []).
Proof.
  cbv zeta.
  assert (Hitems : items (build_book ident title0 author episodes vertical language)
            = Stylesheet (str "style_base") (str "style/style.css") (str "text/css")
                (build_css vertical)
              :: map (fun ep => Chapter (chapter_of language ep)) episodes
              ++ [EpubNcx; EpubNav]).
  { unfold build_book. rewrite add_chapters_spec. reflexivity. }
  assert (Hin : forall c,
            In (Chapter c) (items (build_book ident title0 author episodes
                                     vertical language))
            <-> In c (map (chapter_of language) episodes)).
  { intros c. rewrite Hitems. cbn [In]. rewrite in_app_iff, !in_map_iff. cbn [In].
    split.
    - intros [H|[(ep & [= <-] & Hin)|[H|[H|[]]]]]; try discriminate H. eauto.
    - intros (ep & <- & Hin). right; left. eauto. }
  split; [exact Hitems|]. split; [|split].
  - intros c. rewrite Hin, build_book_spine. cbn [In]. rewrite !in_map_iff. split.
    + intros [H|(ep & [= <-] & Hep)]; [discriminate H|]. eauto.
    + intros (ep & <- & Hep). right. eauto.
  - intros c. rewrite Hin, build_book_toc. reflexivity.
  - unfold build_book. rewrite add_chapters_spec. reflexivity.
Qed.

(** ** The range filter, continued *)

(** X15.  The range filter keeps exactly the URLs whose number, as [main]
    reads it, lies within the bounds that are given; it keeps them in the
    order of the list, filtering a list piece by piece; and without
    bounds it keeps every URL. *)
Theorem filter_urls_keeps_range
    (ncode : pystr) (from_ep to_ep : option Z) (urls : list pystr) :
  (forall u,
     In u (filter_urls ncode from_ep to_ep urls)
     <-> In u urls
         /\ (forall f, from_ep = Some f -> (f <= ep_no_or_1 ncode u)%Z)
         /\ (forall t, to_ep = Some t -> (ep_no_or_1 ncode u <= t)%Z))
  /\ (forall l1 l2,
        urls = l1 ++ l2 ->
        filter_urls ncode from_ep to_ep urls
        = filter_urls ncode from_ep to_ep l1 ++ filter_urls ncode from_ep to_ep l2)
  /\ filter_urls ncode None None urls = urls.
Proof.
  split; [|split].
  - intros u. unfold filter_urls.
    rewrite filter_In, in_requested_range_spec. reflexivity.
  - intros l1 l2 ->. unfold filter_urls. apply filter_app.
  - apply filter_urls_unbounded.
Qed.

(** ** The number of an episode URL *)

(** A match of the pattern of [re.escape(s)]: as long as [s], without a
    slash when [s] has none, and without captures. *)
Lemma literal_match (s : pystr) :
  forall pos pre rest cs cs',
    matches true (literal s) pos pre rest cs cs' ->
    List.length pre = List.length s /\ cs' = cs /\ (~ In 47 s -> ~ In 47 pre).
Proof.
  induction s as [|x s IH]; intros pos pre rest cs cs' M; cbn [literal] in M.
  - inversion M; subst. repeat split; auto.
  - inversion M as [| | |r1 r2 p pre1 pre2 rs c0 c1 c2 M1 M2| | | | |]; subst.
    inversion M1; subst. apply IH in M2. destruct M2 as (Hlen & -> & Hno).
    cbn [app List.length]. split; [lia|]. split; [reflexivity|].
    intros Hs [E|Hin].
    + subst. match goal with H : atom_match true (Lit x) 47 = true |- _ =>
        cbn [atom_match] in H; rewrite N.eqb_sym in H;
        apply (proj1 (lit_slash x)) in H end.
      apply Hs. left. assumption.
    + revert Hin. apply Hno. intros Hin. apply Hs. right. exact Hin.
Qed.

Lemma literal_self (s : pystr) :
  forall pos rest cs, matches true (literal s) pos s rest cs cs.
Proof.
  induction s as [|x s IH]; intros pos rest cs; cbn [literal].
  - constructor.
  - change (x :: s) with ([x] ++ s). econstructor.
    + constructor. cbn [atom_match]. apply N.eqb_refl.
    + apply IH.
Qed.

(** What a match of [EP_NO_RE] looks like. *)
Lemma ep_no_match_shape (ncode : pystr) (pos : nat) (pre rest : pystr) (cs : caps) :
  ~ In 47 ncode ->
  matches true (EP_NO_RE ncode) pos pre rest [] cs ->
  exists l ds,
    pre = 47 :: l ++ 47 :: ds ++ [47]
    /\ List.length l = List.length ncode /\ ~ In 47 l
    /\ forallb is_decimal ds = true /\ ds <> [] /\ cs = [(1%nat, ds)].
Proof.
  unfold EP_NO_RE. intros Hno M. inv_matches.
  match goal with
  | Hl : matches true (literal ncode) _ ?l _ _ _,
    Hd : forallb (atom_match true Digit) ?ds = true |- _ =>
      apply literal_match in Hl; destruct Hl as (Hlen & -> & Hl);
      exists l, ds;
      assert (Hne : ds <> []) by (intros ->; cbn [List.length] in *; lia)
  end.
  repeat split; auto.
Qed.

Lemma ep_no_matches (ncode ds : pystr) (pos : nat) (rest : pystr) :
  forallb is_decimal ds = true -> ds <> [] ->
  matches true (EP_NO_RE ncode) pos (47 :: ncode ++ 47 :: ds ++ [47]) rest []
    [(1%nat, ds)].
Proof.
  intros Hd Hne. unfold EP_NO_RE.
  change (47 :: ncode ++ 47 :: ds ++ [47])
    with ([47] ++ (ncode ++ ([47] ++ (ds ++ [47])))).
  econstructor; [constructor; apply lit_slash; reflexivity|].
  econstructor; [apply literal_self|].
  econstructor; [constructor; apply lit_slash; reflexivity|].
  econstructor.
  - constructor. constructor; [exact Hd| |exact I].
    destruct ds; [contradiction|cbn; lia].
  - constructor. apply lit_slash. reflexivity.
Qed.

(** Where the next slash of a text is. *)
Lemma slash_step (x : pystr) :
  forall y skipped z,
    ~ In 47 x -> x ++ 47 :: y = skipped ++ 47 :: z ->
    (skipped = x /\ z = y) \/ (exists sk, skipped = x ++ 47 :: sk /\ y = sk ++ 47 :: z).
Proof.
  induction x as [|a x IH]; intros y skipped z Hno H; cbn [app] in H.
  - destruct skipped as [|c sk]; cbn [app] in H.
    + injection H as ->. auto.
    + injection H as <- ->. right. exists sk. auto.
  - destruct skipped as [|c sk]; cbn [app] in H.
    + injection H as -> _. exfalso. apply Hno. left. reflexivity.
    + injection H as <- H. apply IH in H.
      * destruct H as [[-> ->]|(sk' & -> & ->)];
          [left; auto|right; exists sk'; split; reflexivity].
      * intros Hin. apply Hno. right. exact Hin.
Qed.

(** The episode URL of the work [ncode] with the number [ds], as the site
    writes it. *)
Lemma ep_no_search (ncode ds : pystr) :
  code_shape ncode -> ds <> [] -> forallb is_decimal ds = true ->
  exists m,
    re_search true (EP_NO_RE ncode)
      (str "https://ncode.syosetu.com/" ++ ncode ++ 47 :: ds ++ [47]) = Some m
    /\ group 1 m = ds.
Proof.
  intros Hshape Hne Hd.
  pose proof (code_has_no_slash ncode Hshape) as Hns.
  assert (Hds : ~ In 47 ds) by (apply digits_have_none_of; auto).
  set (u := str "https://ncode.syosetu.com/" ++ ncode ++ 47 :: ds ++ [47]).
  assert (Hu : u = str "https://ncode.syosetu.com"
                     ++ (47 :: ncode ++ 47 :: ds ++ [47]) ++ []).
  { unfold u. rewrite app_nil_r. reflexivity. }
  destruct (re_search true (EP_NO_RE ncode) u) as [m|] eqn:Es.
  - exists m. split; [reflexivity|].
    apply search_some in Es. destruct Es as (skipped & x & Hx & Hrun & _).
    apply run_some in Hrun. destruct Hrun as (pre & rest & cs & -> & M & Hacc).
    injection Hacc as <-. apply ep_no_match_shape in M; [|exact Hns].
    destruct M as (l & ds' & -> & Hlen & Hl & Hd' & Hne' & ->).
    cbn [group Nat.eqb].
    assert (Hds' : ~ In 47 ds') by (apply digits_have_none_of; auto).
    assert (Hnz : ncode <> []).
    { destruct Hshape as (c & cds & ls & -> & _). discriminate. }
    assert (Hfirst : forall t, ds' ++ 47 :: t <> ncode ++ 47 :: ds ++ [47]).
    { intros t Ht. apply first_slash_unique in Ht; auto. destruct Ht as [<- _].
      destruct Hshape as (c & cds & ls & Hc & Hn & _).
      destruct ds' as [|d ds']; [discriminate Hc|]. injection Hc as <- _.
      cbn [forallb] in Hd'. apply andb_true_iff in Hd'. destruct Hd' as [Hdd _].
      destruct (is_n_cases _ Hn) as [E|E]; rewrite E in Hdd; discriminate Hdd. }
    unfold u in Hx.
    change (str "https://ncode.syosetu.com/" ++ ncode ++ 47 :: ds ++ [47])
      with (str "https:" ++ 47 :: [] ++ 47 :: str "ncode.syosetu.com"
              ++ 47 :: ncode ++ 47 :: ds ++ 47 :: []) in Hx.
    assert (Hz : forall sk, skipped ++ (47 :: l ++ 47 :: ds' ++ [47]) ++ rest
                   = sk ++ 47 :: l ++ 47 :: ds' ++ 47 :: rest -> sk = skipped).
    { intros sk H. repeat (rewrite <- app_assoc in H || rewrite <- app_comm_cons in H).
      apply app_inv_tail in H. symmetry. exact H. }
    assert (Hx' : str "https:" ++ 47 :: [] ++ 47 :: str "ncode.syosetu.com"
                    ++ 47 :: ncode ++ 47 :: ds ++ 47 :: []
                  = skipped ++ 47 :: l ++ 47 :: ds' ++ 47 :: rest).
    { rewrite Hx. repeat (rewrite <- app_assoc || rewrite <- app_comm_cons).
      reflexivity. }
    clear Hx Hz.
    apply slash_step in Hx'; [|vm_compute; intuition discriminate].
    destruct Hx' as [[_ Hz]|(sk1 & _ & Hx')].
    { exfalso. apply (first_slash_unique l []) in Hz; auto.
      destruct Hz as [-> _]. destruct ncode; [auto|discriminate Hlen]. }
    apply slash_step in Hx'; [|auto].
    destruct Hx' as [[_ Hz]|(sk2 & _ & Hx')].
    { exfalso. apply first_slash_unique in Hz; auto;
        [|vm_compute; intuition discriminate].
      destruct Hz as [_ Hz]. exact (Hfirst _ Hz). }
    apply slash_step in Hx'; [|vm_compute; intuition discriminate].
    destruct Hx' as [[_ Hz]|(sk3 & _ & Hx')].
    { apply first_slash_unique in Hz; auto. destruct Hz as [_ Hz].
      apply first_slash_unique in Hz; auto. destruct Hz as [Hz _]. exact Hz. }
    exfalso. apply slash_step in Hx'; [|exact Hns].
    destruct Hx' as [[_ Hz]|(sk4 & _ & Hx')].
    { apply first_slash_unique in Hz; auto. destruct Hz as [_ Hz].
      destruct ds'; discriminate Hz. }
    apply slash_step in Hx'; [|exact Hds].
    destruct Hx' as [[_ Hz]|(sk5 & _ & Hx')].
    + destruct l; discriminate Hz.
    + destruct sk5; discriminate Hx'.
  - exfalso.
    pose proof (search_none true (EP_NO_RE ncode) u 0 Es
                  (str "https://ncode.syosetu.com")
                  ((47 :: ncode ++ 47 :: ds ++ [47]) ++ []) Hu) as Hr.
    pose proof (run_none true (EP_NO_RE ncode) _ _ _ _ Hr
                  (47 :: ncode ++ 47 :: ds ++ [47]) [] [(1%nat, ds)] eq_refl
                  (ep_no_matches ncode ds _ [] Hd Hne)) as Hk.
    discriminate Hk.
Qed.

(** X20.  For the episode URL of a work as the site writes it, the base
    URL, the identifier, a slash, the digits of the number and a slash,
    the sort key of [parse_episode_urls] and the number that the range
    filter of [main] reads are both the value of these digits. *)
Theorem episode_number_with_slash (ncode ds : pystr) :
  code_shape ncode -> ds <> [] -> forallb is_decimal ds = true ->
  ep_no ncode (base_url ++ ncode ++ 47 :: ds ++ [47]) = int_of_digits ds
  /\ ep_no_or_1 ncode (base_url ++ ncode ++ 47 :: ds ++ [47]) = int_of_digits ds.
Proof.
  intros Hshape Hne Hd.
  destruct (ep_no_search ncode ds Hshape Hne Hd) as (m & Hm & Hg).
  unfold ep_no, ep_no_or_1, base_url. rewrite Hm, Hg. auto.
Qed.

Lemma episode_number_with_slash_witness :
  code_shape (str "n1234ab")
  /\ ep_no (str "n1234ab") (base_url ++ str "n1234ab" ++ 47 :: str "12" ++ [47])
     = int_of_digits (str "12")
  /\ ep_no_or_1 (str "n1234ab")
       (base_url ++ str "n1234ab" ++ 47 :: str "12" ++ [47])
     = int_of_digits (str "12").
Proof.
  assert (H : code_shape (str "n1234ab")).
  { exists 110, (str "1234"), (str "ab").
    repeat split; try reflexivity; cbn; lia. }
  split; [exact H|].
  apply (episode_number_with_slash (str "n1234ab") (str "12")).
  - exact H.
  - discriminate.
  - reflexivity.
Defined.

(** ** Joining an episode path to the base URL *)

Lemma code_lacks (k : char) (code : pystr) :
  is_n k = false -> is_decimal k = false -> is_letter k = false ->
  code_shape code -> ~ In k code.
Proof.
  intros N1 N2 N3 (c & ds & ls & -> & Hc & Hds & _ & Hls & _) Hin.
  destruct Hin as [E|Hin]; [subst c; congruence|].
  apply in_app_or in Hin. rewrite forallb_forall in Hds, Hls.
  destruct Hin as [Hin|Hin]; [apply Hds in Hin|apply Hls in Hin]; congruence.
Qed.

Lemma split_absent (c : char) (s : pystr) : ~ In c s -> split c s = [s].
Proof.
  induction s as [|x s IH]; intros Hno; cbn [split]; [reflexivity|].
  destruct (N.eqb_spec x c) as [E|_].
  - exfalso. apply Hno. left. exact E.
  - rewrite IH; [reflexivity|]. intros Hin. apply Hno. right. exact Hin.
Qed.

Lemma split_at (c : char) (a b : pystr) :
  ~ In c a -> split c (a ++ c :: b) = a :: split c b.
Proof.
  induction a as [|x a IH]; intros Hno; cbn [split app].
  - rewrite N.eqb_refl. reflexivity.
  - destruct (N.eqb_spec x c) as [E|_].
    + exfalso. apply Hno. left. exact E.
    + rewrite IH; [reflexivity|]. intros Hin. apply Hno. right. exact Hin.
Qed.

Lemma contains_absent (c : char) (sub s : pystr) :
  In c sub -> ~ In c s -> contains sub s = false.
Proof.
  intros Hsub. induction s as [|x s IH]; intros Hno.
  - cbn [contains]. destruct sub; [destruct Hsub|reflexivity].
  - cbn [contains]. rewrite IH by (intros Hin; apply Hno; right; exact Hin).
    rewrite orb_false_r. clear IH.
    revert x s Hno. induction sub as [|y sub IHs]; intros x s Hno;
      [destruct Hsub|].
    cbn [startswith]. destruct (N.eqb_spec y x) as [E|_]; [|reflexivity].
    cbn [andb]. destruct Hsub as [Ec|Hin].
    + exfalso. apply Hno. left. congruence.
    + destruct s as [|x' s'].
      * destruct sub; [destruct Hin|reflexivity].
      * apply IHs; auto. intros Hin'. apply Hno. right. exact Hin'.
Qed.

Lemma str_eqb_neq (a b : pystr) : a <> b -> str_eqb a b = false.
Proof.
  intros Hne. destruct (str_eqb a b) eqn:E; [|reflexivity].
  apply str_eqb_eq in E. contradiction.
Qed.

(** The characters of an episode path: none that the URL parser treats
    specially, but the slash. *)
Lemma episode_path_chars (code ds tail : pystr) (k : char) :
  code_shape code -> forallb is_decimal ds = true -> tail = [] \/ tail = [47] ->
  In k [9; 10; 13; 35; 46; 58; 59; 63] ->
  ~ In k (47 :: code ++ 47 :: ds ++ tail).
Proof.
  intros Hshape Hd Ht Hk.
  assert (Hno : k <> 47 /\ is_n k = false /\ is_decimal k = false
                /\ is_letter k = false).
  { cbn [In] in Hk. decompose [or] Hk; try contradiction; subst k;
      (split; [discriminate|]); vm_compute; auto. }
  destruct Hno as (H47 & N1 & N2 & N3).
  intros [E|Hin]; [congruence|].
  apply in_app_or in Hin. destruct Hin as [Hin|[E|Hin]]; [|congruence|].
  - revert Hin. apply code_lacks; auto.
  - apply in_app_or in Hin. destruct Hin as [Hin|Hin].
    + revert Hin. apply digits_have_none_of; auto.
    + destruct Ht as [-> | ->]; [destruct Hin|].
      destruct Hin as [E|[]]. congruence.
Qed.

(** The URL parser on a path that starts with one slash and holds none of
    the characters it treats specially. *)
Lemma urlparse_plain_path (rules : netloc_rules) (c : char) (q : pystr) :
  c <> 47 ->
  (forall k, In k [9; 10; 13; 35; 46; 58; 59; 63] -> ~ In k (47 :: c :: q)) ->
  urlparse_with rules (47 :: c :: q) (str "https")
  = Return {| scheme := str "https"; netloc := []; path := 47 :: c :: q;
              params := []; query := []; fragment := [] |}.
Proof.
  intros Hc Hno.
  unfold urlparse_with, urlsplit.
  assert (Hsafe : filter (fun x => negb (unsafe_url_char x))
                    (dropwhile c0_control_or_space (47 :: c :: q)) = (47 :: c :: q)).
  { change (dropwhile c0_control_or_space (47 :: c :: q)) with (47 :: c :: q).
    apply filter_all. intros x Hx. unfold unsafe_url_char.
    destruct (N.eqb_spec x 9) as [->|_];
      [exfalso; apply (Hno 9); cbn; auto|].
    destruct (N.eqb_spec x 13) as [->|_];
      [exfalso; apply (Hno 13); cbn; auto|].
    destruct (N.eqb_spec x 10) as [->|_];
      [exfalso; apply (Hno 10); cbn; auto|].
    reflexivity. }
  rewrite Hsafe.
  change (filter (fun c0 => negb (unsafe_url_char c0))
            (List.rev (dropwhile c0_control_or_space
               (List.rev (dropwhile c0_control_or_space (str "https"))))))
    with (str "https").
  unfold split_scheme.
  rewrite (split_once_absent (ch ":") (47 :: c :: q)) by (apply Hno; cbn; auto 10).
  cbv beta iota.
  match goal with
  | |- rbind (rbind ?m _) _ = _ =>
      replace m with (@Return (pystr * pystr) ([], 47 :: c :: q))
  end.
  2:{ destruct c as [|pc]; [reflexivity|].
      repeat (destruct pc as [pc|pc|]; try reflexivity). contradiction. }
  cbn [rbind].
  rewrite (split_once_absent (ch "#") (47 :: c :: q)) by (apply Hno; cbn; auto 10).
  rewrite (split_once_absent (ch "?") (47 :: c :: q)) by (apply Hno; cbn; auto 10).
  change (checknetloc rules []) with (Return tt).
  cbn [rbind scheme path].
  rewrite (has_absent (ch ";") (47 :: c :: q)) by (apply Hno; cbn; auto 10).
  rewrite andb_false_r. reflexivity.
Qed.

(** [urljoin] puts an episode path behind the host of the base URL. *)
Lemma urljoin_episode_path
    (rules : netloc_rules) (code ds tail : pystr) :
  code_shape code -> ds <> [] -> forallb is_decimal ds = true ->
  tail = [] \/ tail = [47] ->
  urljoin rules base_url (47 :: code ++ 47 :: ds ++ tail)
  = Return (str "https://ncode.syosetu.com" ++ 47 :: code ++ 47 :: ds ++ tail).
Proof.
  intros Hshape Hne Hd Ht.
  pose proof (fun k => episode_path_chars code ds tail k Hshape Hd Ht) as Hno.
  pose proof (code_has_no_slash code Hshape) as Hns.
  assert (Hds : ~ In 47 ds) by (apply digits_have_none_of; auto).
  assert (Hcode : exists c q, code = c :: q /\ c <> 47 /\ c <> 46).
  { destruct Hshape as (c & cds & ls & -> & Hn & _). exists c, (cds ++ ls).
    split; [reflexivity|].
    destruct (is_n_cases c Hn) as [-> | ->]; split; discriminate. }
  destruct Hcode as (c & q & Ec & Hc47 & Hc46).
  assert (Hd0 : exists d ds', ds = d :: ds' /\ d <> 46).
  { destruct ds as [|d ds']; [contradiction|]. exists d, ds'.
    split; [reflexivity|]. intros ->. discriminate Hd. }
  destruct Hd0 as (d & ds' & Ed & Hd46).
  unfold urljoin.
  change (negb (nonempty base_url)) with false.
  change (negb (nonempty (47 :: code ++ 47 :: ds ++ tail))) with false.
  cbv beta iota.
  change (urlparse rules base_url)
    with (Return {| scheme := str "https"; netloc := str "ncode.syosetu.com";
                    path := str "/"; params := []; query := [];
                    fragment := [] |}).
  cbn [rbind scheme netloc path params query fragment].
  assert (Hp : urlparse_with rules (47 :: code ++ 47 :: ds ++ tail) (str "https")
               = Return {| scheme := str "https"; netloc := [];
                           path := 47 :: code ++ 47 :: ds ++ tail;
                           params := []; query := []; fragment := [] |}).
  { revert Hno. rewrite Ec. cbn [app]. intros Hno.
    apply urlparse_plain_path; auto. }
  rewrite Hp. cbn [rbind scheme netloc path params query fragment].
  change (negb (str_eqb (str "https") (str "https"))
          || negb (str_in (str "https") uses_relative)) with false.
  change (str_in (str "https") uses_netloc && nonempty []) with false.
  cbv beta iota.
  change (negb (nonempty (47 :: code ++ 47 :: ds ++ tail)) && negb (nonempty []))
    with false.
  cbv beta iota.
  change (startswith (str "/") (47 :: code ++ 47 :: ds ++ tail)) with true.
  cbv beta iota.
  change (str_in (str "https") uses_netloc) with true. cbv beta iota.
  assert (Hsplit : split (ch "/") (47 :: code ++ 47 :: ds ++ tail)
                   = [] :: code :: split 47 (ds ++ tail)).
  { pose proof (split_at 47 [] (code ++ 47 :: ds ++ tail) (fun H => H)) as H1.
    pose proof (split_at 47 code (ds ++ tail) Hns) as H2.
    etransitivity; [exact H1|]. f_equal. exact H2. }
  rewrite !Hsplit. clear Hsplit.
  assert (Hcode_dots : str_eqb code (str "..") = false
                       /\ str_eqb code (str ".") = false).
  { rewrite Ec. split; apply str_eqb_neq; intros [= E _]; congruence. }
  assert (Hds_dots : str_eqb ds (str "..") = false /\ str_eqb ds (str ".") = false).
  { rewrite Ed. split; apply str_eqb_neq; intros [= E _]; congruence. }
  destruct Hcode_dots as [C1 C2]. destruct Hds_dots as [D1 D2].
  destruct Ht as [-> | ->].
  - rewrite app_nil_r. rewrite (split_absent 47 ds Hds).
    cbn [resolve_segments]. rewrite C1, C2, D1, D2.
    change (str_eqb [] (str "..")) with false.
    change (str_eqb [] (str ".")) with false.
    cbv beta iota. cbn [List.rev app last].
    assert (Hl : str_in ds [str "."; str ".."] = false).
    { cbn [str_in existsb]. rewrite D1, D2. reflexivity. }
    rewrite Hl. cbn [join app].
    change (str "/") with [47]. cbn [app nonempty].
    unfold urlunparse. cbn [params nonempty path scheme netloc query fragment].
    unfold urlunsplit.
    change (nonempty (str "ncode.syosetu.com")) with true. cbn [orb].
    cbn [nonempty].
    match goal with
    | |- context [startswith (str "/") ?x] =>
        change (startswith (str "/") x) with true
    end.
    cbn [andb negb].
    change (nonempty (str "https")) with true. cbv beta iota.
    reflexivity.
  - match goal with
    | |- context [split 47 ?x] =>
        replace (split 47 x) with [ds; []]
          by (symmetry; exact (split_at 47 ds [] Hds))
    end.
    cbn [resolve_segments]. rewrite C1, C2, D1, D2.
    change (str_eqb [] (str "..")) with false.
    change (str_eqb [] (str ".")) with false.
    cbv beta iota. cbn [List.rev app last].
    change (str_in [] [str "."; str ".."]) with false. cbv beta iota.
    cbn [join app].
    change (str "/") with [47]. cbn [app nonempty].
    unfold urlunparse. cbn [params nonempty path scheme netloc query fragment].
    unfold urlunsplit.
    change (nonempty (str "ncode.syosetu.com")) with true. cbn [orb].
    cbn [nonempty].
    match goal with
    | |- context [startswith (str "/") ?x] =>
        change (startswith (str "/") x) with true
    end.
    cbn [andb negb].
    change (nonempty (str "https")) with true. cbv beta iota.
    reflexivity.
Qed.

(** ** Episode links with and without the slash at the end *)

(** No part of an episode URL without the slash at the end has the form
    that the sort key and the range filter look for. *)
Lemma ep_no_search_bare (ncode ds : pystr) :
  code_shape ncode -> ds <> [] -> forallb is_decimal ds = true ->
  re_search true (EP_NO_RE ncode)
    (str "https://ncode.syosetu.com" ++ 47 :: ncode ++ 47 :: ds) = None.
Proof.
  intros Hshape Hne Hd.
  pose proof (code_has_no_slash ncode Hshape) as Hns.
  assert (Hds : ~ In 47 ds) by (apply digits_have_none_of; auto).
  destruct (re_search true (EP_NO_RE ncode) _) as [m|] eqn:Es; [|reflexivity].
  exfalso.
  apply search_some in Es. destruct Es as (skipped & x & Hx & Hrun & _).
  apply run_some in Hrun. destruct Hrun as (pre & rest & cs & -> & M & _).
  apply ep_no_match_shape in M; [|exact Hns].
  destruct M as (l & ds' & -> & Hlen & Hl & Hd' & Hne' & _).
  assert (Hds' : ~ In 47 ds') by (apply digits_have_none_of; auto).
  assert (Hfirst : forall t, ds' ++ 47 :: t <> ncode ++ 47 :: ds).
  { intros t Ht. apply first_slash_unique in Ht; auto. destruct Ht as [<- _].
    destruct Hshape as (c & cds & ls & Hc & Hn & _).
    destruct ds' as [|d ds']; [discriminate Hc|]. injection Hc as <- _.
    cbn [forallb] in Hd'. apply andb_true_iff in Hd'. destruct Hd' as [Hdd _].
    destruct (is_n_cases _ Hn) as [E|E]; rewrite E in Hdd; discriminate Hdd. }
  assert (Hx' : str "https:" ++ 47 :: [] ++ 47 :: str "ncode.syosetu.com"
                  ++ 47 :: ncode ++ 47 :: ds
                = skipped ++ 47 :: l ++ 47 :: ds' ++ 47 :: rest).
  { etransitivity; [exact Hx|].
    repeat (rewrite <- app_assoc || rewrite <- app_comm_cons). reflexivity. }
  clear Hx.
  apply slash_step in Hx'; [|vm_compute; intuition discriminate].
  destruct Hx' as [[_ Hz]|(sk1 & _ & Hx')].
  { apply (first_slash_unique l []) in Hz; auto.
    destruct Hz as [-> _]. destruct ncode; [|discriminate Hlen].
    destruct Hshape as (c & cds & ls & Hc & _). discriminate Hc. }
  apply slash_step in Hx'; [|auto].
  destruct Hx' as [[_ Hz]|(sk2 & _ & Hx')].
  { apply first_slash_unique in Hz; auto; [|vm_compute; intuition discriminate].
    destruct Hz as [_ Hz]. exact (Hfirst _ Hz). }
  apply slash_step in Hx'; [|vm_compute; intuition discriminate].
  destruct Hx' as [[_ Hz]|(sk3 & _ & Hx')].
  { apply first_slash_unique in Hz; auto. destruct Hz as [_ Hz].
    apply Hds. rewrite <- Hz. apply in_or_app. right. left. reflexivity. }
  apply slash_step in Hx'; [|exact Hns].
  destruct Hx' as [[_ Hz]|(sk4 & _ & Hx')].
  - apply Hds. rewrite <- Hz. apply in_or_app. right. left. reflexivity.
  - apply Hds. rewrite Hx'. apply in_or_app. right. left. reflexivity.
Qed.

(** X21.  An episode link without the slash at the end is accepted but
    not numbered: for every work and every number, the path made of a
    slash, the identifier, a slash and the digits passes the test of
    [parse_episode_urls] and is joined to the host unchanged, while the
    sort key of the resulting URL is [10 ** 18] and the number that the
    range filter of [main] reads off it is 1. *)
Theorem episode_link_without_slash
    (rules : netloc_rules) (ncode ds : pystr) :
  code_shape ncode -> ds <> [] -> forallb is_decimal ds = true ->
  accepts ncode (47 :: ncode ++ 47 :: ds) = true
  /\ urljoin rules base_url (47 :: ncode ++ 47 :: ds)
     = Return (str "https://ncode.syosetu.com" ++ 47 :: ncode ++ 47 :: ds)
  /\ ep_no ncode (str "https://ncode.syosetu.com" ++ 47 :: ncode ++ 47 :: ds)
     = (10 ^ 18)%Z
  /\ ep_no_or_1 ncode (str "https://ncode.syosetu.com" ++ 47 :: ncode ++ 47 :: ds)
     = 1%Z.
Proof.
  intros Hshape Hne Hd. split; [|split; [|split]].
  - apply accepts_iff. exists ncode, ds, []. rewrite app_nil_r.
    repeat split; auto.
  - pose proof (urljoin_episode_path rules ncode ds [] Hshape Hne Hd
                  (or_introl eq_refl)) as H.
    rewrite app_nil_r in H. exact H.
  - unfold ep_no. rewrite ep_no_search_bare; auto.
  - unfold ep_no_or_1. rewrite ep_no_search_bare; auto.
Qed.

Lemma episode_link_without_slash_witness :
  code_shape (str "n1234ab")
  /\ accepts (str "n1234ab") (47 :: str "n1234ab" ++ 47 :: str "12") = true
  /\ urljoin no_rules base_url (47 :: str "n1234ab" ++ 47 :: str "12")
     = Return (str "https://ncode.syosetu.com"
                 ++ 47 :: str "n1234ab" ++ 47 :: str "12")
  /\ ep_no (str "n1234ab")
       (str "https://ncode.syosetu.com" ++ 47 :: str "n1234ab" ++ 47 :: str "12")
     = (10 ^ 18)%Z
  /\ ep_no_or_1 (str "n1234ab")
       (str "https://ncode.syosetu.com" ++ 47 :: str "n1234ab" ++ 47 :: str "12")
     = 1%Z.
Proof.
  assert (H : code_shape (str "n1234ab")).
  { exists 110, (str "1234"), (str "ab").
    repeat split; try reflexivity; cbn; lia. }
  split; [exact H|].
  apply (episode_link_without_slash no_rules (str "n1234ab") (str "12")).
  - exact H.
  - discriminate.
  - reflexivity.
Defined.

Lemma map_preimage {A B} (f : A -> B) (P : A -> Prop) (l : list B) :
  (forall y, In y l -> exists x, P x /\ y = f x) ->
  exists l', l = map f l' /\ Forall P l'.
Proof.
  induction l as [|y l IH]; intros H.
  - exists []. split; [reflexivity|constructor].
  - destruct (H y (or_introl eq_refl)) as (x & Hx & ->).
    destruct IH as (l' & -> & Hl'); [intros z Hz; apply H; right; exact Hz|].
    exists (x :: l'). split; [reflexivity|constructor; auto].
Qed.

Lemma ascending_map {A B} (f : A -> B) (key : B -> Z) (g : A -> Z) (l : list A) :
  Forall (fun x => key (f x) = g x) l ->
  ascending key (map f l) ->
  StronglySorted (fun a b => (g a <= g b)%Z) l.
Proof.
  unfold ascending. induction l as [|x l IH]; intros Hk Hs; [constructor|].
  cbn [map] in Hs. apply StronglySorted_inv in Hs. destruct Hs as [Hs Hx].
  apply Forall_cons_iff in Hk. destruct Hk as [Ex Hk].
  constructor; [apply IH; assumption|].
  rewrite Forall_map in Hx. rewrite Forall_forall in *.
  intros y Hy. rewrite <- Ex, <- (Hk y Hy). apply Hx. exact Hy.
Qed.

(** X22.  On a page that writes every episode link of the work with the
    identifier itself and a slash at the end, discovery is in numeric
    order: [parse_episode_urls] returns the episode URLs as the site
    writes them, each once, ascending by the value of their number. *)
Theorem discovery_in_numeric_order
    (rules : netloc_rules) (index_soup : Soup) (ncode : pystr) (out : list pystr) :
  code_shape ncode ->
  (forall a p,
     In a (anchors index_soup) -> anchor_path rules a = Return p ->
     episode_path ncode p ->
     exists ds, p = 47 :: ncode ++ 47 :: ds ++ [47]) ->
  parse_episode_urls rules index_soup ncode base_url = Return out ->
  exists dss,
    out = map (site_episode_url ncode) dss
    /\ NoDup dss
    /\ StronglySorted (fun a b => (int_of_digits a <= int_of_digits b)%Z) dss
    /\ Forall is_number dss.
Proof.
  intros Hshape Hpage H.
  pose proof (code_has_no_slash ncode Hshape) as Hns.
  unfold parse_episode_urls in H.
  destruct (scan_anchors rules ncode base_url (anchors index_soup) [] [])
    as [urls|e] eqn:E; [|discriminate H].
  cbn [rbind] in H. injection H as <-.
  assert (Hmem : forall u, In u (sort_by_key (ep_no ncode) urls) ->
            exists ds, is_number ds /\ u = site_episode_url ncode ds).
  { intros u Hu.
    apply (Permutation_in _ (sort_by_key_perm (ep_no ncode) urls)) in Hu.
    apply (scan_anchors_members rules ncode base_url _ [] [] urls
             (fun v => conj (fun H => H) (fun H => H)) E u) in Hu.
    destruct Hu as [[]|(a & p & Hin & Ha & Hacc & Hj)].
    apply accepts_iff in Hacc.
    destruct (Hpage a p Hin Ha Hacc) as (ds & Hp).
    destruct Hacc as (code & ds' & tail & Hp' & Hc & _ & Hne & Hd & Ht).
    rewrite Hp in Hp'. injection Hp' as Hp'.
    apply first_slash_unique in Hp'; auto using code_has_no_slash.
    destruct Hp' as [<- Hp'].
    assert (Hds' : ~ In 47 ds') by (apply digits_have_none_of; auto).
    assert (H10 : ~ In 10 ds') by (apply digits_have_none_of; auto).
    assert (Heq : ds = ds').
    { destruct Ht as [->|[->|[->| ->]]].
      - exfalso. rewrite app_nil_r in Hp'. apply Hds'. rewrite <- Hp'.
        apply in_or_app. right. left. reflexivity.
      - apply app_inj_tail in Hp'. destruct Hp' as [Hp' _]. exact Hp'.
      - apply app_inj_tail in Hp'. destruct Hp' as [_ Hp']. discriminate Hp'.
      - change (ds' ++ [47; 10]) with (ds' ++ [47] ++ [10]) in Hp'.
        rewrite app_assoc in Hp'. apply app_inj_tail in Hp'.
        destruct Hp' as [_ Hp']. discriminate Hp'. }
    subst ds'. exists ds. split; [split; assumption|].
    pose proof (urljoin_episode_path rules ncode ds [47] Hshape Hne Hd
                  (or_intror eq_refl)) as Hj'.
    subst p.
    assert (Hu : Return u
                 = Return (str "https://ncode.syosetu.com"
                             ++ 47 :: ncode ++ 47 :: ds ++ [47]))
      by (rewrite <- Hj; exact Hj').
    injection Hu as ->. reflexivity. }
  destruct (map_preimage (site_episode_url ncode) is_number _ Hmem)
    as (dss & Hout & Hnum).
  exists dss. split; [exact Hout|].
  assert (Hnd : NoDup (sort_by_key (ep_no ncode) urls)).
  { eapply Permutation_NoDup; [symmetry; apply sort_by_key_perm|].
    eapply scan_anchors_nodup; [| |exact E].
    - intros u; reflexivity.
    - constructor. }
  split; [|split; [|exact Hnum]].
  - rewrite Hout in Hnd. apply NoDup_map_inv in Hnd. exact Hnd.
  - apply (ascending_map (site_episode_url ncode) (ep_no ncode)).
    + eapply Forall_impl; [|exact Hnum]. intros ds [Hne Hd].
      destruct (ep_no_search ncode ds Hshape Hne Hd) as (m & Hm & Hg).
      unfold ep_no, site_episode_url, base_url. rewrite Hm, Hg. reflexivity.
    + rewrite <- Hout. apply sort_by_key_ascending.
Qed.

Lemma discovery_in_numeric_order_witness :
  code_shape (str "n1234ab")
  /\ exists dss,
       map episode_url [1; 2; 3]%Z = map (site_episode_url (str "n1234ab")) dss
       /\ NoDup dss
       /\ StronglySorted (fun a b => (int_of_digits a <= int_of_digits b)%Z) dss
       /\ Forall is_number dss.
Proof.
  assert (H : code_shape (str "n1234ab")).
  { exists 110, (str "1234"), (str "ab").
    repeat split; try reflexivity; cbn; lia. }
  split; [exact H|].
  apply (discovery_in_numeric_order no_rules (page (map link [1; 3; 3; 2]%Z) None)
           (str "n1234ab") (map episode_url [1; 2; 3]%Z)).
  - exact H.
  - intros a p Hin Ha _. cbn [anchors page map In] in Hin.
    destruct Hin as [<-|[<-|[<-|[<-|[]]]]]; vm_compute in Ha;
      injection Ha as <-;
      [exists (str "1")|exists (str "3")|exists (str "3")|exists (str "2")];
      reflexivity.
  - vm_compute. reflexivity.
Defined.

(** X23.  On episode URLs as the site writes them, the range filter of
    [main] filters by the value of the number: it keeps, in order, the
    URLs whose number is at least [--from-ep] and at most [--to-ep], for
    each bound that is given. *)
Theorem filter_by_number
    (ncode : pystr) (from_ep to_ep : option Z) (dss : list pystr) :
  code_shape ncode -> Forall is_number dss ->
  filter_urls ncode from_ep to_ep (map (site_episode_url ncode) dss)
  = map (site_episode_url ncode)
      (filter (fun ds => in_requested_range from_ep to_ep (int_of_digits ds)) dss).
Proof.
  intros Hshape Hnum. unfold filter_urls.
  induction Hnum as [|ds dss [Hne Hd] _ IH]; [reflexivity|].
  cbn [map filter].
  assert (Hk : ep_no_or_1 ncode (site_episode_url ncode ds) = int_of_digits ds).
  { destruct (ep_no_search ncode ds Hshape Hne Hd) as (m & Hm & Hg).
    unfold ep_no_or_1, site_episode_url, base_url. rewrite Hm, Hg. reflexivity. }
  rewrite Hk, IH.
  destruct (in_requested_range from_ep to_ep (int_of_digits ds)); reflexivity.
Qed.

Lemma filter_by_number_witness :
  code_shape (str "n1234ab")
  /\ Forall is_number (map str_of_int one_to_ten)
  /\ filter_urls (str "n1234ab") (Some 5%Z) (Some 7%Z)
       (map (site_episode_url (str "n1234ab")) (map str_of_int one_to_ten))
     = map (site_episode_url (str "n1234ab"))
         (filter (fun ds => in_requested_range (Some 5%Z) (Some 7%Z)
                              (int_of_digits ds))
                 (map str_of_int one_to_ten)).
Proof.
  assert (H : code_shape (str "n1234ab")).
  { exists 110, (str "1234"), (str "ab").
    repeat split; try reflexivity; cbn; lia. }
  assert (Hn : Forall is_number (map str_of_int one_to_ten)).
  { repeat constructor; discriminate. }
  split; [exact H|]. split; [exact Hn|].
  apply (filter_by_number (str "n1234ab") (Some 5%Z) (Some 7%Z)
           (map str_of_int one_to_ten)); assumption.
Defined.

(** ** The number of requests of a run *)

Lemma get_soup_sends (self : HttpClient) (u : pystr) (w w' : world)
    (r : result Soup) :
  get_soup self u w = (r, w') ->
  (sent w' <= sent w + Z.to_nat (retries self))%nat.
Proof.
  unfold get_soup, bind. destruct (get self u w) as [[resp|e] w1] eqn:G;
    intros [= _ <-]; unfold get in G; apply get_loop_sends_at_most in G; exact G.
Qed.

Lemma fetch_general_all_no_sends (client : HttpClient) (ncode : pystr)
    (w w' : world) (r : result (option json)) :
  fetch_general_all_no client ncode w = (r, w') ->
  (sent w' <= sent w + Z.to_nat (retries client))%nat.
Proof.
  unfold fetch_general_all_no, bind, attempt.
  destruct (get client _ w) as [[resp|e] w1] eqn:G; intros H;
    unfold get in G; apply get_loop_sends_at_most in G.
  - assert (w' = w1) as -> by (destruct (json_of resp); injection H as _ <-; auto).
    exact G.
  - assert (w' = w1) as -> by (destruct e; injection H as _ <-; auto).
    exact G.
Qed.

Lemma fetch_episodes_sends (args : Args) (plan : Plan) (urls : list pystr) :
  forall episodes w r w',
    fetch_episodes args plan urls episodes w = (r, w') ->
    (sent w' <= sent w + Z.to_nat (retries (plan_client plan)) * List.length urls)%nat.
Proof.
  induction urls as [|u rest IH]; intros episodes w r w' H;
    cbn [fetch_episodes] in H.
  - injection H as _ <-. lia.
  - unfold bind at 1 in H. unfold extract_episode, bind at 1 in H.
    destruct (get_soup (plan_client plan) u w) as [[s|x] w1] eqn:Es;
      apply get_soup_sends in Es.
    + unfold ret in H. unfold bind at 1, print in H.
      apply IH in H. cbn [sent List.length] in *. lia.
    + injection H as _ <-. cbn [List.length]. lia.
Qed.

Lemma discover_sends (rules : netloc_rules) (args : Args) (w w' : world)
    (r : result Plan) :
  discover rules args w = (r, w') ->
  (sent w' <= sent w + 2 * Z.to_nat (Zpy_max 1 (arg_retry args)))%nat
  /\ forall plan, r = Return plan ->
                  retries (plan_client plan) = Zpy_max 1 (arg_retry args).
Proof.
  unfold discover. unfold bind at 1, lift.
  destruct (extract_ncode rules (arg_url args)) as [ncode|x].
  2:{ intros [= <- <-]. split; [lia|discriminate]. }
  unfold bind at 1, HttpClient_init. unfold bind at 1, set_last_request, ret.
  unfold bind at 1.
  match goal with |- context [fetch_general_all_no ?c ncode ?w0] =>
    destruct (fetch_general_all_no c ncode w0) as [r1 w1] eqn:E1;
    apply fetch_general_all_no_sends in E1; cbn [sent retries] in E1
  end.
  destruct r1 as [ga|x]; [|intros [= <- <-]; split; [lia|discriminate]].
  unfold bind at 1.
  destruct (get_soup _ (normalize_index_url ncode) w1) as [r2 w2] eqn:E2.
  apply get_soup_sends in E2. cbn [retries] in E2.
  destruct r2 as [s|x]; [|intros [= <- <-]; split; [lia|discriminate]].
  unfold bind at 1, lift.
  destruct (parse_episode_urls rules s ncode base_url);
    intros [= <- <-]; (split; [lia|]); [|discriminate].
  intros plan [= <-]. reflexivity.
Qed.

(** X24.  A run sends a bounded number of requests: with [n] the retry
    count of the client, [max(1, --retry)], [main] issues at most [n]
    requests for each of the API, the index page and the URLs that the
    range filter kept, however the run ends. *)
Theorem main_request_budget
    (rules : netloc_rules) (args : Args) (w w' : world) (r : result unit) :
  main rules args w = (r, w') ->
  (sent w'
   <= sent w
      + Z.to_nat (Zpy_max 1 (arg_retry args))
        * (2 + match fst (discover rules args w) with
               | Return plan => List.length (plan_filtered_urls plan)
               | Raise _ => 0
               end))%nat.
Proof.
  unfold main. unfold bind at 1.
  destruct (discover rules args w) as [[plan|x] w1] eqn:Ed;
    destruct (discover_sends rules args w w1 _ Ed) as [S1 Hr]; cbn [fst].
  - specialize (Hr plan eq_refl). unfold bind at 1.
    destruct (fetch_episodes args plan (plan_filtered_urls plan) [] w1)
      as [r2 w2] eqn:Ef.
    apply fetch_episodes_sends in Ef. rewrite Hr in Ef.
    destruct r2 as [episodes|x]; [|intros [= _ <-]; lia].
    destruct (assemble_spec args plan episodes w2)
      as [[_ ->]|(_ & w3 & -> & T3 & S3 & _)].
    + intros [= _ <-]. lia.
    + intros [= _ <-]. rewrite S3. lia.
  - intros [= _ <-]. lia.
Qed.

Lemma main_request_budget_witness :
  (sent (snd (main no_rules (sample_args None None) (fresh_world broken_site)))
   <= sent (fresh_world broken_site)
      + Z.to_nat (Zpy_max 1 (arg_retry (sample_args None None)))
        * (2 + match fst (discover no_rules (sample_args None None)
                            (fresh_world broken_site)) with
               | Return plan => List.length (plan_filtered_urls plan)
               | Raise _ => 0
               end))%nat.
Proof.
  apply (main_request_budget no_rules (sample_args None None)
           (fresh_world broken_site) _
           (fst (main no_rules (sample_args None None) (fresh_world broken_site)))).
  vm_compute. reflexivity.
Defined.
